(** * forge_docs: the documentation parser and its query index

    A shallow embedding of [forge_docs/models.py], [forge_docs/parser.py] and
    the query tools of [forge_docs/server.py], with the properties of the
    section hierarchy, the code-block extraction and the queries.

    Text is a list of characters.  Characters are read as 7-bit ASCII code
    points: [lower], [is_space] and [is_word] are Python's [str.lower],
    [str.isspace] and the [\w] class on that range. *)

From Stdlib Require Import ZArith Ascii String List Lia Bool Sorted.
From stdpp Require Import base list strings.
Import ListNotations.

#[local] Set Warnings "-register-all".

Local Open Scope nat_scope.
Local Open Scope list_scope.

(* ===================================================================== *)
(** * Text: the string operations the program uses                       *)
(* ===================================================================== *)

Module Text.

(** A literal. *)
Definition str (s : string) : list ascii := list_ascii_of_string s.

(** The line feed ['\n']. *)
Definition nl : ascii := ascii_of_nat 10.

(** [ord(c)] *)
Definition ord (c : ascii) : nat := nat_of_ascii c.

(** [c.isspace()]: TAB, LF, VT, FF, CR, the four separators FS, GS, RS, US
    and the space. *)
Definition is_space (c : ascii) : bool :=
  let n := ord c in
  ((9 <=? n) && (n <=? 13)) || ((28 <=? n) && (n <=? 32)).

Definition is_upper (c : ascii) : bool :=
  let n := ord c in (65 <=? n) && (n <=? 90).

(** The class [\w]: letters, digits and the underscore. *)
Definition is_word (c : ascii) : bool :=
  let n := ord c in
  ((48 <=? n) && (n <=? 57)) || ((65 <=? n) && (n <=? 90))
  || ((97 <=? n) && (n <=? 122)) || (n =? 95).

Definition lower_char (c : ascii) : ascii :=
  if is_upper c then ascii_of_nat (ord c + 32) else c.

(** [s.lower()] *)
Definition lower (s : list ascii) : list ascii := map lower_char s.

Fixpoint takewhile {A} (p : A -> bool) (l : list A) : list A :=
  match l with
  | [] => []
  | x :: l' => if p x then x :: takewhile p l' else []
  end.

Fixpoint dropwhile {A} (p : A -> bool) (l : list A) : list A :=
  match l with
  | [] => []
  | x :: l' => if p x then dropwhile p l' else l
  end.

(** [s.strip()] *)
Definition lstrip (s : list ascii) : list ascii := dropwhile is_space s.
Definition rstrip (s : list ascii) : list ascii := rev (dropwhile is_space (rev s)).
Definition strip (s : list ascii) : list ascii := rstrip (lstrip s).

(** [s.startswith(p)] *)
Fixpoint startswith (p s : list ascii) : bool :=
  match p, s with
  | [], _ => true
  | _ :: _, [] => false
  | a :: p', b :: s' => Ascii.eqb a b && startswith p' s'
  end.

(** [sub in s] *)
Fixpoint contains (sub s : list ascii) : bool :=
  startswith sub s ||
  match s with
  | [] => false
  | _ :: s' => contains sub s'
  end.

(** [a == b] *)
Definition eqb (a b : list ascii) : bool := bool_decide (a = b).

(** [s.split('\n')]: never empty, one more piece than there are line
    feeds. *)
Fixpoint split_lines (s : list ascii) : list (list ascii) :=
  match s with
  | [] => [[]]
  | c :: s' =>
      if Ascii.eqb c nl then [] :: split_lines s'
      else match split_lines s' with
           | l :: ls => (c :: l) :: ls
           | [] => [[c]]
           end
  end.

(** [sep.join(parts)] *)
Fixpoint join (sep : list ascii) (parts : list (list ascii)) : list ascii :=
  match parts with
  | [] => []
  | [x] => x
  | x :: xs => x ++ sep ++ join sep xs
  end.

(** An empty line. *)
Definition blank : string := EmptyString.

(** A document given line by line. *)
Definition unlines (ls : list string) : list ascii := join [nl] (map str ls).

End Text.
Import Text.

(* ===================================================================== *)
(** * models.py                                                          *)
(* ===================================================================== *)

Inductive SectionLevel := MAIN | SUB | DETAIL.

(** The [value] of an enumeration member. *)
Definition level_value (l : SectionLevel) : nat :=
  match l with MAIN => 1 | SUB => 2 | DETAIL => 3 end.

Record CodeBlock := mkCodeBlock {
  language : list ascii;
  code : list ascii;
  context_section : list ascii;
  cb_line_number : nat
}.

(** [CodeBlock.__str__] *)
Definition CodeBlock_str (cb : CodeBlock) : list ascii :=
  str "```" ++ language cb ++ [nl] ++ code cb ++ [nl] ++ str "```".

Inductive Section := mkSection {
  title : list ascii;
  level : SectionLevel;
  content : list ascii;
  path : list ascii;
  line_number : nat;
  code_blocks : list CodeBlock;
  subsections : list Section
}.

(** [Section.get_full_content]; the recursive calls leave
    [include_subsections] at its default, [True]. *)
Fixpoint get_full_content_rec (s : Section) : list ascii :=
  repeat "#"%char (level_value (level s)) ++ str " " ++ title s
    ++ [nl; nl] ++ content s
    ++ concat (map (fun sub => [nl; nl] ++ get_full_content_rec sub) (subsections s)).

Definition get_full_content (include_subsections : bool) (s : Section) : list ascii :=
  if include_subsections then get_full_content_rec s
  else repeat "#"%char (level_value (level s)) ++ str " " ++ title s
         ++ [nl; nl] ++ content s.

(** [APIEntry], without [parameters], [returns] and [examples]: they keep
    their defaults and are never read. *)
Record APIEntry := mkAPIEntry {
  api_name : list ascii;
  api_type : list ascii;
  description : list ascii;
  section_path : list ascii
}.

(** A Python [dict] keyed by text: insertion ordered; assigning to a key that
    is present replaces the value where the key stands. *)
Fixpoint dict_get {V} (d : list (list ascii * V)) (k : list ascii) : option V :=
  match d with
  | [] => None
  | (k', v) :: d' => if eqb k' k then Some v else dict_get d' k
  end.

Fixpoint dict_set {V} (d : list (list ascii * V)) (k : list ascii) (v : V)
  : list (list ascii * V) :=
  match d with
  | [] => [(k, v)]
  | (k', v') :: d' => if eqb k' k then (k', v) :: d' else (k', v') :: dict_set d' k v
  end.

Definition dict_keys {V} (d : list (list ascii * V)) : list (list ascii) := map fst d.
Definition dict_values {V} (d : list (list ascii * V)) : list V := map snd d.

Record ParsedDoc := mkParsedDoc {
  sections : list Section;
  sections_by_path : list (list ascii * Section);
  all_code_blocks : list CodeBlock;
  api_entries : list (list ascii * APIEntry)
}.

(** One entry of a search result: the dict with the keys ["title"], ["path"],
    ["preview"] and ["type"]. *)
Record SearchResult := mkSearchResult {
  r_title : list ascii;
  r_path : list ascii;
  r_preview : list ascii;
  r_type : list ascii
}.

Definition section_matches (query_lower : list ascii) (s : Section) : bool :=
  contains query_lower (lower (title s)) || contains query_lower (lower (content s)).

Definition make_preview (c : list ascii) : list ascii :=
  if 200 <? length c then take 200 c ++ str "..." else c.

Definition make_result (s : Section) : SearchResult :=
  {| r_title := title s; r_path := path s;
     r_preview := make_preview (content s); r_type := str "section" |}.

(** The loop of [ParsedDoc.search]: [results] is the list collected so far;
    the [break] is tested only after an append. *)
Fixpoint search_loop (query_lower : list ascii) (max_results : Z)
    (todo : list Section) (results : list SearchResult) : list SearchResult :=
  match todo with
  | [] => results
  | s :: todo' =>
      if section_matches query_lower s then
        let results' := results ++ [make_result s] in
        if (max_results <=? Z.of_nat (length results'))%Z then results'
        else search_loop query_lower max_results todo' results'
      else search_loop query_lower max_results todo' results
  end.

(** [ParsedDoc.search] *)
Definition search (doc : ParsedDoc) (query : list ascii) (max_results : Z)
  : list SearchResult :=
  search_loop (lower query) max_results (sections doc) [].

(* ===================================================================== *)
(** * parser.py                                                          *)
(* ===================================================================== *)

(** While the document is read, a [Section] is a mutable object that the
    stack of open sections, its parent's [subsections] and the parser's
    [sections] all refer to.  The store holds the objects in allocation
    order; a reference is an index into it. *)
Record SectionObj := mkObj {
  o_title : list ascii;
  o_level : SectionLevel;
  o_content : list ascii;
  o_path : list ascii;
  o_line_number : nat;
  o_code_blocks : list CodeBlock;
  o_subsections : list nat
}.

(** [obj.content += s] *)
Definition append_content (s : list ascii) (o : SectionObj) : SectionObj :=
  mkObj (o_title o) (o_level o) (o_content o ++ s) (o_path o) (o_line_number o)
        (o_code_blocks o) (o_subsections o).

(** [obj.code_blocks.append(cb)] *)
Definition append_code_block (cb : CodeBlock) (o : SectionObj) : SectionObj :=
  mkObj (o_title o) (o_level o) (o_content o) (o_path o) (o_line_number o)
        (o_code_blocks o ++ [cb]) (o_subsections o).

(** [obj.subsections.append(r)] *)
Definition append_subsection (r : nat) (o : SectionObj) : SectionObj :=
  mkObj (o_title o) (o_level o) (o_content o) (o_path o) (o_line_number o)
        (o_code_blocks o) (o_subsections o ++ [r]).

(** Reading a field through a reference.  The references the parser holds
    are always allocated ([wf_stack] and [ok_subs] below); the second
    branches are never taken. *)
Definition title_of (h : list SectionObj) (r : nat) : list ascii :=
  match h !! r with Some o => o_title o | None => [] end.

Definition path_of (h : list SectionObj) (r : nat) : list ascii :=
  match h !! r with Some o => o_path o | None => [] end.

Definition level_of (h : list SectionObj) (r : nat) : nat :=
  match h !! r with Some o => level_value (o_level o) | None => 0 end.

(** The tail [\s+(.+)$] of the header pattern on what follows the markers:
    as much white space as leaves at least one character for the title. *)
Definition match_title (rest : list ascii) : option (list ascii) :=
  let w := length (takewhile is_space rest) in
  let j := Nat.min w (length rest - 1) in
  if 1 <=? j then Some (drop j rest) else None.

(** The pattern with a marker run of exactly [level_value l] characters. *)
Definition match_markers (l : SectionLevel) (line : list ascii)
  : option (SectionLevel * list ascii) :=
  let k := level_value l in
  if eqb (take k line) (repeat "#"%char k) then
    option_map (pair l) (match_title (drop k line))
  else None.

(** [re.match(r'^(#{1,3})\s+(.+)$', line)]: the greedy run [#{1,3}] is tried
    with three markers, then two, then one.  The result is the level
    [SectionLevel(len(group(1)))] and [group(2)].  A line of the document
    holds no line feed, so [.] and [$] need no special case. *)
Definition header_match (line : list ascii) : option (SectionLevel * list ascii) :=
  match match_markers DETAIL line with
  | Some m => Some m
  | None =>
      match match_markers SUB line with
      | Some m => Some m
      | None => match_markers MAIN line
      end
  end.

(** [line.strip().startswith('```')] *)
Definition is_fence (line : list ascii) : bool :=
  startswith (str "```") (strip line).

(** [ForgeDocParser._build_path] *)
Definition _build_path (h : list SectionObj) (stack : list nat) (title : list ascii)
  : list ascii :=
  join (str "/") (map (title_of h) stack ++ [title]).

(** The [for parent in reversed(stack)] loop of [_add_section_to_hierarchy],
    on the reversed stack: the first entry with a smaller level. *)
Fixpoint find_parent (h : list SectionObj) (lvl : nat) (rstack : list nat)
  : option nat :=
  match rstack with
  | [] => None
  | parent :: rest =>
      if level_of h parent <? lvl then Some parent else find_parent h lvl rest
  end.

(** [ForgeDocParser._add_section_to_hierarchy]: [r] is the new section,
    already in the store; the result is the store and [self.sections]. *)
Definition _add_section_to_hierarchy (h : list SectionObj) (roots : list nat)
    (r : nat) (stack : list nat) : list SectionObj * list nat :=
  match stack with
  | [] => (h, roots ++ [r])
  | _ =>
      match find_parent h (level_of h r) (rev stack) with
      | Some parent => (alter (append_subsection r) parent h, roots)
      | None => (h, roots ++ [r])
      end
  end.

(** [while stack and stack[-1].level.value >= level: stack.pop()] *)
Definition pop_stack (h : list SectionObj) (lvl : nat) (stack : list nat) : list nat :=
  rev (dropwhile (fun r => lvl <=? level_of h r) (rev stack)).

(** The [while] loop of [_parse_code_block]: [rest] is [lines[i:]]. *)
Fixpoint scan_code_block (rest : list (list ascii)) (i : nat)
    (code_lines : list (list ascii)) : option (list (list ascii)) * nat :=
  match rest with
  | [] => (None, i)
  | l :: rest' =>
      if eqb (strip l) (str "```") then (Some code_lines, i)
      else scan_code_block rest' (S i) (code_lines ++ [l])
  end.

(** [ForgeDocParser._parse_code_block] *)
Definition _parse_code_block (lines : list (list ascii)) (start_line : nat)
  : option CodeBlock * nat :=
  match lines !! start_line with
  | None => (None, start_line)
  | Some first =>
      if negb (is_fence first) then (None, start_line)
      else
        let first_line := strip first in
        let lang := strip (drop 3 first_line) in
        let language := match lang with [] => str "plaintext" | _ => lang end in
        match scan_code_block (drop (S start_line) lines) (S start_line) [] with
        | (Some code_lines, i) =>
            (Some (mkCodeBlock language (join [nl] code_lines) [] start_line), i)
        | (None, i) => (None, i)
        end
  end.

(** The state of the loop of [parse_document]. *)
Record PState := mkPState {
  heap : list SectionObj;
  stack : list nat;            (* current_section_stack *)
  roots : list nat;            (* self.sections *)
  blocks : list CodeBlock;     (* self.code_blocks *)
  idx : nat                    (* i *)
}.

Definition init_state : PState := mkPState [] [] [] [] 0.

(** One turn of the [while i < len(lines)] loop, [i += 1] included. *)
Definition step (lines : list (list ascii)) (st : PState) : PState :=
  match lines !! idx st with
  | None => st
  | Some line =>
      match header_match line with
      | Some (lvl, g) =>
          let title := strip g in
          let r := length (heap st) in
          let section :=
            mkObj title lvl [] (_build_path (heap st) (stack st) title) (idx st) [] [] in
          let hr := _add_section_to_hierarchy (heap st ++ [section]) (roots st) r (stack st) in
          mkPState (fst hr)
                   (pop_stack (fst hr) (level_value lvl) (stack st) ++ [r])
                   (snd hr) (blocks st) (S (idx st))
      | None =>
          if is_fence line then
            let ce := _parse_code_block lines (idx st) in
            match fst ce, last (stack st) with
            | Some cb, Some top =>
                let cb' := mkCodeBlock (language cb) (code cb)
                                       (path_of (heap st) top) (cb_line_number cb) in
                mkPState (alter (append_code_block cb') top (heap st))
                         (stack st) (roots st) (blocks st ++ [cb']) (S (snd ce))
            | _, _ =>
                mkPState (heap st) (stack st) (roots st) (blocks st) (S (snd ce))
            end
          else
            match last (stack st) with
            | Some top =>
                mkPState (alter (append_content (line ++ [nl])) top (heap st))
                         (stack st) (roots st) (blocks st) (S (idx st))
            | None =>
                mkPState (heap st) (stack st) (roots st) (blocks st) (S (idx st))
            end
      end
  end.

(** The loop itself.  Every turn advances [i], so [length lines] turns are
    enough ([parse_loop_exits]). *)
Fixpoint parse_loop (fuel : nat) (lines : list (list ascii)) (st : PState) : PState :=
  match fuel with
  | 0 => st
  | S fuel' =>
      if idx st <? length lines then parse_loop fuel' lines (step lines st)
      else st
  end.

(** The object graph when the loop is over, as the tree of [models.py].
    A child is allocated after its parent, so the depth of the recursion is
    bounded by the size of the store ([freeze_roots_total]). *)
Fixpoint freeze (fuel : nat) (h : list SectionObj) (r : nat) : option Section :=
  match fuel with
  | 0 => None
  | S fuel' =>
      match h !! r with
      | None => None
      | Some o =>
          match mapM (freeze fuel' h) (o_subsections o) with
          | None => None
          | Some subs =>
              Some (mkSection (o_title o) (o_level o) (o_content o) (o_path o)
                              (o_line_number o) (o_code_blocks o) subs)
          end
      end
  end.

Definition freeze_roots (st : PState) : option (list Section) :=
  mapM (freeze (length (heap st)) (heap st)) (roots st).

(** [ForgeDocParser._flatten_sections] *)
Fixpoint _flatten_section (s : Section) : list Section :=
  s :: concat (map _flatten_section (subsections s)).

Definition _flatten_sections (ss : list Section) : list Section :=
  concat (map _flatten_section ss).

(** One alternative of [Creating a (\w+)|class (\w+)] at the start of [s]. *)
Definition match_word_after (lit s : list ascii) : option (list ascii) :=
  if startswith lit s then
    match takewhile is_word (drop (length lit) s) with
    | [] => None
    | w => Some w
    end
  else None.

(** [re.search(r'Creating a (\w+)|class (\w+)', s)]: leftmost position,
    first alternative first; the result is [group(1) or group(2)]. *)
Fixpoint search_class_name (s : list ascii) : option (list ascii) :=
  match match_word_after (str "Creating a ") s with
  | Some w => Some w
  | None =>
      match match_word_after (str "class ") s with
      | Some w => Some w
      | None =>
          match s with
          | [] => None
          | _ :: s' => search_class_name s'
          end
      end
  end.

(** [s.split('\n')[0]] *)
Definition first_line_of (s : list ascii) : list ascii :=
  match split_lines s with l :: _ => l | [] => [] end.

(** [ForgeDocParser._extract_api_entries] *)
Definition _extract_api_entries (flat : list Section) : list (list ascii * APIEntry) :=
  fold_left
    (fun entries s =>
       if contains (str "class") (lower (title s)) || contains (str "Creating a") (title s)
       then match search_class_name (title s) with
            | Some class_name =>
                dict_set entries class_name
                  (mkAPIEntry class_name (str "class") (first_line_of (content s)) (path s))
            | None => entries
            end
       else entries)
    flat [].

(** [ForgeDocParser.parse_document].  The store always freezes
    ([freeze_roots_total]); the empty list stands in the unused branch. *)
Definition parse_state (content : list ascii) : PState :=
  let lines := split_lines content in
  parse_loop (length lines) lines init_state.

Definition parse_document (content : list ascii) : ParsedDoc :=
  let st := parse_state content in
  let sections := match freeze_roots st with Some ss => ss | None => [] end in
  let flat := _flatten_sections sections in
  mkParsedDoc sections
              (fold_left (fun d s => dict_set d (path s) s) flat [])
              (blocks st)
              (_extract_api_entries flat).

(* ===================================================================== *)
(** * server.py: the query tools                                         *)
(* ===================================================================== *)

(** The tools read the global [PARSED_DOC], an [Optional[ParsedDoc]]; it is
    an argument here.  [if not PARSED_DOC] holds for [None] only.  The
    bodies below are the [try] blocks: the operations in them raise
    nothing, so no [except] branch is taken. *)

(** The truth value of an optional text argument: [None] and the empty text
    are false. *)
Definition truthy (o : option (list ascii)) : bool :=
  match o with
  | Some (_ :: _) => true
  | _ => false
  end.

(** [[p for p in sections_by_path.keys() if path.lower() in p.lower()]] *)
Definition similar_paths (doc : ParsedDoc) (path : list ascii) : list (list ascii) :=
  List.filter (fun p => contains (lower path) (lower p))
              (dict_keys (sections_by_path doc)).

(** [get_section] *)
Definition get_section (PARSED_DOC : option ParsedDoc) (path : list ascii) : list ascii :=
  match PARSED_DOC with
  | None => str "Documentation not loaded"
  | Some doc =>
      match dict_get (sections_by_path doc) path with
      | None =>
          match similar_paths doc path with
          | [] => str "Section not found: " ++ path
          | similar =>
              str "Section not found. Did you mean one of these?" ++ [nl]
                ++ join [nl] (map (fun p => str "- " ++ p) (take 5 similar))
          end
      | Some section => get_full_content true section
      end
  end.

(** The first loop of [get_code_examples]; [relevant] is
    [relevant_examples] so far. *)
Fixpoint examples_loop (topic_lower : list ascii) (language_arg : option (list ascii))
    (todo : list CodeBlock) (relevant : list CodeBlock) : list CodeBlock :=
  match todo with
  | [] => relevant
  | code_block :: todo' =>
      if contains topic_lower (lower (code code_block))
         || contains topic_lower (lower (context_section code_block))
      then
        if truthy language_arg
           && negb (eqb (lower (language code_block))
                        (lower (match language_arg with Some l => l | None => [] end)))
        then examples_loop topic_lower language_arg todo' relevant
        else examples_loop topic_lower language_arg todo' (relevant ++ [code_block])
      else examples_loop topic_lower language_arg todo' relevant
  end.

(** [relevant_examples[:10]], the blocks that are rendered. *)
Definition selected_examples (doc : ParsedDoc) (topic : list ascii)
    (language_arg : option (list ascii)) : list CodeBlock :=
  take 10 (examples_loop (lower topic) language_arg (all_code_blocks doc) []).

Definition format_example (example : CodeBlock) : list ascii :=
  str "**From section:** " ++ context_section example ++ [nl; nl]
    ++ CodeBlock_str example.

(** [get_code_examples] *)
Definition get_code_examples (PARSED_DOC : option ParsedDoc) (topic : list ascii)
    (language_arg : option (list ascii)) : list ascii :=
  match PARSED_DOC with
  | None => str "Documentation not loaded"
  | Some doc =>
      match examples_loop (lower topic) language_arg (all_code_blocks doc) [] with
      | [] => str "No code examples found for '" ++ topic ++ str "'"
      | _ => join [nl; nl] (map format_example (selected_examples doc topic language_arg))
      end
  end.

(** The test that switches [capturing] on in [get_api_info]. *)
Definition starts_method (method_lower line : list ascii) : bool :=
  contains method_lower (lower line)
  && (contains (str "##") line || contains (str "###") line).

(** [line.strip().startswith('#')] *)
Definition is_hash_line (line : list ascii) : bool :=
  startswith (str "#") (strip line).

(** The [for line in lines] loop of [get_api_info]. *)
Fixpoint method_loop (method_lower : list ascii) (todo : list (list ascii))
    (capturing : bool) (method_section : list (list ascii)) : list (list ascii) :=
  match todo with
  | [] => method_section
  | line :: todo' =>
      if starts_method method_lower line then
        method_loop method_lower todo' true (method_section ++ [line])
      else if capturing && is_hash_line line then method_section
      else method_loop method_lower todo' capturing
             (if capturing then method_section ++ [line] else method_section)
  end.

(** The body of [if method_name:]. *)
Definition narrow_to_method (text method_name : list ascii) : list ascii :=
  match method_loop (lower method_name) (split_lines text) false [] with
  | [] => text
  | method_section => join [nl] method_section
  end.

(** [get_api_info] *)
Definition get_api_info (PARSED_DOC : option ParsedDoc) (class_name : list ascii)
    (method_name : option (list ascii)) : list ascii :=
  match PARSED_DOC with
  | None => str "Documentation not loaded"
  | Some doc =>
      match dict_get (api_entries doc) class_name with
      | None =>
          match List.find (fun s => contains (lower class_name) (lower (title s)))
                          (dict_values (sections_by_path doc)) with
          | Some section =>
              let text := get_full_content true section in
              if truthy method_name
              then narrow_to_method text (match method_name with Some m => m | None => [] end)
              else text
          | None => str "No API documentation found for '" ++ class_name ++ str "'"
          end
      | Some api_entry =>
          str "# " ++ api_name api_entry ++ [nl; nl]
            ++ str "Type: " ++ api_type api_entry ++ [nl; nl]
            ++ description api_entry ++ [nl; nl]
            ++ match section_path api_entry with
               | [] => []
               | _ =>
                   match dict_get (sections_by_path doc) (section_path api_entry) with
                   | Some section => get_full_content true section
                   | None => []
                   end
               end
      end
  end.

(* ===================================================================== *)
(** * The properties, as definitions                                     *)
(* ===================================================================== *)


(** A code block whose opening fence has a closing fence below it. *)
Definition closed_block (lines : list (list ascii)) (cb : CodeBlock) : Prop :=
  exists j l, cb_line_number cb < j /\ lines !! j = Some l /\ strip l = str "```".

(** What holds of every object [o] at reference [p] of the store [h] while
    the document [lines] is read. *)
Record obj_ok (lines : list (list ascii)) (h : list SectionObj) (p : nat)
    (o : SectionObj) : Prop := mkObjOk {
  ok_subs :
    Forall (fun r => p < r < length h /\ level_value (o_level o) < level_of h r)
           (o_subsections o);
  ok_blocks : Forall (closed_block lines) (o_code_blocks o);
  ok_origin :
    exists line g, lines !! o_line_number o = Some line
                   /\ header_match line = Some (o_level o, g)
                   /\ o_title o = strip g
}.

(** The invariant of the loop of [parse_document]. *)
Record wf_state (lines : list (list ascii)) (st : PState) : Prop := mkWf {
  wf_heap : forall p o, heap st !! p = Some o -> obj_ok lines (heap st) p o;
  wf_stack : Forall (fun r => r < length (heap st)) (stack st);
  wf_roots : Forall (fun r => r < length (heap st)) (roots st);
  wf_blocks : Forall (closed_block lines) (blocks st)
}.

(** A section of the tree shows the fields of an object of the store. *)
Definition shows (o : SectionObj) (s : Section) : Prop :=
  title s = o_title o /\ level s = o_level o /\ content s = o_content o
  /\ path s = o_path o /\ line_number s = o_line_number o
  /\ code_blocks s = o_code_blocks o.

(** The narrowing of [get_api_info] in the words of the specification: the
    run of lines from the first line that mentions the method next to a
    level-2 or level-3 marker, up to the next header line; [is_header] says
    what a header line is. *)
Definition method_run (is_header : list ascii -> bool) (method_name : list ascii)
    (lines : list (list ascii)) : list (list ascii) :=
  match dropwhile (fun l => negb (starts_method (lower method_name) l)) lines with
  | [] => []
  | first :: rest => first :: takewhile (fun l => negb (is_header l)) rest
  end.

Definition narrowed_text (is_header : list ascii -> bool)
    (text method_name : list ascii) : list ascii :=
  match method_run is_header method_name (split_lines text) with
  | [] => text
  | run => join [nl] run
  end.

(** A header line as the parser recognises it. *)
Definition is_header_line (line : list ascii) : bool :=
  match header_match line with Some _ => true | None => false end.

(** The line that ends a run in [get_api_info]: it starts with a marker and
    does not start the method itself. *)
Definition ends_method (method_name line : list ascii) : bool :=
  is_hash_line line && negb (starts_method (lower method_name) line).

(** The filter of [get_code_examples]. *)
Definition example_matches (topic : list ascii) (language_arg : option (list ascii))
    (cb : CodeBlock) : bool :=
  (contains (lower topic) (lower (code cb))
   || contains (lower topic) (lower (context_section cb)))
  && (negb (truthy language_arg)
      || eqb (lower (language cb))
             (lower (match language_arg with Some l => l | None => [] end))).

(** [search] in the words of the specification: the collecting stops as
    soon as [max_results] matches are gathered. *)
Definition search_as_specified (doc : ParsedDoc) (query : list ascii)
    (max_results : Z) : list SearchResult :=
  take (Z.to_nat max_results)
       (map make_result
            (List.filter (section_matches (lower query)) (sections doc))).

(** The filter of [get_code_examples] in the words of the specification:
    whenever a language is supplied, the language tag has to equal it. *)
Definition example_matches_as_specified (topic : list ascii)
    (language_arg : option (list ascii)) (cb : CodeBlock) : bool :=
  (contains (lower topic) (lower (code cb))
   || contains (lower topic) (lower (context_section cb)))
  && match language_arg with
     | Some l => eqb (lower (language cb)) (lower l)
     | None => true
     end.

(** Reading the text from its first line: [opened] says that an opening
    fence is waiting for its closing fence.  A fence opens a block unless
    the line is a header; only a line that is ["```"] once stripped closes
    it. *)
Definition fence_state (opened : bool) (l : list ascii) : bool :=
  if opened then negb (eqb (strip l) (str "```"))
  else match header_match l with
       | Some _ => false
       | None => is_fence l
       end.

(** Line [i] lies between an opening fence and its closing fence (that
    fence included), or below an opening fence that is never closed. *)
Definition in_fenced_block (lines : list (list ascii)) (i : nat) : bool :=
  fold_left fence_state (take i lines) false.


(* ===================================================================== *)
(** * Sample documents                                                   *)
(* ===================================================================== *)

(** Two top-level headers in a row. *)
Definition two_roots : list ascii := unlines ["# A"; "# B"].

(** Two sibling subsections. *)
Definition two_siblings : list ascii := unlines ["# A"; "## B"; "## C"].

(** A section with one subsection, as text and as the tree it parses to. *)
Definition nested_text : list ascii := unlines ["# A"; "## B"].

Definition nested_B : Section := mkSection (str "B") SUB [] (str "A/B") 1 [] [].

Definition nested_A : Section :=
  mkSection (str "A") MAIN [] (str "A") 0 [] [nested_B].

(** A class with a method that has a subsection of its own. *)
Definition widget_text : list ascii :=
  unlines ["# Widget"; "## resize"; "Resizes."; "### resize options"; "Opts.";
           "## other"].

Definition widget_doc : ParsedDoc := parse_document widget_text.

(** A closed fence followed by one that is never closed. *)
Definition open_fence_text : list ascii :=
  unlines ["# A"; "```python"; "x = 1"; "```"; "```"; "y = 2"].

(** A line of four markers as content, and one inside a fenced block. *)
Definition deep_text : list ascii := unlines ["# A"; "#### deep"; "text"].


Definition fenced_deep_text : list ascii :=
  unlines ["# A"; "```"; "#### x"; "```"].

(** A manual with class sections, a code block and a repeated title. *)
Definition manual_text : list ascii :=
  unlines ["intro"; "# Creating a Widget"; "Widgets are made here.";
           "## Usage"; "```python"; "w = Widget()"; "w.connect()"; "```";
           "# The class Gadget"; "## Usage"; "```"; "g.connect()"; "```"].

(** Sections with contents of 201 and of 200 characters. *)
Definition long_section : Section :=
  mkSection (str "Long") MAIN (repeat "a"%char 201) (str "Long") 0 [] [].

Definition exact_section : Section :=
  mkSection (str "Exact") MAIN (repeat "a"%char 200) (str "Exact") 1 [] [].

Definition preview_doc : ParsedDoc :=
  mkParsedDoc [long_section; exact_section] [] [] [].

(** The top-level section of the widget document. *)
Definition widget_section : Section := hd long_section (sections widget_doc).

(* ===================================================================== *)
(** * server.py: the remaining tools                                     *)
(* ===================================================================== *)

(** The text of one result in [search_docs]. *)
Definition format_result (result : SearchResult) : list ascii :=
  str "**" ++ r_title result ++ str "**" ++ [nl]
    ++ str "Path: " ++ r_path result ++ [nl]
    ++ str "Preview: " ++ r_preview result ++ [nl].

(** [search_docs] *)
Definition search_docs (PARSED_DOC : option ParsedDoc) (query : list ascii)
    (max_results : Z) : list ascii :=
  match PARSED_DOC with
  | None => str "Documentation not loaded"
  | Some doc =>
      match search doc query max_results with
      | [] => str "No results found for '" ++ query ++ str "'"
      | results => join [nl; nl] (map format_result results)
      end
  end.

(** One line, [- title: path], of [list_sections]. *)
Definition format_entry (s : Section) : list ascii :=
  str "- " ++ title s ++ str ": " ++ path s.

(** [list_sections] *)
Definition list_sections (PARSED_DOC : option ParsedDoc)
    (parent_path : option (list ascii)) : list ascii :=
  match PARSED_DOC with
  | None => str "Documentation not loaded"
  | Some doc =>
      if truthy parent_path then
        let parent_path := match parent_path with Some p => p | None => [] end in
        match dict_get (sections_by_path doc) parent_path with
        | None => str "Parent section not found: " ++ parent_path
        | Some parent_section =>
            match subsections parent_section with
            | [] => str "No subsections found under '" ++ parent_path ++ str "'"
            | subs =>
                str "Subsections of '" ++ parent_path ++ str "':" ++ [nl]
                  ++ join [nl] (map format_entry subs)
            end
        end
      else
        str "Top-level sections:" ++ [nl]
          ++ join [nl] (map format_entry (sections doc))
  end.

(* ===================================================================== *)
(** * The turns of the loop, case by case                                *)
(* ===================================================================== *)

(** The object a header line creates. *)
Definition new_section (st : PState) (lvl : SectionLevel) (g : list ascii)
  : SectionObj :=
  mkObj (strip g) lvl [] (_build_path (heap st) (stack st) (strip g)) (idx st) [] [].

(** The code block of a fence, with its owner's path. *)
Definition owned_block (st : PState) (cb : CodeBlock) (top : nat) : CodeBlock :=
  mkCodeBlock (language cb) (code cb) (path_of (heap st) top) (cb_line_number cb).

(** [turn lines st st']: the six ways one turn of the loop of
    [parse_document] takes [st] to [st'] ([step_turn]). *)
Inductive turn (lines : list (list ascii)) (st : PState) : PState -> Prop :=
| turn_root line lvl g :
    lines !! idx st = Some line ->
    header_match line = Some (lvl, g) ->
    find_parent (heap st ++ [new_section st lvl g]) (level_value lvl)
                (rev (stack st)) = None ->
    turn lines st
      (mkPState (heap st ++ [new_section st lvl g])
                (pop_stack (heap st ++ [new_section st lvl g]) (level_value lvl)
                           (stack st) ++ [length (heap st)])
                (roots st ++ [length (heap st)]) (blocks st) (S (idx st)))
| turn_child line lvl g parent :
    lines !! idx st = Some line ->
    header_match line = Some (lvl, g) ->
    find_parent (heap st ++ [new_section st lvl g]) (level_value lvl)
                (rev (stack st)) = Some parent ->
    turn lines st
      (mkPState (alter (append_subsection (length (heap st))) parent
                       (heap st ++ [new_section st lvl g]))
                (pop_stack (alter (append_subsection (length (heap st))) parent
                                  (heap st ++ [new_section st lvl g]))
                           (level_value lvl) (stack st) ++ [length (heap st)])
                (roots st) (blocks st) (S (idx st)))
| turn_block line cb j top :
    lines !! idx st = Some line ->
    header_match line = None -> is_fence line = true ->
    _parse_code_block lines (idx st) = (Some cb, j) ->
    last (stack st) = Some top ->
    turn lines st
      (mkPState (alter (append_code_block (owned_block st cb top)) top (heap st))
                (stack st) (roots st) (blocks st ++ [owned_block st cb top]) (S j))
| turn_skip line j :
    lines !! idx st = Some line ->
    header_match line = None -> is_fence line = true ->
    snd (_parse_code_block lines (idx st)) = j ->
    fst (_parse_code_block lines (idx st)) = None \/ last (stack st) = None ->
    turn lines st
      (mkPState (heap st) (stack st) (roots st) (blocks st) (S j))
| turn_content line top :
    lines !! idx st = Some line ->
    header_match line = None -> is_fence line = false ->
    last (stack st) = Some top ->
    turn lines st
      (mkPState (alter (append_content (line ++ [nl])) top (heap st))
                (stack st) (roots st) (blocks st) (S (idx st)))
| turn_drop line :
    lines !! idx st = Some line ->
    header_match line = None -> is_fence line = false ->
    last (stack st) = None ->
    turn lines st
      (mkPState (heap st) (stack st) (roots st) (blocks st) (S (idx st))).

(** The levels of the open sections, top of the stack first. *)
Definition stack_levels (st : PState) : list nat :=
  map (level_of (heap st)) (rev (stack st)).

(** The discipline of the stack of open sections: its top is the section
    created last, and the levels grow strictly from bottom to top. *)
Record stack_inv (st : PState) : Prop := mkStackInv {
  si_top :
    last (stack st) = match length (heap st) with 0 => None | S n => Some n end;
  si_sorted : StronglySorted gt (stack_levels st)
}.

(** The state after the first two headers of [two_siblings] are read. *)
Definition siblings_after_B : PState :=
  parse_loop 2 (split_lines two_siblings) init_state.

(** Sections are created in the order of their header lines, and everything
    created so far lies above the line the loop is at. *)
Record order_inv (st : PState) : Prop := mkOrderInv {
  oi_lines : forall p o, heap st !! p = Some o -> o_line_number o < idx st;
  oi_order :
    forall p q op oq, heap st !! p = Some op -> heap st !! q = Some oq ->
      p < q -> o_line_number op < o_line_number oq;
  oi_blocks : Forall (fun cb => cb_line_number cb < idx st) (blocks st)
}.

(** The text that the lines at the indices [ixs] contribute to a content. *)
Definition content_of (lines : list (list ascii)) (ixs : list nat) : list ascii :=
  concat (map (fun i => match lines !! i with
                        | Some l => l ++ [nl]
                        | None => []
                        end) ixs).

(** A line that is neither a header nor a fence. *)
Definition plain_line (lines : list (list ascii)) (i : nat) : Prop :=
  exists l, lines !! i = Some l /\ header_match l = None /\ is_fence l = false.

(** The content of an object is made of plain lines below its header, in
    the order of the document. *)
Definition content_ok (lines : list (list ascii)) (bound : nat) (o : SectionObj)
  : Prop :=
  exists ixs, o_content o = content_of lines ixs
             /\ StronglySorted lt ixs
             /\ Forall (fun i => o_line_number o < i < bound /\ plain_line lines i) ixs.

Definition content_inv (lines : list (list ascii)) (st : PState) : Prop :=
  forall p o, heap st !! p = Some o -> content_ok lines (idx st) o.

(** The language tag of the fence line [first]. *)
Definition fence_language (first : list ascii) : list ascii :=
  let lang := strip (drop 3 (strip first)) in
  match lang with
  | [] => str "plaintext"
  | _ => lang
  end.

(** A line that closes a code block. *)
Definition closing_line (lines : list (list ascii)) (j : nat) : Prop :=
  exists l, lines !! j = Some l /\ strip l = str "```".

(** What a kept code block holds: it was opened by a fence line that is not
    a header, [j] is the first closing fence below it, its language is the
    tag of the opening line and its body the lines in between. *)
Definition block_ok (lines : list (list ascii)) (bound : nat) (cb : CodeBlock)
  : Prop :=
  exists first j,
    lines !! cb_line_number cb = Some first
    /\ header_match first = None /\ is_fence first = true
    /\ language cb = fence_language first
    /\ cb_line_number cb < j < bound
    /\ closing_line lines j
    /\ (forall k, cb_line_number cb < k < j -> ~ closing_line lines k)
    /\ code cb = join [nl] (take (j - S (cb_line_number cb))
                                 (drop (S (cb_line_number cb)) lines)).

(** [a] is closed above the line that opens [b]. *)
Definition closed_before (lines : list (list ascii)) (a b : CodeBlock) : Prop :=
  exists j, cb_line_number a < j < cb_line_number b /\ closing_line lines j.

Record blocks_inv (lines : list (list ascii)) (st : PState) : Prop := mkBlocksInv {
  bi_ok : Forall (block_ok lines (idx st)) (blocks st);
  bi_sorted : StronglySorted (closed_before lines) (blocks st)
}.

(** The two lists of code blocks agree: a block of a section is in the
    document-wide list, carries the path of the section and lies below its
    header and above the header of every section created later; a block of
    the document-wide list is in the list of a section. *)
Record owned_inv (st : PState) : Prop := mkOwnedInv {
  ow_section :
    forall p o cb, heap st !! p = Some o -> In cb (o_code_blocks o) ->
      In cb (blocks st) /\ context_section cb = o_path o
      /\ o_line_number o < cb_line_number cb
      /\ (forall q oq, heap st !! q = Some oq ->
            o_line_number oq < cb_line_number cb -> q <= p);
  ow_global :
    forall cb, In cb (blocks st) ->
      exists p o, heap st !! p = Some o /\ In cb (o_code_blocks o)
}.

(** Every object is a top-level section or a subsection of an object. *)
Definition attached_inv (st : PState) : Prop :=
  forall p, p < length (heap st) ->
    In p (roots st)
    \/ exists q o, heap st !! q = Some o /\ In p (o_subsections o).

(** How the path of an object was joined: from the titles of a chain of
    earlier objects of strictly growing levels, and its own title. *)
Definition path_inv (st : PState) : Prop :=
  forall p o, heap st !! p = Some o ->
    exists chain,
      o_path o = join (str "/") (map (title_of (heap st)) chain ++ [o_title o])
      /\ Forall (fun r => r < p) chain
      /\ StronglySorted lt (map (level_of (heap st)) chain).

(** The placement of the sections: the stack holds its sections in the
    order of their creation; a section that left the stack was followed by
    a section of its level or less; and between a section and the entry it
    was attached to (before it, when it is top-level) every section has at
    least its level. *)
Record nearest_inv (st : PState) : Prop := mkNearestInv {
  ni_stack_sorted : StronglySorted lt (stack st);
  ni_off_stack :
    forall y, y < length (heap st) ->
      In y (stack st)
      \/ exists z, y < z /\ z < length (heap st)
                   /\ level_of (heap st) z <= level_of (heap st) y;
  ni_edges :
    forall q o c, heap st !! q = Some o -> In c (o_subsections o) ->
      forall y, q < y -> y < c -> level_of (heap st) c <= level_of (heap st) y;
  ni_roots :
    forall r, In r (roots st) ->
      forall y, y < r -> level_of (heap st) r <= level_of (heap st) y
}.

(** The top-level list and every list of subsections hold their references
    in the order of creation. *)
Definition lists_sorted_inv (st : PState) : Prop :=
  StronglySorted lt (roots st)
  /\ forall p o, heap st !! p = Some o -> StronglySorted lt (o_subsections o).

(** [a] comes before [b] in the text. *)
Definition header_above (a b : Section) : Prop := line_number a < line_number b.




(* ===================================================================== *)
(** * Text lemmas                                                        *)
(* ===================================================================== *)

Lemma takewhile_ext {A} (p q : A -> bool) (l : list A) :
  (forall x, p x = q x) -> takewhile p l = takewhile q l.
Proof.
  intros Hpq. induction l as [|x l IH]; simpl; [reflexivity|].
  rewrite Hpq, IH. reflexivity.
Qed.

Lemma lookup_map {A B} (f : A -> B) (l : list A) (k : nat) :
  map f l !! k = f <$> (l !! k).
Proof.
  revert k. induction l as [|x l IH]; intros [|k]; simpl; auto.
Qed.

Lemma filter_In_lookup {A} (p : A -> bool) (l : list A) (k : nat) (x : A) :
  List.filter p l !! k = Some x -> In x l /\ p x = true.
Proof.
  intros H. apply filter_In. apply list_elem_of_In.
  apply list_elem_of_lookup. eauto.
Qed.

Lemma filter_none {A} (p : A -> bool) (l : list A) :
  (forall x, In x l -> p x = false) -> List.filter p l = [].
Proof.
  induction l as [|x l IH]; simpl; intros H; [reflexivity|].
  rewrite (H x) by auto. apply IH. auto.
Qed.

Lemma eqb_eq (a b : list ascii) : eqb a b = true <-> a = b.
Proof. unfold eqb. apply bool_decide_eq_true. Qed.

Lemma eqb_neq (a b : list ascii) : eqb a b = false <-> a <> b.
Proof. unfold eqb. apply bool_decide_eq_false. Qed.

(* ===================================================================== *)
(** * search                                                             *)
(* ===================================================================== *)

Lemma search_loop_spec (q : list ascii) (m : Z) (todo : list Section)
    (results : list SearchResult) :
  search_loop q m todo results =
  results ++ take (Z.to_nat (Z.max 1 (m - Z.of_nat (length results))))
                  (map make_result (List.filter (section_matches q) todo)).
Proof.
  revert results. induction todo as [|s todo IH]; intros results; simpl.
  - rewrite take_nil, app_nil_r. reflexivity.
  - destruct (section_matches q s) eqn:Hs; [|apply IH].
    rewrite length_app; simpl.
    destruct (Z.leb_spec m (Z.of_nat (length results + 1))) as [Hle|Hgt].
    + replace (Z.to_nat (Z.max 1 (m - Z.of_nat (length results)))) with 1 by lia.
      simpl. rewrite take_0. reflexivity.
    + rewrite IH, length_app; simpl.
      replace (Z.to_nat (Z.max 1 (m - Z.of_nat (length results))))
        with (S (Z.to_nat (Z.max 1 (m - Z.of_nat (length results + 1))))) by lia.
      simpl. rewrite <- app_assoc. reflexivity.
Qed.

Lemma make_preview_201 (c : list ascii) :
  length c = 201 -> make_preview c = take 200 c ++ str "...".
Proof. intros H. unfold make_preview. rewrite H. reflexivity. Qed.

Lemma make_preview_200 (c : list ascii) :
  length c = 200 -> make_preview c = c.
Proof. intros H. unfold make_preview. rewrite H. reflexivity. Qed.

(** C6 (amended): [search] keeps, in document order, the top-level sections whose
    title or content holds the query as a substring when both sides are put
    in lower case, turns each into its result entry and cuts the sequence
    where the loop stops: after [max_results] entries, and after the first
    entry when [max_results] is below one.  Only the [sections] of the
    document are read, never a subsection. *)
Theorem C6_search_top_level_in_order (doc : ParsedDoc) (query : list ascii)
    (max_results : Z) :
  search doc query max_results =
  take (Z.to_nat (Z.max 1 max_results))
       (map make_result
            (List.filter
               (fun s => contains (lower query) (lower (title s))
                         || contains (lower query) (lower (content s)))
               (sections doc))).
Proof.
  unfold search. rewrite search_loop_spec. simpl.
  rewrite Z.sub_0_r. reflexivity.
Qed.

(** C10: with [max_results] zero or negative and at least one matching
    top-level section, [search] returns exactly one entry, that of the
    first matching section. *)
Theorem C10_search_nonpositive_max_one_entry (doc : ParsedDoc)
    (query : list ascii) (max_results : Z) (s : Section) (others : list Section) :
  (max_results <= 0)%Z ->
  List.filter (section_matches (lower query)) (sections doc) = s :: others ->
  search doc query max_results = [make_result s]
  /\ length (search doc query max_results) = 1.
Proof.
  intros Hm Hf. unfold search. rewrite search_loop_spec, Hf. simpl.
  replace (Z.to_nat (Z.max 1 (max_results - Z.of_nat 0))) with 1 by lia.
  simpl. auto.
Qed.

(** C4: the [k]-th entry of a search result is made from the [k]-th
    matching top-level section; when that section's content is exactly 201
    characters long the preview is its first 200 characters followed by
    the three characters ["..."], and when it is exactly 200 characters
    long the preview is the content itself. *)
Theorem C4_preview_truncation (doc : ParsedDoc) (query : list ascii)
    (max_results : Z) (k : nat) (r : SearchResult) :
  search doc query max_results !! k = Some r ->
  exists s,
    List.filter (section_matches (lower query)) (sections doc) !! k = Some s
    /\ In s (sections doc)
    /\ r_title r = title s /\ r_path r = path s
    /\ (length (content s) = 201 ->
        r_preview r = take 200 (content s) ++ str "...")
    /\ (length (content s) = 200 -> r_preview r = content s).
Proof.
  unfold search. rewrite search_loop_spec. simpl. intros H.
  apply lookup_take_Some in H as [H _].
  rewrite lookup_map in H.
  destruct (List.filter _ _ !! k) as [s|] eqn:Hk; [|discriminate].
  simpl in H. injection H as <-.
  exists s. split; [reflexivity|].
  split; [apply (filter_In_lookup _ _ _ _ Hk)|].
  simpl. repeat split; auto using make_preview_201, make_preview_200.
Qed.

(* ===================================================================== *)
(** * get_section                                                        *)
(* ===================================================================== *)

Lemma dict_get_None_not_key {V} (d : list (list ascii * V)) (k : list ascii) :
  dict_get d k = None -> ~ In k (dict_keys d).
Proof.
  induction d as [|[k' v] d IH]; simpl; intros H; [tauto|].
  destruct (eqb k' k) eqn:E; [discriminate|].
  apply eqb_neq in E. intros [Hk|Hk]; [congruence|]. exact (IH H Hk).
Qed.

(** C8: on a path that is not a key of the path map, [get_section] answers
    with suggestions: at most 5 keys of the map, in the order of the map,
    each holding the requested path as a substring when both are put in
    lower case, none of them the requested path, and never the content of
    a section; when no key holds the path it reports that the section was
    not found. *)
Theorem C8_get_section_miss_suggests (doc : ParsedDoc) (path : list ascii) :
  dict_get (sections_by_path doc) path = None ->
  let suggestions :=
    take 5 (List.filter (fun p => contains (lower path) (lower p))
                        (dict_keys (sections_by_path doc))) in
  length suggestions <= 5
  /\ (forall p, In p suggestions ->
        In p (dict_keys (sections_by_path doc))
        /\ contains (lower path) (lower p) = true
        /\ p <> path)
  /\ get_section (Some doc) path =
     match suggestions with
     | [] => str "Section not found: " ++ path
     | _ => str "Section not found. Did you mean one of these?" ++ [nl]
              ++ join [nl] (map (fun p => str "- " ++ p) suggestions)
     end
  /\ ((forall p, In p (dict_keys (sections_by_path doc)) ->
         contains (lower path) (lower p) = false) ->
      get_section (Some doc) path = str "Section not found: " ++ path).
Proof.
  intros Hmiss suggestions.
  assert (Hget : get_section (Some doc) path =
     match suggestions with
     | [] => str "Section not found: " ++ path
     | _ => str "Section not found. Did you mean one of these?" ++ [nl]
              ++ join [nl] (map (fun p => str "- " ++ p) suggestions)
     end).
  { unfold get_section. rewrite Hmiss. subst suggestions.
    unfold similar_paths. destruct (List.filter _ _); reflexivity. }
  split; [subst suggestions; rewrite length_take; lia|].
  split.
  - intros p Hp. subst suggestions.
    apply list_elem_of_In, elem_of_take in Hp as (i & Hp & _).
    apply filter_In_lookup in Hp as [Hin Hc].
    repeat split; auto.
    intros ->. exact (dict_get_None_not_key _ _ Hmiss Hin).
  - split; [exact Hget|].
    intros Hnone. rewrite Hget. subst suggestions.
    rewrite (filter_none _ _ Hnone). reflexivity.
Qed.

(* ===================================================================== *)
(** * get_code_examples                                                  *)
(* ===================================================================== *)

Lemma examples_loop_spec (t : list ascii) (lang : option (list ascii))
    (todo relevant : list CodeBlock) :
  examples_loop (lower t) lang todo relevant =
  relevant ++ List.filter (example_matches t lang) todo.
Proof.
  revert relevant. induction todo as [|cb todo IH]; intros relevant; simpl.
  - rewrite app_nil_r. reflexivity.
  - unfold example_matches at 1.
    destruct (contains (lower t) (lower (code cb))
              || contains (lower t) (lower (context_section cb))); simpl; [|apply IH].
    destruct (truthy lang); simpl.
    + destruct (eqb _ _); simpl; [|apply IH].
      rewrite IH, <- app_assoc. reflexivity.
    + rewrite IH, <- app_assoc. reflexivity.
Qed.

(** C7 (amended): [get_code_examples] renders the first 10, in the order
    of the document-wide list, of the code blocks whose body or owning
    section path holds the topic as a substring when both are put in lower
    case and, when a language that is not empty is supplied, whose language
    tag equals it when both are put in lower case; a block in another
    language is left out although it mentions the topic.  An empty
    language filters nothing. *)
Theorem C7_code_examples_filter (doc : ParsedDoc) (topic : list ascii)
    (language_arg : option (list ascii)) :
  let chosen := selected_examples doc topic language_arg in
  chosen = take 10 (List.filter (example_matches topic language_arg)
                                (all_code_blocks doc))
  /\ length chosen <= 10
  /\ (forall cb, In cb chosen ->
        In cb (all_code_blocks doc)
        /\ (contains (lower topic) (lower (code cb)) = true
            \/ contains (lower topic) (lower (context_section cb)) = true)
        /\ (forall l, language_arg = Some l -> l <> [] ->
              lower (language cb) = lower l))
  /\ get_code_examples (Some doc) topic language_arg =
     match chosen with
     | [] => str "No code examples found for '" ++ topic ++ str "'"
     | _ => join [nl; nl] (map format_example chosen)
     end.
Proof.
  intros chosen.
  assert (Hc : chosen = take 10 (List.filter (example_matches topic language_arg)
                                             (all_code_blocks doc))).
  { subst chosen. unfold selected_examples. rewrite examples_loop_spec. reflexivity. }
  split; [exact Hc|].
  split; [rewrite Hc, length_take; lia|].
  split.
  - intros cb Hcb. rewrite Hc in Hcb.
    apply list_elem_of_In, elem_of_take in Hcb as (i & Hcb & _).
    apply filter_In_lookup in Hcb as [Hin Hm].
    unfold example_matches in Hm.
    apply andb_true_iff in Hm as [Ht Hl].
    split; [exact Hin|]. split; [apply orb_true_iff; exact Ht|].
    intros l -> Hne. destruct l as [|c l]; [congruence|]. simpl in Hl.
    apply eqb_eq in Hl. exact Hl.
  - unfold get_code_examples. fold chosen. rewrite Hc.
    rewrite examples_loop_spec. simpl.
    destruct (List.filter _ _); reflexivity.
Qed.

(* ===================================================================== *)
(** * get_api_info                                                       *)
(* ===================================================================== *)

Lemma method_loop_capturing (m : list ascii) (todo acc : list (list ascii)) :
  method_loop m todo true acc =
  acc ++ takewhile (fun l => starts_method m l || negb (is_hash_line l)) todo.
Proof.
  revert acc. induction todo as [|line todo IH]; intros acc; simpl.
  - rewrite app_nil_r. reflexivity.
  - destruct (starts_method m line); simpl.
    + rewrite IH, <- app_assoc. reflexivity.
    + destruct (is_hash_line line); simpl.
      * rewrite app_nil_r. reflexivity.
      * rewrite IH, <- app_assoc. reflexivity.
Qed.

Lemma method_loop_idle (m : list ascii) (todo : list (list ascii)) :
  method_loop m todo false [] =
  match dropwhile (fun l => negb (starts_method m l)) todo with
  | [] => []
  | first :: rest =>
      first :: takewhile (fun l => starts_method m l || negb (is_hash_line l)) rest
  end.
Proof.
  induction todo as [|line todo IH]; simpl; [reflexivity|].
  destruct (starts_method m line); simpl.
  - apply method_loop_capturing.
  - exact IH.
Qed.

Lemma narrow_to_method_spec (text m : list ascii) :
  narrow_to_method text m = narrowed_text (ends_method m) text m.
Proof.
  unfold narrow_to_method, narrowed_text, method_run.
  rewrite method_loop_idle.
  destruct (dropwhile _ _) as [|first rest]; [reflexivity|].
  rewrite (takewhile_ext _ (fun l => negb (ends_method m l))); [reflexivity|].
  intros l. unfold ends_method.
  destruct (starts_method (lower m) l), (is_hash_line l); reflexivity.
Qed.

Lemma dropwhile_all {A} (p : A -> bool) (l : list A) :
  (forall x, In x l -> p x = true) -> dropwhile p l = [].
Proof.
  induction l as [|x l IH]; simpl; intros H; [reflexivity|].
  rewrite (H x) by auto. apply IH. auto.
Qed.

(** C3 (amended): when the class is found by the scan of the section titles
    and a non-empty method name is given, [get_api_info] returns the lines
    of the rendered section from the first line that holds the method name
    (both in lower case) and ["##"], up to, and without, the next line that
    starts with ['#'] once stripped and does not itself hold the method
    name and ["##"]; the lines are joined with line feeds.  When no line
    holds the method name and ["##"], the rendered section is returned
    whole. *)
Theorem C3_method_narrowing (doc : ParsedDoc) (class_name method_name : list ascii)
    (section : Section) :
  method_name <> [] ->
  dict_get (api_entries doc) class_name = None ->
  List.find (fun s => contains (lower class_name) (lower (title s)))
            (dict_values (sections_by_path doc)) = Some section ->
  let text := get_full_content true section in
  get_api_info (Some doc) class_name (Some method_name) =
    narrowed_text (ends_method method_name) text method_name
  /\ ((forall l, In l (split_lines text) ->
         starts_method (lower method_name) l = false) ->
      get_api_info (Some doc) class_name (Some method_name) = text).
Proof.
  intros Hne Hentry Hfind text.
  assert (H : get_api_info (Some doc) class_name (Some method_name) =
              narrowed_text (ends_method method_name) text method_name).
  { unfold get_api_info. rewrite Hentry, Hfind.
    destruct method_name as [|c m]; [congruence|]. simpl truthy. cbv iota.
    apply narrow_to_method_spec. }
  split; [exact H|].
  intros Hnone. rewrite H. unfold narrowed_text, method_run.
  rewrite dropwhile_all; [reflexivity|].
  intros l Hl. rewrite (Hnone l Hl). reflexivity.
Qed.

(* ===================================================================== *)
(** * The header pattern and the fence test                              *)
(* ===================================================================== *)


Lemma match_markers_Some (l l' : SectionLevel) (line g : list ascii) :
  match_markers l line = Some (l', g) ->
  l' = l /\ take (level_value l) line = repeat "#"%char (level_value l)
  /\ match_title (drop (level_value l) line) = Some g.
Proof.
  unfold match_markers. destruct (eqb _ _) eqn:E; [|discriminate].
  apply eqb_eq in E.
  destruct (match_title _) as [g'|]; simpl; [|discriminate].
  intros H. injection H as <- <-. auto.
Qed.

Lemma startswith_cons (a : ascii) (p s : list ascii) :
  startswith (a :: p) s = true ->
  exists s', s = a :: s' /\ startswith p s' = true.
Proof.
  destruct s as [|b s]; cbn [startswith]; [discriminate|].
  rewrite andb_true_iff, Ascii.eqb_eq. intros [-> H]. eauto.
Qed.






(* ===================================================================== *)
(** * The store                                                          *)
(* ===================================================================== *)

Lemma level_of_snoc (h : list SectionObj) (o : SectionObj) (r : nat) :
  r < length h -> level_of (h ++ [o]) r = level_of h r.
Proof. intros Hr. unfold level_of. rewrite lookup_app_l by exact Hr. reflexivity. Qed.

Lemma level_of_alter (f : SectionObj -> SectionObj) (h : list SectionObj) (p r : nat) :
  (forall o, o_level (f o) = o_level o) ->
  level_of (alter f p h) r = level_of h r.
Proof.
  intros Hf. unfold level_of. destruct (decide (p = r)) as [->|Hne].
  - rewrite list_lookup_alter_eq. destruct (h !! r); simpl; [rewrite Hf|]; reflexivity.
  - rewrite list_lookup_alter_ne by exact Hne. reflexivity.
Qed.

Lemma level_of_lookup (h : list SectionObj) (r : nat) (o : SectionObj) :
  h !! r = Some o -> level_of h r = level_value (o_level o).
Proof. intros H. unfold level_of. rewrite H. reflexivity. Qed.

Lemma find_parent_Some (h : list SectionObj) (lvl : nat) (rstack : list nat) (p : nat) :
  find_parent h lvl rstack = Some p -> In p rstack /\ level_of h p < lvl.
Proof.
  induction rstack as [|q rstack IH]; simpl; [discriminate|].
  destruct (Nat.ltb_spec (level_of h q) lvl) as [Hlt|Hge].
  - intros H. injection H as <-. auto.
  - intros H. destruct (IH H). auto.
Qed.

Lemma _add_section_to_hierarchy_cases (h : list SectionObj) (roots : list nat)
    (r : nat) (stack : list nat) :
  _add_section_to_hierarchy h roots r stack = (h, roots ++ [r])
  \/ exists parent,
       In parent stack /\ level_of h parent < level_of h r
       /\ _add_section_to_hierarchy h roots r stack
          = (alter (append_subsection r) parent h, roots).
Proof.
  unfold _add_section_to_hierarchy. destruct stack as [|s0 stk]; [left; reflexivity|].
  destruct (find_parent h (level_of h r) (rev (s0 :: stk))) as [parent|] eqn:E;
    [right | left; reflexivity].
  apply find_parent_Some in E as [Hin Hlt]. rewrite <- in_rev in Hin. eauto.
Qed.

Lemma dropwhile_In {A} (p : A -> bool) (l : list A) (x : A) :
  In x (dropwhile p l) -> In x l.
Proof.
  induction l as [|y l IH]; simpl; [tauto|].
  destruct (p y); [auto | tauto].
Qed.

Lemma pop_stack_In (h : list SectionObj) (lvl : nat) (stack : list nat) (r : nat) :
  In r (pop_stack h lvl stack) -> In r stack.
Proof.
  unfold pop_stack. rewrite <- in_rev. intros H.
  apply dropwhile_In in H. rewrite <- in_rev in H. exact H.
Qed.

Lemma obj_ok_mono (lines : list (list ascii)) (h h' : list SectionObj) (p : nat)
    (o : SectionObj) :
  length h <= length h' ->
  (forall r, r < length h -> level_of h' r = level_of h r) ->
  obj_ok lines h p o -> obj_ok lines h' p o.
Proof.
  intros Hlen Hlev [Hs Hb Ho]. constructor; auto.
  eapply Forall_impl; [exact Hs|]. simpl. intros r [[H1 H2] H3].
  rewrite Hlev by exact H2. repeat split; lia.
Qed.

(** An update of one object that leaves its level, origin and subsections
    alone and keeps its code blocks closed preserves the store. *)
Lemma heap_ok_alter (lines : list (list ascii)) (h : list SectionObj)
    (f : SectionObj -> SectionObj) (top : nat) :
  (forall o, o_level (f o) = o_level o /\ o_subsections (f o) = o_subsections o
             /\ o_line_number (f o) = o_line_number o /\ o_title (f o) = o_title o
             /\ (Forall (closed_block lines) (o_code_blocks o) ->
                 Forall (closed_block lines) (o_code_blocks (f o)))) ->
  (forall p o, h !! p = Some o -> obj_ok lines h p o) ->
  forall p o, alter f top h !! p = Some o -> obj_ok lines (alter f top h) p o.
Proof.
  intros Hf Hh p o Hp.
  assert (Hmono : forall q x, obj_ok lines h q x -> obj_ok lines (alter f top h) q x).
  { intros q x. apply obj_ok_mono; [rewrite length_alter; lia|].
    intros r _. apply level_of_alter. intros y. apply Hf. }
  destruct (decide (top = p)) as [->|Hne].
  - rewrite list_lookup_alter_eq in Hp.
    destruct (h !! p) as [o0|] eqn:E; [|discriminate]. simpl in Hp.
    injection Hp as <-. apply Hmono.
    destruct (Hh p o0 E) as [Hs Hb Ho].
    destruct (Hf o0) as (Hl & Hsub & Hln & Ht & Hcb).
    constructor; [rewrite Hl, Hsub; exact Hs | auto |].
    rewrite Hln, Hl, Ht. exact Ho.
  - rewrite list_lookup_alter_ne in Hp by exact Hne. apply Hmono, Hh, Hp.
Qed.

(* ===================================================================== *)
(** * Code blocks                                                        *)
(* ===================================================================== *)

Lemma scan_code_block_index (rest : list (list ascii)) (i : nat)
    (acc : list (list ascii)) :
  i <= snd (scan_code_block rest i acc).
Proof.
  revert i acc. induction rest as [|l rest IH]; intros i acc; cbn [scan_code_block]; [simpl; lia|].
  destruct (eqb (strip l) (str "```")); simpl; [lia|].
  specialize (IH (S i) (acc ++ [l])). lia.
Qed.

Lemma scan_code_block_None (rest : list (list ascii)) (i : nat)
    (acc : list (list ascii)) :
  fst (scan_code_block rest i acc) = None ->
  snd (scan_code_block rest i acc) = i + length rest.
Proof.
  revert i acc. induction rest as [|l rest IH]; intros i acc; cbn [scan_code_block]; [simpl; lia|].
  destruct (eqb (strip l) (str "```")); simpl; [discriminate|].
  intros H. rewrite (IH _ _ H). lia.
Qed.

Lemma scan_code_block_Some (rest : list (list ascii)) (i : nat)
    (acc code_lines : list (list ascii)) (j : nat) :
  scan_code_block rest i acc = (Some code_lines, j) ->
  i <= j /\ exists l, rest !! (j - i) = Some l /\ strip l = str "```".
Proof.
  revert i acc. induction rest as [|l rest IH]; intros i acc; cbn [scan_code_block]; [discriminate|].
  destruct (eqb (strip l) (str "```")) eqn:E.
  - intros H. injection H as _ <-. split; [lia|].
    rewrite Nat.sub_diag. apply eqb_eq in E. eauto.
  - intros H. apply IH in H as (Hle & l' & Hl' & Hs). split; [lia|].
    exists l'. split; [|exact Hs].
    replace (j - i) with (S (j - S i)) by lia. exact Hl'.
Qed.

Lemma _parse_code_block_index (lines : list (list ascii)) (start_line : nat) :
  start_line <= snd (_parse_code_block lines start_line).
Proof.
  unfold _parse_code_block.
  destruct (lines !! start_line) as [first|]; simpl; [|lia].
  destruct (is_fence first); simpl; [|lia].
  pose proof (scan_code_block_index (drop (S start_line) lines) (S start_line) []) as H.
  destruct (scan_code_block _ _ _) as [[cl|] i]; simpl in *; lia.
Qed.

Lemma _parse_code_block_Some (lines : list (list ascii)) (start_line : nat)
    (cb : CodeBlock) :
  fst (_parse_code_block lines start_line) = Some cb ->
  cb_line_number cb = start_line /\ closed_block lines cb.
Proof.
  unfold _parse_code_block.
  destruct (lines !! start_line) as [first|]; simpl; [|discriminate].
  destruct (is_fence first); simpl; [|discriminate].
  destruct (scan_code_block _ _ _) as [[cl|] j] eqn:E; simpl; [|discriminate].
  intros H. injection H as <-. simpl. split; [reflexivity|].
  apply scan_code_block_Some in E as (Hle & l & Hl & Hs).
  rewrite lookup_drop in Hl.
  exists j, l. simpl. split; [lia|]. split; [|exact Hs].
  replace j with (S start_line + (j - S start_line)) by lia. exact Hl.
Qed.

(** Without a closing fence the block is given up and the scan ends at the
    end of the document. *)
Lemma _parse_code_block_None (lines : list (list ascii)) (start_line : nat)
    (first : list ascii) :
  lines !! start_line = Some first -> is_fence first = true ->
  fst (_parse_code_block lines start_line) = None ->
  snd (_parse_code_block lines start_line) = length lines.
Proof.
  intros Hl Hf. unfold _parse_code_block. rewrite Hl, Hf. simpl.
  pose proof (scan_code_block_None (drop (S start_line) lines) (S start_line) []) as H.
  destruct (scan_code_block _ _ _) as [[cl|] i]; simpl in *; [discriminate|].
  intros _. rewrite H by reflexivity. rewrite length_drop.
  apply lookup_lt_Some in Hl. lia.
Qed.

(* ===================================================================== *)
(** * The loop of parse_document                                         *)
(* ===================================================================== *)

Lemma step_advances (lines : list (list ascii)) (st : PState) :
  idx st < length lines -> idx st < idx (step lines st).
Proof.
  intros Hi. unfold step.
  destruct (lines !! idx st) as [line|] eqn:El.
  2: { apply lookup_ge_None in El. lia. }
  destruct (header_match line) as [[lvl g]|]; simpl; [lia|].
  destruct (is_fence line).
  - pose proof (_parse_code_block_index lines (idx st)) as H.
    destruct (fst (_parse_code_block lines (idx st))), (last (stack st)); simpl; lia.
  - destruct (last (stack st)); simpl; lia.
Qed.

Lemma parse_loop_exits (lines : list (list ascii)) (fuel : nat) (st : PState) :
  length lines <= idx st + fuel ->
  length lines <= idx (parse_loop fuel lines st).
Proof.
  revert st. induction fuel as [|fuel IH]; intros st Hf; simpl; [lia|].
  destruct (Nat.ltb_spec (idx st) (length lines)) as [Hlt|Hge]; [|exact Hge].
  apply IH. pose proof (step_advances lines st Hlt). lia.
Qed.

(** More fuel than [length lines] changes nothing: the loop has stopped. *)
Lemma parse_loop_done (lines : list (list ascii)) (fuel : nat) (st : PState) :
  length lines <= idx st -> parse_loop fuel lines st = st.
Proof.
  intros H. destruct fuel; simpl; [reflexivity|].
  destruct (Nat.ltb_spec (idx st) (length lines)); [lia | reflexivity].
Qed.

Lemma parse_loop_more_fuel (lines : list (list ascii)) (fuel extra : nat) (st : PState) :
  length lines <= idx st + fuel ->
  parse_loop (fuel + extra) lines st = parse_loop fuel lines st.
Proof.
  revert st. induction fuel as [|fuel IH]; intros st Hf; simpl.
  - apply parse_loop_done. lia.
  - destruct (Nat.ltb_spec (idx st) (length lines)) as [Hlt|Hge]; [|reflexivity].
    apply IH. pose proof (step_advances lines st Hlt). lia.
Qed.

Lemma step_wf (lines : list (list ascii)) (st : PState) :
  wf_state lines st -> wf_state lines (step lines st).
Proof.
  intros [Hh Hst Hr Hb]. unfold step.
  destruct (lines !! idx st) as [line|] eqn:El; [|constructor; assumption].
  destruct (header_match line) as [[lvl g]|] eqn:Ehm.
  - (* a header: a new object, attached and pushed *)
    set (r := length (heap st)).
    set (section := mkObj (strip g) lvl [] _ (idx st) [] []).
    set (h1 := heap st ++ [section]).
    assert (Hlen1 : length h1 = S r) by (subst h1; rewrite length_app; simpl; lia).
    assert (Hnew : obj_ok lines h1 r section).
    { constructor; simpl; [constructor | constructor | eauto]. }
    assert (Hold : forall p o, heap st !! p = Some o -> obj_ok lines h1 p o).
    { intros p o Hp. eapply obj_ok_mono; [| |exact (Hh p o Hp)].
      - lia.
      - intros q Hq. apply level_of_snoc. exact Hq. }
    assert (Hh1 : forall p o, h1 !! p = Some o -> obj_ok lines h1 p o).
    { intros p o Hp. subst h1. apply lookup_app_Some in Hp as [Hp|[Hge Hp]].
      - apply Hold, Hp.
      - destruct (p - length (heap st)) as [|k] eqn:Ek; simpl in Hp; [|discriminate].
        injection Hp as <-. replace p with r by (subst r; lia). exact Hnew. }
    assert (Hst1 : Forall (fun q => q < length h1) (stack st)).
    { eapply Forall_impl; [exact Hst|]. simpl. intros; lia. }
    assert (Hr1 : Forall (fun q => q < length h1) (roots st ++ [r])).
    { apply Forall_app. split; [|constructor; [lia|constructor]].
      eapply Forall_impl; [exact Hr|]. simpl. intros; lia. }
    assert (Hpop : forall h', length h' = S r ->
              Forall (fun q => q < length h')
                     (pop_stack h' (level_value lvl) (stack st) ++ [r])).
    { intros h' Hl'. apply Forall_app. split; [|constructor; [lia|constructor]].
      apply Forall_forall. intros q Hq. apply list_elem_of_In, pop_stack_In in Hq.
      rewrite Forall_forall in Hst. apply list_elem_of_In, Hst in Hq. lia. }
    destruct (_add_section_to_hierarchy_cases h1 (roots st) r (stack st))
      as [E|(parent & Hin & Hlt & E)]; rewrite E; simpl fst; simpl snd.
    { constructor; simpl; auto. }
    assert (Hpr : parent < r).
    { rewrite Forall_forall in Hst. apply list_elem_of_In, Hst in Hin. exact Hin. }
    assert (Hmono : forall q x, obj_ok lines h1 q x ->
              obj_ok lines (alter (append_subsection r) parent h1) q x).
    { intros q x. apply obj_ok_mono; [rewrite length_alter; lia|].
      intros y _. apply level_of_alter. reflexivity. }
    constructor; simpl.
    + intros p o Hp. destruct (decide (parent = p)) as [->|Hne].
      * rewrite list_lookup_alter_eq in Hp.
        destruct (h1 !! p) as [o0|] eqn:E0; [|discriminate]. simpl in Hp.
        injection Hp as <-. apply Hmono.
        destruct (Hh1 p o0 E0) as [Hs Hbl Ho].
        constructor; simpl; auto.
        apply Forall_app. split; [exact Hs|]. constructor; [|constructor].
        rewrite (level_of_lookup _ _ _ E0) in Hlt. lia.
      * rewrite list_lookup_alter_ne in Hp by exact Hne. apply Hmono, Hh1, Hp.
    + apply Hpop. rewrite length_alter. exact Hlen1.
    + rewrite length_alter. eapply Forall_impl; [exact Hr|]. simpl. intros; lia.
    + exact Hb.
  - destruct (is_fence line).
    + (* a fence *)
      destruct (fst (_parse_code_block lines (idx st))) as [cb|] eqn:Ecb;
        [|constructor; assumption].
      destruct (last (stack st)) as [top|] eqn:Etop; [|constructor; assumption].
      apply _parse_code_block_Some in Ecb as [Hln Hcl].
      set (cb' := mkCodeBlock _ _ _ _).
      assert (Hcl' : closed_block lines cb') by exact Hcl.
      constructor; simpl.
      * apply heap_ok_alter; [|exact Hh].
        intros o; simpl. repeat split; auto.
        intros Hf. apply Forall_app. split; [exact Hf|]. constructor; auto.
      * rewrite length_alter. exact Hst.
      * rewrite length_alter. exact Hr.
      * apply Forall_app. split; [exact Hb|]. constructor; auto.
    + (* content *)
      destruct (last (stack st)) as [top|] eqn:Etop; [|constructor; assumption].
      constructor; simpl.
      * apply heap_ok_alter; [|exact Hh]. intros o; simpl. repeat split; auto.
      * rewrite length_alter. exact Hst.
      * rewrite length_alter. exact Hr.
      * exact Hb.
Qed.

Lemma init_state_wf (lines : list (list ascii)) : wf_state lines init_state.
Proof.
  constructor; simpl; auto. intros p o H. destruct p; discriminate.
Qed.

Lemma parse_loop_wf (lines : list (list ascii)) (fuel : nat) (st : PState) :
  wf_state lines st -> wf_state lines (parse_loop fuel lines st).
Proof.
  revert st. induction fuel as [|fuel IH]; intros st Hwf; simpl; [exact Hwf|].
  destruct (idx st <? length lines); [|exact Hwf].
  apply IH, step_wf, Hwf.
Qed.

Lemma parse_state_wf (text : list ascii) :
  wf_state (split_lines text) (parse_state text).
Proof. apply parse_loop_wf, init_state_wf. Qed.

(** The loop of [parse_document] ends with its guard false. *)
Lemma parse_state_exits (text : list ascii) :
  length (split_lines text) <= idx (parse_state text).
Proof. apply parse_loop_exits. simpl. lia. Qed.

(* ===================================================================== *)
(** * From the store to the tree                                         *)
(* ===================================================================== *)

Lemma freeze_total (h : list SectionObj) :
  (forall p o, h !! p = Some o ->
     Forall (fun r => p < r < length h) (o_subsections o)) ->
  forall fuel r, r < length h -> length h <= r + fuel -> is_Some (freeze fuel h r).
Proof.
  intros Hedges. induction fuel as [|fuel IH]; intros r Hr Hf; [lia|].
  simpl. destruct (lookup_lt_is_Some_2 h r Hr) as [o Ho]. rewrite Ho.
  assert (Hs : is_Some (mapM (freeze fuel h) (o_subsections o))).
  { apply mapM_is_Some_2. eapply Forall_impl; [exact (Hedges r o Ho)|].
    simpl. intros c [Hc1 Hc2]. apply IH; lia. }
  destruct Hs as [subs ->]. eauto.
Qed.

Lemma wf_state_edges (lines : list (list ascii)) (st : PState) :
  wf_state lines st ->
  forall p o, heap st !! p = Some o ->
    Forall (fun r => p < r < length (heap st)) (o_subsections o).
Proof.
  intros Hwf p o Ho. destruct (wf_heap _ _ Hwf p o Ho) as [Hs _ _].
  eapply Forall_impl; [exact Hs|]. simpl. tauto.
Qed.

Lemma freeze_roots_total (lines : list (list ascii)) (st : PState) :
  wf_state lines st -> is_Some (freeze_roots st).
Proof.
  intros Hwf. unfold freeze_roots. apply mapM_is_Some_2.
  eapply Forall_impl; [exact (wf_roots _ _ Hwf)|]. simpl. intros r Hr.
  apply (freeze_total _ (wf_state_edges _ _ Hwf)); lia.
Qed.

Lemma freeze_shows (h : list SectionObj) (fuel : nat) (r : nat) (s : Section) :
  freeze fuel h r = Some s ->
  exists o, h !! r = Some o /\ shows o s
            /\ Forall2 (fun c sc => exists oc, h !! c = Some oc /\ shows oc sc)
                       (o_subsections o) (subsections s).
Proof.
  revert r s. induction fuel as [|fuel IH]; intros r s; simpl; [discriminate|].
  destruct (h !! r) as [o|] eqn:Ho; [|discriminate].
  destruct (mapM (freeze fuel h) (o_subsections o)) as [subs|] eqn:Em; [|discriminate].
  intros H. injection H as <-. exists o. split; [reflexivity|].
  split; [unfold shows; simpl; auto 10|]. simpl.
  apply mapM_Some_1 in Em.
  eapply Forall2_impl; [exact Em|]. simpl. intros c sc Hc.
  apply IH in Hc as (oc & Hoc & Hsh & _). eauto.
Qed.

(** Every section of a frozen tree, at any depth, shows an object of the
    store, and its subsections show the objects its references name. *)
Lemma freeze_flatten (h : list SectionObj) (fuel : nat) (r : nat) (s s' : Section) :
  freeze fuel h r = Some s -> In s' (_flatten_section s) ->
  exists p o, h !! p = Some o /\ shows o s'
              /\ Forall2 (fun c sc => exists oc, h !! c = Some oc /\ shows oc sc)
                         (o_subsections o) (subsections s').
Proof.
  revert r s. induction fuel as [|fuel IH]; intros r s Hf Hin; [discriminate|].
  destruct s as [t l c pth n cbs subs]. simpl in Hin. destruct Hin as [<-|Hin].
  - apply freeze_shows in Hf as (o & Ho & Hsh & Hsubs). eauto.
  - simpl in Hf.
    destruct (h !! r) as [o|] eqn:Ho; [|discriminate].
    destruct (mapM (freeze fuel h) (o_subsections o)) as [subs'|] eqn:Em; [|discriminate].
    injection Hf as _ _ _ _ _ _ <-.
    apply in_concat in Hin as (fl & Hfl & Hin).
    apply in_map_iff in Hfl as (sc & <- & Hsc).
    apply mapM_Some_1 in Em.
    apply list_elem_of_In, list_elem_of_lookup in Hsc as [i Hi].
    destruct (Forall2_lookup_r _ _ _ _ _ Em Hi) as (cref & _ & Hc).
    exact (IH cref sc Hc Hin).
Qed.

(** The sections of a parsed document are the frozen roots of the final
    store, which is well formed. *)
Lemma parse_document_sections (text : list ascii) :
  freeze_roots (parse_state text) = Some (sections (parse_document text)).
Proof.
  unfold parse_document.
  destruct (freeze_roots_total _ _ (parse_state_wf text)) as [ss ->]. reflexivity.
Qed.

Lemma parse_document_flatten (text : list ascii) (s : Section) :
  In s (_flatten_sections (sections (parse_document text))) ->
  exists p o, heap (parse_state text) !! p = Some o /\ shows o s
    /\ obj_ok (split_lines text) (heap (parse_state text)) p o
    /\ Forall2 (fun c sc => exists oc, heap (parse_state text) !! c = Some oc
                                       /\ shows oc sc)
               (o_subsections o) (subsections s).
Proof.
  intros Hin. pose proof (parse_document_sections text) as Hfr.
  unfold freeze_roots in Hfr. apply mapM_Some_1 in Hfr.
  unfold _flatten_sections in Hin.
  apply in_concat in Hin as (fl & Hfl & Hin).
  apply in_map_iff in Hfl as (root & <- & Hroot).
  apply list_elem_of_In, list_elem_of_lookup in Hroot as [i Hi].
  destruct (Forall2_lookup_r _ _ _ _ _ Hfr Hi) as (r & _ & Hr).
  destruct (freeze_flatten _ _ _ _ _ Hr Hin) as (p & o & Ho & Hsh & Hsubs).
  exists p, o. split; [exact Ho|]. split; [exact Hsh|].
  split; [|exact Hsubs].
  apply (wf_heap _ _ (parse_state_wf text) p o Ho).
Qed.

Lemma Section_nested_ind (P : Section -> Prop) :
  (forall s, Forall P (subsections s) -> P s) -> forall s, P s.
Proof.
  intros H. fix IH 1. intros s. apply H.
  destruct s as [t l c pth n cbs subs]. simpl.
  induction subs as [|x subs IHs]; constructor; [apply IH | exact IHs].
Qed.

Lemma _flatten_section_sub (s c x : Section) :
  In c (subsections s) -> In x (_flatten_section c) -> In x (_flatten_section s).
Proof.
  intros Hc Hx. destruct s as [t l cn pth n cbs subs]. simpl in *. right.
  apply in_concat. exists (_flatten_section c). split; [|exact Hx].
  apply in_map. exact Hc.
Qed.

Lemma _flatten_section_self (s : Section) : In s (_flatten_section s).
Proof. destruct s; simpl; auto. Qed.


(* ===================================================================== *)
(** * The section hierarchy                                              *)
(* ===================================================================== *)

(** C1 (fails on the code): the path is joined from the stack as it stands
    before the sections that the new header closes are popped.  After
    ["# A"], the header ["# B"] opens a top-level section whose path is
    ["A/B"], not ["B"]; after ["# A"] and ["## B"], the header ["## C"]
    opens a child of [A] whose path is ["A/B/C"], not ["A/C"]. *)
Theorem C1_path_built_from_stale_stack :
  map (fun s => (title s, path s)) (sections (parse_document two_roots))
    = [(str "A", str "A"); (str "B", str "A/B")]
  /\ map (fun s => (path s, map (fun c => (title c, path c)) (subsections s)))
         (sections (parse_document two_siblings))
     = [(str "A", [(str "B", str "A/B"); (str "C", str "A/B/C")])].
Proof. split; vm_compute; reflexivity. Qed.

(** An edge of the parsed forest is an edge of the final store: the
    section and its subsection show two objects, the second referred to by
    the first and of a greater level. *)
Lemma parsed_edge (text : list ascii) (s c : Section) :
  In s (_flatten_sections (sections (parse_document text))) ->
  In c (subsections s) ->
  exists p o cref oc,
    heap (parse_state text) !! p = Some o /\ shows o s
    /\ In cref (o_subsections o)
    /\ heap (parse_state text) !! cref = Some oc /\ shows oc c
    /\ p < cref
    /\ level_value (o_level o) < level_value (o_level oc).
Proof.
  intros Hs Hc.
  destruct (parse_document_flatten text s Hs) as (p & o & Ho & Hsh & Hok & Hsubs).
  apply list_elem_of_In, list_elem_of_lookup in Hc as [i Hi].
  destruct (Forall2_lookup_r _ _ _ _ _ Hsubs Hi) as (cref & Hcref & oc & Hoc & Hshc).
  destruct Hok as [Hedges _ _].
  rewrite Forall_lookup in Hedges. destruct (Hedges i cref Hcref) as [[Hlt _] Hlev].
  rewrite (level_of_lookup _ _ _ Hoc) in Hlev.
  exists p, o, cref, oc. repeat (split; [assumption|]).
  split; [|split; [assumption|]]; [|split; [assumption|]]; [|split; assumption].
  apply list_elem_of_In, list_elem_of_lookup. eauto.
Qed.

(** C2: in a parsed document, every section at any depth has a level
    strictly below the level of each section in its [subsections]. *)
Theorem C2_child_level_above_parent (text : list ascii) (s c : Section) :
  In s (_flatten_sections (sections (parse_document text))) ->
  In c (subsections s) ->
  level_value (level s) < level_value (level c).
Proof.
  intros Hs Hc.
  destruct (parsed_edge text s c Hs Hc)
    as (p & o & cref & oc & _ & Hsh & _ & _ & Hshc & _ & Hlev).
  destruct Hsh as (_ & Hl & _). destruct Hshc as (_ & Hlc & _).
  rewrite Hl, Hlc. exact Hlev.
Qed.

Lemma C2_child_level_above_parent_witness :
  In nested_A (_flatten_sections (sections (parse_document nested_text)))
  /\ In nested_B (subsections nested_A)
  /\ level_value (level nested_A) < level_value (level nested_B).
Proof.
  assert (H1 : In nested_A (_flatten_sections (sections (parse_document nested_text))))
    by (vm_compute; left; reflexivity).
  assert (H2 : In nested_B (subsections nested_A)) by (left; reflexivity).
  split; [exact H1|]. split; [exact H2|].
  exact (C2_child_level_above_parent nested_text nested_A nested_B H1 H2).
Defined.

(* ===================================================================== *)
(** * Fences that are never closed                                       *)
(* ===================================================================== *)

(** C5: when no line below line [i] is a closing fence, the turn of the
    loop that reads an opening fence at line [i] attaches nothing and moves
    past the end of the input; the parsed document holds no code block
    opened at line [i], neither in the document-wide list nor in the list
    of any section; and parsing returns: the loop ends with its guard false
    and the store freezes into the sections of the result. *)
Theorem C5_unclosed_fence_dropped (text : list ascii) (i : nat) :
  (forall j l, i < j -> split_lines text !! j = Some l -> strip l <> str "```") ->
  (forall st first,
     idx st = i -> split_lines text !! i = Some first ->
     header_match first = None -> is_fence first = true ->
     step (split_lines text) st =
     mkPState (heap st) (stack st) (roots st) (blocks st)
              (S (length (split_lines text))))
  /\ (forall cb, In cb (all_code_blocks (parse_document text)) ->
        cb_line_number cb <> i)
  /\ (forall s cb,
        In s (_flatten_sections (sections (parse_document text))) ->
        In cb (code_blocks s) -> cb_line_number cb <> i)
  /\ length (split_lines text) <= idx (parse_state text)
  /\ freeze_roots (parse_state text) = Some (sections (parse_document text)).
Proof.
  intros Hopen.
  assert (Hclosed : forall cb, closed_block (split_lines text) cb ->
                               cb_line_number cb <> i).
  { intros cb (j & l & Hj & Hl & Hs) Heq. subst i. exact (Hopen j l Hj Hl Hs). }
  split; [|split; [|split; [|split]]].
  - intros st first <- Hl Hhm Hfe. unfold step. rewrite Hl, Hhm, Hfe.
    destruct (fst (_parse_code_block (split_lines text) (idx st))) as [cb|] eqn:Ecb.
    + apply _parse_code_block_Some in Ecb as [Hln Hcl].
      destruct (Hclosed cb Hcl Hln).
    + rewrite (_parse_code_block_None _ _ _ Hl Hfe Ecb). reflexivity.
  - intros cb Hcb. apply Hclosed.
    pose proof (wf_blocks _ _ (parse_state_wf text)) as Hb.
    rewrite Forall_forall in Hb. apply Hb, list_elem_of_In. exact Hcb.
  - intros s cb Hs Hcb. apply Hclosed.
    destruct (parse_document_flatten text s Hs) as (p & o & Ho & Hsh & Hok & _).
    destruct Hok as [_ Hb _]. destruct Hsh as (_ & _ & _ & _ & _ & Hcbs).
    rewrite Hcbs in Hcb. rewrite Forall_forall in Hb.
    apply Hb, list_elem_of_In. exact Hcb.
  - apply parse_state_exits.
  - apply parse_document_sections.
Qed.

Lemma C5_unclosed_fence_dropped_witness :
  (forall j l, 4 < j -> split_lines open_fence_text !! j = Some l ->
               strip l <> str "```")
  /\ (forall cb, In cb (all_code_blocks (parse_document open_fence_text)) ->
        cb_line_number cb <> 4).
Proof.
  assert (H : forall j l, 4 < j -> split_lines open_fence_text !! j = Some l ->
                          strip l <> str "```").
  { intros j l Hj Hl.
    destruct j as [|[|[|[|[|[|j]]]]]]; try lia; vm_compute in Hl;
      [injection Hl as <-; vm_compute; discriminate | discriminate]. }
  split; [exact H|].
  exact (proj1 (proj2 (C5_unclosed_fence_dropped open_fence_text 4 H))).
Defined.

(** The fence that is closed is kept, once in each list. *)
Example open_fence_keeps_closed_block :
  map cb_line_number (all_code_blocks (parse_document open_fence_text)) = [1]
  /\ map (fun s => map cb_line_number (code_blocks s))
         (sections (parse_document open_fence_text)) = [[1]].
Proof. split; vm_compute; reflexivity. Qed.

(* ===================================================================== *)
(** * Lines of four or more markers                                      *)
(* ===================================================================== *)


(** The line is in the content of the section that is open when it is
    read, and in a code block when a fence is open. *)
Example deep_line_in_content :
  map content (sections (parse_document deep_text))
    = [str "#### deep" ++ [nl] ++ str "text" ++ [nl]].
Proof. vm_compute. reflexivity. Qed.

Example deep_line_in_code_block :
  map content (sections (parse_document fenced_deep_text)) = [[]]
  /\ map code (all_code_blocks (parse_document fenced_deep_text))
     = [str "#### x"].
Proof. split; vm_compute; reflexivity. Qed.

(* ===================================================================== *)
(** * The queries on sample documents                                    *)
(* ===================================================================== *)

Lemma C4_preview_truncation_witness :
  search preview_doc (str "a") 5 !! 0 = Some (make_result long_section)
  /\ exists s,
       List.filter (section_matches (lower (str "a"))) (sections preview_doc) !! 0
         = Some s
       /\ In s (sections preview_doc)
       /\ r_title (make_result long_section) = title s
       /\ r_path (make_result long_section) = path s
       /\ (length (content s) = 201 ->
           r_preview (make_result long_section) = take 200 (content s) ++ str "...")
       /\ (length (content s) = 200 ->
           r_preview (make_result long_section) = content s).
Proof.
  assert (H : search preview_doc (str "a") 5 !! 0 = Some (make_result long_section))
    by (vm_compute; reflexivity).
  split; [exact H|].
  exact (C4_preview_truncation preview_doc (str "a") 5 0 (make_result long_section) H).
Defined.

(** The two previews, in full. *)
Example preview_at_the_boundary :
  map r_preview (search preview_doc (str "a") 5)
    = [repeat "a"%char 200 ++ str "..."; repeat "a"%char 200].
Proof. vm_compute. reflexivity. Qed.

Lemma C10_search_nonpositive_max_one_entry_witness :
  (0 <= 0)%Z
  /\ List.filter (section_matches (lower (str "a"))) (sections preview_doc)
     = [long_section; exact_section]
  /\ search preview_doc (str "a") 0 = [make_result long_section].
Proof.
  assert (H1 : (0 <= 0)%Z) by lia.
  assert (H2 : List.filter (section_matches (lower (str "a"))) (sections preview_doc)
               = [long_section; exact_section]) by (vm_compute; reflexivity).
  split; [exact H1|]. split; [exact H2|].
  exact (proj1 (C10_search_nonpositive_max_one_entry preview_doc (str "a") 0
                  long_section [exact_section] H1 H2)).
Defined.

(** C6 (as stated, fails): with [max_results] zero the collecting of the
    claim stops at once and returns nothing; the loop tests the cutoff only
    after it has appended a match, and returns one entry. *)
Lemma C6_search_cut_at_zero_counterexample :
  search_as_specified preview_doc (str "a") 0 = []
  /\ search preview_doc (str "a") 0 = [make_result long_section]
  /\ search preview_doc (str "a") 0 <> search_as_specified preview_doc (str "a") 0.
Proof.
  split; [vm_compute; reflexivity|]. split; [vm_compute; reflexivity|].
  intros H. vm_compute in H. discriminate H.
Qed.

(** From one on the two agree. *)
Example search_cut_from_one :
  search preview_doc (str "a") 1 = search_as_specified preview_doc (str "a") 1
  /\ search preview_doc (str "a") 2 = search_as_specified preview_doc (str "a") 2.
Proof. split; vm_compute; reflexivity. Qed.

(** A subsection that matches does not make its top-level section match. *)
Example search_skips_subsections :
  search (parse_document nested_text) (str "B") 5 = []
  /\ map r_path (search (parse_document nested_text) (str "a") 5) = [str "A"].
Proof. split; vm_compute; reflexivity. Qed.

Lemma C8_get_section_miss_suggests_witness :
  dict_get (sections_by_path widget_doc) (str "resize") = None
  /\ get_section (Some widget_doc) (str "resize") =
     str "Section not found. Did you mean one of these?" ++ [nl]
       ++ join [nl] (map (fun p => str "- " ++ p)
                         [str "Widget/resize";
                          str "Widget/resize/resize options";
                          str "Widget/resize/resize options/other"]).
Proof.
  assert (H : dict_get (sections_by_path widget_doc) (str "resize") = None)
    by (vm_compute; reflexivity).
  split; [exact H|].
  pose proof (proj1 (proj2 (proj2 (C8_get_section_miss_suggests widget_doc
                                      (str "resize") H)))) as Hget.
  rewrite Hget. vm_compute. reflexivity.
Defined.

(** C3 (as stated, fails): the header ["### resize options"] follows the
    header ["## resize"] and mentions the method itself, so the run goes on
    through it; the run of the claim stops before it, whether a header line
    is a line that starts with ['#'] or a line the parser takes for a
    header. *)
Lemma C3_run_passes_next_header_counterexample :
  exists section,
    dict_get (api_entries widget_doc) (str "Widget") = None
    /\ List.find (fun s => contains (lower (str "Widget")) (lower (title s)))
                 (dict_values (sections_by_path widget_doc)) = Some section
    /\ get_api_info (Some widget_doc) (str "Widget") (Some (str "resize"))
       <> narrowed_text is_hash_line (get_full_content true section) (str "resize")
    /\ get_api_info (Some widget_doc) (str "Widget") (Some (str "resize"))
       <> narrowed_text is_header_line (get_full_content true section) (str "resize").
Proof.
  eexists. split; [vm_compute; reflexivity|].
  split; [vm_compute; reflexivity|].
  split; intros H; vm_compute in H; discriminate H.
Qed.

(** What the two sides are on that document. *)
Example narrowing_on_widget :
  get_api_info (Some widget_doc) (str "Widget") (Some (str "resize"))
    = unlines ["## resize"; blank; "Resizes."; blank; blank;
               "### resize options"; blank; "Opts."; blank; blank]
  /\ narrowed_text is_hash_line
       (get_api_info (Some widget_doc) (str "Widget") None) (str "resize")
     = unlines ["## resize"; blank; "Resizes."; blank; blank].
Proof. split; vm_compute; reflexivity. Qed.

Lemma C3_method_narrowing_witness :
  str "other" <> []
  /\ dict_get (api_entries widget_doc) (str "Widget") = None
  /\ List.find (fun s => contains (lower (str "Widget")) (lower (title s)))
               (dict_values (sections_by_path widget_doc)) = Some widget_section
  /\ get_api_info (Some widget_doc) (str "Widget") (Some (str "other"))
     = narrowed_text (ends_method (str "other"))
                     (get_full_content true widget_section) (str "other").
Proof.
  assert (H1 : str "other" <> []) by discriminate.
  assert (H2 : dict_get (api_entries widget_doc) (str "Widget") = None)
    by (vm_compute; reflexivity).
  assert (H3 : List.find (fun s => contains (lower (str "Widget")) (lower (title s)))
                         (dict_values (sections_by_path widget_doc))
               = Some widget_section)
    by (vm_compute; reflexivity).
  split; [exact H1|]. split; [exact H2|]. split; [exact H3|].
  exact (proj1 (C3_method_narrowing widget_doc (str "Widget") (str "other")
                  widget_section H1 H2 H3)).
Defined.

(** The run for a method that no later header mentions. *)
Example narrowing_to_other :
  get_api_info (Some widget_doc) (str "Widget") (Some (str "other"))
    = unlines ["## other"; blank; blank].
Proof. vm_compute. reflexivity. Qed.

(** The whole pipeline on a small manual: the paths in the order of the
    path map, the class entries, the code blocks with their language and
    owning path, and two queries. *)
Example manual_index :
  dict_keys (sections_by_path (parse_document manual_text))
    = [str "Creating a Widget"; str "Creating a Widget/Usage";
       str "Creating a Widget/Usage/The class Gadget";
       str "The class Gadget/Usage"]
  /\ map (fun e => (fst e, description (snd e), section_path (snd e)))
         (api_entries (parse_document manual_text))
     = [(str "Widget", str "Widgets are made here.", str "Creating a Widget");
        (str "Gadget", [], str "Creating a Widget/Usage/The class Gadget")]
  /\ map (fun cb => (language cb, context_section cb, cb_line_number cb))
         (all_code_blocks (parse_document manual_text))
     = [(str "python", str "Creating a Widget/Usage", 4);
        (str "plaintext", str "The class Gadget/Usage", 10)].
Proof. repeat split; vm_compute; reflexivity. Qed.

(** C7 (as stated, fails): an empty language is supplied, and no block has
    an empty language tag, so the filter of the claim keeps nothing; the
    code takes the empty language for none and keeps both blocks that
    mention the topic, the one tagged ["python"] and the one tagged
    ["plaintext"]. *)
Lemma C7_empty_language_counterexample :
  List.filter (example_matches_as_specified (str "connect") (Some []))
              (all_code_blocks (parse_document manual_text)) = []
  /\ map language (selected_examples (parse_document manual_text) (str "connect")
                                     (Some []))
     = [str "python"; str "plaintext"]
  /\ selected_examples (parse_document manual_text) (str "connect") (Some [])
     <> take 10 (List.filter
                   (example_matches_as_specified (str "connect") (Some []))
                   (all_code_blocks (parse_document manual_text))).
Proof.
  split; [vm_compute; reflexivity|]. split; [vm_compute; reflexivity|].
  intros H. vm_compute in H. discriminate H.
Qed.

(** With a language that is not empty the two filters agree. *)
Example language_filter_on_manual :
  selected_examples (parse_document manual_text) (str "connect") (Some (str "Python"))
  = take 10 (List.filter
               (example_matches_as_specified (str "connect") (Some (str "Python")))
               (all_code_blocks (parse_document manual_text))).
Proof. vm_compute. reflexivity. Qed.

Example manual_queries :
  get_code_examples (Some (parse_document manual_text)) (str "CONNECT")
                    (Some (str "Python"))
    = unlines ["**From section:** Creating a Widget/Usage"; blank; "```python";
               "w = Widget()"; "w.connect()"; "```"]
  /\ get_section (Some (parse_document manual_text)) (str "Creating a Widget/Usage")
     = unlines ["## Usage"; blank; blank]
  /\ get_section None (str "Usage") = str "Documentation not loaded".
Proof. repeat split; vm_compute; reflexivity. Qed.

(* ===================================================================== *)
(** * The turns of the loop                                              *)
(* ===================================================================== *)

Lemma level_of_fresh (h : list SectionObj) (o : SectionObj) :
  level_of (h ++ [o]) (length h) = level_value (o_level o).
Proof.
  unfold level_of. rewrite lookup_app_r by lia. rewrite Nat.sub_diag. reflexivity.
Qed.

Lemma step_turn (lines : list (list ascii)) (st : PState) :
  idx st < length lines -> turn lines st (step lines st).
Proof.
  intros Hi. destruct (lookup_lt_is_Some_2 lines (idx st) Hi) as [line Hl].
  unfold step. rewrite Hl.
  destruct (header_match line) as [[lvl g]|] eqn:Ehm.
  - fold (new_section st lvl g). unfold _add_section_to_hierarchy.
    rewrite (level_of_fresh (heap st) (new_section st lvl g)). simpl o_level.
    destruct (find_parent (heap st ++ [new_section st lvl g]) (level_value lvl)
                          (rev (stack st))) as [parent|] eqn:Efp.
    + destruct (stack st) as [|s0 stk] eqn:Es; [discriminate|].
      simpl fst; simpl snd. rewrite <- Es in *.
      eapply turn_child; eauto.
    + assert (E : (match stack st with
                   | [] => (heap st ++ [new_section st lvl g],
                            roots st ++ [length (heap st)])
                   | _ :: _ => (heap st ++ [new_section st lvl g],
                                roots st ++ [length (heap st)])
                   end) = (heap st ++ [new_section st lvl g],
                           roots st ++ [length (heap st)]))
        by (destruct (stack st); reflexivity).
      rewrite E. simpl fst; simpl snd. eapply turn_root; eauto.
  - destruct (is_fence line) eqn:Efe.
    + destruct (_parse_code_block lines (idx st)) as [ocb j] eqn:Ecb. simpl fst; simpl snd.
      destruct ocb as [cb|].
      * destruct (last (stack st)) as [top|] eqn:Et.
        -- apply (turn_block lines st line cb j top); auto.
        -- apply (turn_skip lines st line j); auto. rewrite Ecb. reflexivity.
      * apply (turn_skip lines st line j); auto; rewrite Ecb; auto.
    + destruct (last (stack st)) as [top|] eqn:Et.
      * apply (turn_content lines st line top); auto.
      * apply (turn_drop lines st line); auto.
Qed.

Lemma parse_loop_turns (lines : list (list ascii)) (P : PState -> Prop) :
  (forall st st', wf_state lines st -> P st -> turn lines st st' -> P st') ->
  forall fuel st, wf_state lines st -> P st -> P (parse_loop fuel lines st).
Proof.
  intros Hturn. induction fuel as [|fuel IH]; intros st Hwf HP; simpl; [exact HP|].
  destruct (Nat.ltb_spec (idx st) (length lines)) as [Hlt|Hge]; [|exact HP].
  apply IH; [apply step_wf, Hwf|].
  exact (Hturn st _ Hwf HP (step_turn lines st Hlt)).
Qed.

(** The reversed-stack scan of [_add_section_to_hierarchy] and the popping
    of the stack stop at the same entry. *)
Lemma find_parent_dropwhile (h : list SectionObj) (lvl : nat) (rstack : list nat) :
  find_parent h lvl rstack = head (dropwhile (fun r => lvl <=? level_of h r) rstack).
Proof.
  induction rstack as [|p rstack IH]; simpl; [reflexivity|].
  destruct (Nat.ltb_spec (level_of h p) lvl) as [Hlt|Hge].
  - destruct (Nat.leb_spec lvl (level_of h p)); [lia | reflexivity].
  - destruct (Nat.leb_spec lvl (level_of h p)); [exact IH | lia].
Qed.

Lemma dropwhile_ext_in {A} (p q : A -> bool) (l : list A) :
  (forall x, In x l -> p x = q x) -> dropwhile p l = dropwhile q l.
Proof.
  induction l as [|x l IH]; simpl; intros H; [reflexivity|].
  rewrite <- (H x) by auto. destruct (p x); [apply IH; auto | reflexivity].
Qed.

Lemma map_dropwhile {A B} (f : A -> B) (p : B -> bool) (l : list A) :
  map f (dropwhile (fun x => p (f x)) l) = dropwhile p (map f l).
Proof.
  induction l as [|x l IH]; simpl; [reflexivity|].
  destruct (p (f x)); [exact IH | reflexivity].
Qed.

Lemma sorted_dropwhile (lvl : nat) (levels : list nat) :
  StronglySorted gt levels ->
  StronglySorted gt (lvl :: dropwhile (fun n => lvl <=? n) levels).
Proof.
  induction levels as [|n levels IH]; simpl; intros Hs.
  - constructor; constructor.
  - apply StronglySorted_inv in Hs as [Hs Hn].
    destruct (Nat.leb_spec lvl n) as [Hle|Hlt]; [apply IH, Hs|].
    constructor; [constructor; assumption|].
    constructor; [unfold gt; lia|].
    eapply Forall_impl; [exact Hn|]. unfold gt. simpl. intros; lia.
Qed.

Lemma sorted_levels_short (levels : list nat) :
  StronglySorted gt levels -> Forall (fun n => 1 <= n <= 3) levels ->
  length levels <= 3.
Proof.
  intros Hs Hb.
  destruct levels as [|a [|b [|c [|d rest]]]]; simpl; try lia.
  apply StronglySorted_inv in Hs as [Hs Ha].
  apply StronglySorted_inv in Hs as [Hs Hb'].
  apply StronglySorted_inv in Hs as [Hs Hc].
  inversion Ha as [|? ? Hab Ha1]; subst. inversion Ha1 as [|? ? Hac Ha2]; subst.
  inversion Hb' as [|? ? Hbc Hb1]; subst. inversion Hb1 as [|? ? Hbd _]; subst.
  inversion Hc as [|? ? Hcd _]; subst.
  inversion Hb as [|? ? Ha3 Hb2]; subst. inversion Hb2 as [|? ? _ Hb3]; subst.
  inversion Hb3 as [|? ? _ Hb4]; subst. inversion Hb4 as [|? ? Hd1 _]; subst.
  unfold gt in *. lia.
Qed.

(** Levels read through the references of a well-formed state do not change
    when an object is allocated or updated. *)
Lemma stack_levels_snoc (h : list SectionObj) (o : SectionObj) (l : list nat) :
  Forall (fun r => r < length h) l ->
  map (level_of (h ++ [o])) l = map (level_of h) l.
Proof.
  intros Hl. apply map_ext_in. intros r Hr.
  rewrite Forall_forall in Hl. apply level_of_snoc, Hl, list_elem_of_In, Hr.
Qed.

Lemma pop_stack_ext (h h' : list SectionObj) (lvl : nat) (stack : list nat) :
  (forall r, In r stack -> level_of h' r = level_of h r) ->
  pop_stack h' lvl stack = pop_stack h lvl stack.
Proof.
  intros H. unfold pop_stack. f_equal. apply dropwhile_ext_in.
  intros r Hr. rewrite H; [reflexivity|]. apply in_rev. exact Hr.
Qed.

(** After the turn of a header the stack holds the new section on top of
    what the popping left; the scan for a parent found the entry just below
    it, or nothing when nothing is left. *)
Lemma pop_stack_parent (h : list SectionObj) (lvl : nat) (stack : list nat) :
  find_parent h lvl (rev stack) = last (pop_stack h lvl stack).
Proof.
  rewrite find_parent_dropwhile. unfold pop_stack.
  destruct (dropwhile _ (rev stack)) as [|x l]; simpl; [reflexivity|].
  symmetry. apply last_snoc.
Qed.

Lemma turn_stack_inv (lines : list (list ascii)) (st st' : PState) :
  wf_state lines st -> stack_inv st -> turn lines st st' -> stack_inv st'.
Proof.
  intros Hwf [Htop Hsorted] Hturn.
  pose proof (wf_stack _ _ Hwf) as Hvalid.
  assert (Hrev : Forall (fun r => r < length (heap st)) (rev (stack st))).
  { apply Forall_forall. intros r Hr. rewrite Forall_forall in Hvalid.
    apply Hvalid. apply list_elem_of_In. apply in_rev. apply list_elem_of_In, Hr. }
  assert (Hpush : forall h', length h' = S (length (heap st)) ->
            (forall r, r < length (heap st) -> level_of h' r = level_of (heap st) r) ->
            level_of h' (length (heap st)) <= 3 ->
            forall lvl, level_of h' (length (heap st)) = lvl ->
            stack_inv (mkPState h' (pop_stack h' lvl (stack st) ++ [length (heap st)])
                                (roots st') (blocks st') (idx st'))).
  { intros h' Hlen Hlev _ lvl Hnew. constructor; simpl.
    - rewrite last_snoc, Hlen. reflexivity.
    - unfold stack_levels. simpl. rewrite rev_app_distr. simpl. rewrite Hnew.
      unfold pop_stack. rewrite rev_involutive.
      rewrite (dropwhile_ext_in _ (fun r => lvl <=? level_of (heap st) r)).
      2: { intros r Hr. rewrite Forall_forall in Hrev.
           rewrite Hlev; [reflexivity|]. apply Hrev, list_elem_of_In, Hr. }
      assert (Hm : map (level_of h')
                       (dropwhile (fun r => lvl <=? level_of (heap st) r) (rev (stack st)))
                   = map (level_of (heap st))
                       (dropwhile (fun r => lvl <=? level_of (heap st) r) (rev (stack st)))).
      { apply map_ext_in. intros r Hr. apply dropwhile_In in Hr.
        rewrite Forall_forall in Hrev. apply Hlev, Hrev, list_elem_of_In, Hr. }
      rewrite Hm.
      rewrite (map_dropwhile (level_of (heap st)) (fun n => lvl <=? n)).
      apply sorted_dropwhile. exact Hsorted. }
  assert (Hsame : forall f top blocks' idx',
            (forall o, o_level (f o) = o_level o) ->
            stack_inv (mkPState (alter f top (heap st)) (stack st) (roots st)
                                blocks' idx')).
  { intros f top blocks' idx' Hf. constructor; simpl.
    - rewrite length_alter. exact Htop.
    - unfold stack_levels. simpl.
      rewrite (map_ext _ (level_of (heap st))); [exact Hsorted|].
      intros r. apply level_of_alter. exact Hf. }
  destruct Hturn.
  - apply (Hpush (heap st ++ [new_section st lvl g])) with (lvl := level_value lvl).
    + rewrite length_app. simpl. lia.
    + intros r Hr. apply level_of_snoc. exact Hr.
    + rewrite level_of_fresh. simpl. destruct lvl; simpl; lia.
    + apply level_of_fresh.
  - apply (Hpush (alter (append_subsection (length (heap st))) parent
                        (heap st ++ [new_section st lvl g])))
      with (lvl := level_value lvl).
    + rewrite length_alter, length_app. simpl. lia.
    + intros r Hr. rewrite level_of_alter by reflexivity. apply level_of_snoc, Hr.
    + rewrite level_of_alter, level_of_fresh by reflexivity. simpl.
      destruct lvl; simpl; lia.
    + rewrite level_of_alter by reflexivity. apply level_of_fresh.
  - apply Hsame. reflexivity.
  - constructor; assumption.
  - apply Hsame. reflexivity.
  - constructor; assumption.
Qed.

Lemma init_stack_inv : stack_inv init_state.
Proof. constructor; simpl; [reflexivity | constructor]. Qed.

Lemma parse_loop_stack_inv (lines : list (list ascii)) (fuel : nat) :
  stack_inv (parse_loop fuel lines init_state).
Proof.
  apply (parse_loop_turns lines stack_inv).
  - intros st st'. apply turn_stack_inv.
  - apply init_state_wf.
  - apply init_stack_inv.
Qed.

Lemma takewhile_dropwhile {A} (p : A -> bool) (l : list A) :
  takewhile p l ++ dropwhile p l = l.
Proof.
  induction l as [|x l IH]; simpl; [reflexivity|].
  destruct (p x); simpl; [rewrite IH|]; reflexivity.
Qed.

Lemma pop_stack_prefix (h : list SectionObj) (lvl : nat) (stack : list nat) :
  exists popped, stack = pop_stack h lvl stack ++ popped.
Proof.
  unfold pop_stack.
  exists (rev (takewhile (fun r => lvl <=? level_of h r) (rev stack))).
  rewrite <- rev_app_distr, takewhile_dropwhile, rev_involutive. reflexivity.
Qed.

Lemma level_of_valid (lines : list (list ascii)) (st : PState) (r : nat) :
  r < length (heap st) -> 1 <= level_of (heap st) r <= 3.
Proof.
  intros Hr. destruct (lookup_lt_is_Some_2 _ _ Hr) as [o Ho].
  rewrite (level_of_lookup _ _ _ Ho). destruct (o_level o); simpl; lia.
Qed.

(* ===================================================================== *)
(** * Further properties of the parser                                   *)
(* ===================================================================== *)

(** X1: after any number of turns of the loop of [parse_document], the
    levels of the sections on the stack grow strictly from its bottom to
    its top, the stack holds at most three sections, and its top is the
    section created last (the stack is empty only while no section
    exists). *)
Theorem X1_stack_discipline (text : list ascii) (turns : nat) :
  let st := parse_loop turns (split_lines text) init_state in
  StronglySorted gt (stack_levels st)
  /\ length (stack st) <= 3
  /\ last (stack st) = match length (heap st) with 0 => None | S n => Some n end.
Proof.
  intros st.
  destruct (parse_loop_stack_inv (split_lines text) turns) as [Htop Hsorted].
  fold st in Htop, Hsorted.
  split; [exact Hsorted|]. split; [|exact Htop].
  assert (Hwf : wf_state (split_lines text) st)
    by (apply parse_loop_wf, init_state_wf).
  replace (length (stack st)) with (length (stack_levels st))
    by (unfold stack_levels; rewrite length_map, length_rev; reflexivity).
  apply sorted_levels_short; [exact Hsorted|].
  unfold stack_levels. apply Forall_forall. intros n Hn.
  apply list_elem_of_In, in_map_iff in Hn as (r & <- & Hr).
  apply (level_of_valid (split_lines text)).
  pose proof (wf_stack _ _ Hwf) as Hv. rewrite Forall_forall in Hv.
  apply Hv, list_elem_of_In, in_rev, Hr.
Qed.

Lemma no_header_stays_empty (lines : list (list ascii)) (st st' : PState) :
  (forall l, In l lines -> header_match l = None) ->
  heap st = [] /\ stack st = [] /\ roots st = [] /\ blocks st = [] ->
  turn lines st st' ->
  heap st' = [] /\ stack st' = [] /\ roots st' = [] /\ blocks st' = [].
Proof.
  intros Hnone (Hh & Hs & Hr & Hb) Hturn.
  assert (Hin : forall line, lines !! idx st = Some line -> header_match line = None).
  { intros line Hl. apply Hnone, list_elem_of_In, list_elem_of_lookup. eauto. }
  destruct Hturn as [line lvl g Hl Hm _ | line lvl g parent Hl Hm _
                    | line cb j top Hl _ _ _ Ht | line j Hl _ _ _ _
                    | line top Hl _ _ Ht | line Hl _ _ _]; simpl.
  - rewrite (Hin line Hl) in Hm. discriminate.
  - rewrite (Hin line Hl) in Hm. discriminate.
  - rewrite Hs in Ht. discriminate.
  - auto.
  - rewrite Hs in Ht. discriminate.
  - auto.
Qed.

(** X3: a text without a header line parses to the empty document: no
    section, no path, no code block and no class entry, whatever content
    and fences it holds. *)
Theorem X3_no_header_empty_document (text : list ascii) :
  (forall l, In l (split_lines text) -> header_match l = None) ->
  parse_document text = mkParsedDoc [] [] [] [].
Proof.
  intros Hnone.
  assert (H : heap (parse_state text) = [] /\ stack (parse_state text) = []
              /\ roots (parse_state text) = [] /\ blocks (parse_state text) = []).
  { unfold parse_state.
    apply (parse_loop_turns (split_lines text)
             (fun st => heap st = [] /\ stack st = [] /\ roots st = []
                        /\ blocks st = [])).
    - intros st st' _. apply no_header_stays_empty. exact Hnone.
    - apply init_state_wf.
    - simpl. auto. }
  destruct H as (Hh & _ & Hr & Hb).
  unfold parse_document, freeze_roots. rewrite Hr, Hb. reflexivity.
Qed.

Lemma X3_no_header_empty_document_witness :
  (forall l, In l (split_lines (unlines ["intro"; "```"; "x = 1"; "```"])) ->
             header_match l = None)
  /\ parse_document (unlines ["intro"; "```"; "x = 1"; "```"])
     = mkParsedDoc [] [] [] [].
Proof.
  assert (H : forall l, In l (split_lines (unlines ["intro"; "```"; "x = 1"; "```"])) ->
                        header_match l = None).
  { intros l Hl. vm_compute in Hl.
    destruct Hl as [<-|[<-|[<-|[<-|[]]]]]; vm_compute; reflexivity. }
  split; [exact H|].
  exact (X3_no_header_empty_document _ H).
Defined.

Lemma lookup_alter_Some {A} (f : A -> A) (p : nat) (h : list A) (q : nat) (o' : A) :
  alter f p h !! q = Some o' ->
  exists o, h !! q = Some o /\ ((q = p /\ o' = f o) \/ (q <> p /\ o' = o)).
Proof.
  destruct (decide (p = q)) as [->|Hne].
  - rewrite list_lookup_alter_eq. destruct (h !! q) as [o|]; simpl; [|discriminate].
    intros H. injection H as <-. eauto.
  - rewrite list_lookup_alter_ne by exact Hne. intros H. exists o'. auto.
Qed.

Lemma lookup_snoc_Some {A} (h : list A) (x : A) (q : nat) (o' : A) :
  (h ++ [x]) !! q = Some o' ->
  (q < length h /\ h !! q = Some o') \/ (q = length h /\ o' = x).
Proof.
  intros H. apply lookup_app_Some in H as [H|[Hge H]].
  - left. split; [eapply lookup_lt_Some; eauto | exact H].
  - right. destruct (q - length h) as [|k] eqn:E; simpl in H; [|discriminate].
    injection H as <-. split; [lia | reflexivity].
Qed.

Lemma turn_idx (lines : list (list ascii)) (st st' : PState) :
  turn lines st st' -> idx st < idx st'.
Proof.
  intros Hturn.
  destruct Hturn as [| | line cb j top _ _ _ Hcb _ | line j _ _ _ Hj _ | |]; simpl;
    try lia.
  - pose proof (_parse_code_block_index lines (idx st)) as H.
    rewrite Hcb in H. simpl in H. lia.
  - pose proof (_parse_code_block_index lines (idx st)) as H. lia.
Qed.

(** An object after a turn is an object before it, with the fields that
    are set at creation unchanged, or the object the turn created. *)
Lemma turn_objects (lines : list (list ascii)) (st st' : PState) (p : nat)
    (o' : SectionObj) :
  turn lines st st' -> heap st' !! p = Some o' ->
  (exists o, heap st !! p = Some o /\ o_title o' = o_title o
             /\ o_level o' = o_level o /\ o_path o' = o_path o
             /\ o_line_number o' = o_line_number o)
  \/ (p = length (heap st) /\ o_line_number o' = idx st /\ o_content o' = []
      /\ o_code_blocks o' = [] /\ o_subsections o' = []
      /\ exists line g, lines !! idx st = Some line
                        /\ header_match line = Some (o_level o', g)
                        /\ o_title o' = strip g
                        /\ o_path o' = _build_path (heap st) (stack st) (strip g)).
Proof.
  intros Hturn Hp.
  destruct Hturn as [line lvl g Hl Hm _ | line lvl g parent Hl Hm Hfp
                    | line cb j top _ _ _ _ _ | line j _ _ _ _ _
                    | line top _ _ _ _ | line _ _ _ _]; simpl in Hp.
  - apply lookup_snoc_Some in Hp as [[_ Hp]|[-> ->]]; [left; eauto 10|].
    right. simpl. eauto 12.
  - apply lookup_alter_Some in Hp as (o & Ho & Hcase).
    apply lookup_snoc_Some in Ho as [[Hlt Ho]|[-> ->]].
    + left. exists o. split; [exact Ho|].
      destruct Hcase as [[_ ->]|[_ ->]]; simpl; auto.
    + destruct Hcase as [[<- _]|[_ ->]].
      * apply find_parent_Some in Hfp as [_ Hlev].
        rewrite level_of_fresh in Hlev. simpl in Hlev. lia.
      * right. simpl. eauto 12.
  - apply lookup_alter_Some in Hp as (o & Ho & [[_ ->]|[_ ->]]); left; eauto 10.
  - left; eauto 10.
  - apply lookup_alter_Some in Hp as (o & Ho & [[_ ->]|[_ ->]]); left; eauto 10.
  - left; eauto 10.
Qed.

Lemma turn_order_inv (lines : list (list ascii)) (st st' : PState) :
  order_inv st -> turn lines st st' -> order_inv st'.
Proof.
  intros [Hlines Horder Hblocks] Hturn.
  pose proof (turn_idx _ _ _ Hturn) as Hidx.
  assert (Hl' : forall p o, heap st' !! p = Some o ->
            o_line_number o < idx st'
            /\ (p < length (heap st) -> exists o0, heap st !! p = Some o0
                  /\ o_line_number o = o_line_number o0)
            /\ (length (heap st) <= p -> o_line_number o = idx st)).
  { intros p o Hp.
    destruct (turn_objects _ _ _ _ _ Hturn Hp)
      as [(o0 & Ho0 & _ & _ & _ & Hln)|(-> & Hln & _)].
    - pose proof (Hlines p o0 Ho0). pose proof (lookup_lt_Some _ _ _ Ho0).
      split; [lia|]. split; [eauto|lia].
    - split; [lia|]. split; [lia|auto]. }
  constructor.
  - intros p o Hp. apply (Hl' p o Hp).
  - intros p q op oq Hp Hq Hpq.
    destruct (Hl' p op Hp) as (_ & Hpold & Hpnew).
    destruct (Hl' q oq Hq) as (_ & Hqold & Hqnew).
    destruct (Nat.lt_ge_cases q (length (heap st))) as [Hqlt|Hqge].
    + destruct (Hqold Hqlt) as (oq0 & Hq0 & ->).
      destruct (Hpold ltac:(lia)) as (op0 & Hp0 & ->).
      exact (Horder p q op0 oq0 Hp0 Hq0 Hpq).
    + rewrite (Hqnew Hqge).
      destruct (Nat.lt_ge_cases p (length (heap st))) as [Hplt|Hpge].
      * destruct (Hpold Hplt) as (op0 & Hp0 & ->). exact (Hlines p op0 Hp0).
      * exfalso.
        destruct (turn_objects _ _ _ _ _ Hturn Hp)
          as [(o0 & Ho0 & _)|(-> & _)];
          destruct (turn_objects _ _ _ _ _ Hturn Hq)
            as [(o1 & Ho1 & _)|(-> & _)];
          try (apply lookup_lt_Some in Ho0); try (apply lookup_lt_Some in Ho1); lia.
  - assert (Hold : Forall (fun cb => cb_line_number cb < idx st') (blocks st)).
    { eapply Forall_impl; [exact Hblocks|]. simpl. intros; lia. }
    destruct Hturn as [| | line cb j top _ _ _ Hcb _ | | |]; simpl in *; auto.
    apply Forall_app. split; [exact Hold|]. constructor; [|constructor].
    simpl.
    assert (Hf : fst (_parse_code_block lines (idx st)) = Some cb)
      by (rewrite Hcb; reflexivity).
    apply _parse_code_block_Some in Hf as [-> _]. lia.
Qed.

Lemma init_order_inv : order_inv init_state.
Proof.
  constructor; simpl; auto; intros p; intros; destruct p; discriminate.
Qed.

Lemma parse_loop_order_inv (lines : list (list ascii)) (fuel : nat) :
  order_inv (parse_loop fuel lines init_state).
Proof.
  apply (parse_loop_turns lines order_inv).
  - intros st st' _. apply turn_order_inv.
  - apply init_state_wf.
  - apply init_order_inv.
Qed.

(** What a turn does to the three growing fields of an object. *)
Lemma turn_fields (lines : list (list ascii)) (st st' : PState) (p : nat)
    (o o' : SectionObj) :
  turn lines st st' -> heap st !! p = Some o -> heap st' !! p = Some o' ->
  (o_content o' = o_content o
   \/ exists line, lines !! idx st = Some line /\ header_match line = None
                   /\ is_fence line = false /\ last (stack st) = Some p
                   /\ o_content o' = o_content o ++ line ++ [nl]
                   /\ idx st' = S (idx st))
  /\ (o_code_blocks o' = o_code_blocks o
      \/ exists cb j, _parse_code_block lines (idx st) = (Some cb, j)
                      /\ last (stack st) = Some p
                      /\ o_code_blocks o' = o_code_blocks o ++ [owned_block st cb p]
                      /\ blocks st' = blocks st ++ [owned_block st cb p]
                      /\ idx st' = S j)
  /\ (o_subsections o' = o_subsections o
      \/ o_subsections o' = o_subsections o ++ [length (heap st)]).
Proof.
  intros Hturn Ho Ho'. pose proof (lookup_lt_Some _ _ _ Ho) as Hlt.
  destruct Hturn as [line lvl g Hl Hm _ | line lvl g parent Hl Hm Hfp
                    | line cb j top Hl Hm Hf Hcb Ht | line j _ _ _ _ _
                    | line top Hl Hm Hf Ht | line _ _ _ _]; simpl in Ho'.
  - rewrite lookup_app_l in Ho' by exact Hlt. rewrite Ho in Ho'.
    injection Ho' as <-. auto.
  - apply lookup_alter_Some in Ho' as (o0 & Ho0 & Hcase).
    rewrite lookup_app_l in Ho0 by exact Hlt. rewrite Ho in Ho0.
    injection Ho0 as <-. destruct Hcase as [[_ ->]|[_ ->]]; simpl; auto.
  - apply lookup_alter_Some in Ho' as (o0 & Ho0 & Hcase).
    rewrite Ho in Ho0. injection Ho0 as <-.
    destruct Hcase as [[-> ->]|[_ ->]]; simpl; auto.
    split; [auto|]. split; [|auto]. right. exists cb, j. auto.
  - rewrite Ho in Ho'. injection Ho' as <-. auto.
  - apply lookup_alter_Some in Ho' as (o0 & Ho0 & Hcase).
    rewrite Ho in Ho0. injection Ho0 as <-.
    destruct Hcase as [[-> ->]|[_ ->]]; simpl; auto.
    split; [|auto]. right. exists line. auto 10.
  - rewrite Ho in Ho'. injection Ho' as <-. auto.
Qed.

(** What a turn does to the document-wide list of code blocks. *)
Lemma turn_blocks (lines : list (list ascii)) (st st' : PState) :
  turn lines st st' ->
  blocks st' = blocks st
  \/ exists cb j top,
       _parse_code_block lines (idx st) = (Some cb, j)
       /\ last (stack st) = Some top
       /\ (exists line, lines !! idx st = Some line /\ header_match line = None
                        /\ is_fence line = true)
       /\ blocks st' = blocks st ++ [owned_block st cb top]
       /\ heap st' = alter (append_code_block (owned_block st cb top)) top (heap st)
       /\ idx st' = S j.
Proof.
  intros Hturn.
  destruct Hturn as [| | line cb j top Hl Hm Hf Hcb Ht | | |]; simpl; auto.
  right. exists cb, j, top. eauto 12.
Qed.

Lemma content_of_snoc (lines : list (list ascii)) (ixs : list nat) (i : nat)
    (line : list ascii) :
  lines !! i = Some line ->
  content_of lines (ixs ++ [i]) = content_of lines ixs ++ line ++ [nl].
Proof.
  intros Hl. unfold content_of. rewrite map_app, concat_app. simpl.
  rewrite Hl, app_nil_r. reflexivity.
Qed.

Lemma sorted_snoc {A} (R : A -> A -> Prop) (l : list A) (x : A) :
  StronglySorted R l -> Forall (fun y => R y x) l -> StronglySorted R (l ++ [x]).
Proof.
  induction l as [|y l IH]; simpl; intros Hs Hf.
  - constructor; constructor.
  - apply StronglySorted_inv in Hs as [Hs Hy].
    apply Forall_cons in Hf as [Hyx Hf].
    constructor; [apply IH; assumption|].
    apply Forall_app. split; [exact Hy|]. constructor; [exact Hyx|constructor].
Qed.

Lemma content_ok_mono (lines : list (list ascii)) (b b' : nat) (o o' : SectionObj) :
  b <= b' -> o_content o' = o_content o -> o_line_number o' = o_line_number o ->
  content_ok lines b o -> content_ok lines b' o'.
Proof.
  intros Hb Hc Hl (ixs & Hcont & Hs & Hf). exists ixs.
  rewrite Hc, Hl. split; [exact Hcont|]. split; [exact Hs|].
  eapply Forall_impl; [exact Hf|]. simpl. intros i [[H1 H2] H3].
  repeat split; auto; lia.
Qed.

Lemma turn_content_inv (lines : list (list ascii)) (st st' : PState) :
  order_inv st -> content_inv lines st -> turn lines st st' ->
  content_inv lines st'.
Proof.
  intros Hord Hinv Hturn p o' Ho'.
  pose proof (turn_idx _ _ _ Hturn) as Hidx.
  destruct (turn_objects _ _ _ _ _ Hturn Ho')
    as [(o & Ho & _ & _ & _ & Hln)|(-> & Hln & Hc & _)].
  - destruct (turn_fields _ _ _ _ _ _ Hturn Ho Ho') as (Hcont & _ & _).
    destruct Hcont as [Hc|(line & Hl & Hm & Hf & Ht & Hc & Hi)].
    + apply (content_ok_mono lines (idx st) (idx st') o o');
        [lia | exact Hc | exact Hln | exact (Hinv p o Ho)].
    + destruct (Hinv p o Ho) as (ixs & Hcont & Hs & Hfa).
      exists (ixs ++ [idx st]). rewrite Hc, Hcont, Hln.
      split; [symmetry; apply content_of_snoc, Hl|].
      split.
      * apply sorted_snoc; [exact Hs|].
        eapply Forall_impl; [exact Hfa|]. simpl. intros i [[_ H2] _]. exact H2.
      * apply Forall_app. split.
        -- eapply Forall_impl; [exact Hfa|]. simpl. intros i [[H1 H2] H3].
           repeat split; auto; lia.
        -- constructor; [|constructor]. split.
           ++ pose proof (oi_lines _ Hord p o Ho). lia.
           ++ exists line. auto.
  - exists []. rewrite Hc. split; [reflexivity|]. split; constructor.
Qed.

Lemma parse_loop_content_inv (lines : list (list ascii)) (fuel : nat) :
  content_inv lines (parse_loop fuel lines init_state).
Proof.
  apply (parse_loop_turns lines
           (fun st => order_inv st /\ content_inv lines st)).
  - intros st st' _ [Ho Hc] Hturn.
    split; [eapply turn_order_inv | eapply turn_content_inv]; eauto.
  - apply init_state_wf.
  - split; [apply init_order_inv|]. intros p o H. destruct p; discriminate.
Qed.

Lemma scan_code_block_spec (rest : list (list ascii)) (i : nat)
    (acc code_lines : list (list ascii)) (j : nat) :
  scan_code_block rest i acc = (Some code_lines, j) ->
  i <= j /\ code_lines = acc ++ take (j - i) rest
  /\ (exists l, rest !! (j - i) = Some l /\ strip l = str "```")
  /\ (forall k l, k < j - i -> rest !! k = Some l -> strip l <> str "```").
Proof.
  revert i acc. induction rest as [|l rest IH]; intros i acc;
    cbn [scan_code_block]; [discriminate|].
  destruct (eqb (strip l) (str "```")) eqn:E.
  - intros H. injection H as <- <-. rewrite Nat.sub_diag. simpl.
    rewrite app_nil_r. apply eqb_eq in E.
    split; [lia|]. split; [reflexivity|]. split; [eauto|]. intros; lia.
  - intros H. apply IH in H as (Hle & Hcl & (l' & Hl' & Hs) & Hnone).
    apply eqb_neq in E.
    replace (j - i) with (S (j - S i)) by lia. simpl.
    split; [lia|]. split; [rewrite Hcl, <- app_assoc; reflexivity|].
    split; [eauto|].
    intros [|k] l0 Hk Hl0; simpl in Hl0.
    + injection Hl0 as <-. exact E.
    + apply (Hnone k l0); [lia | exact Hl0].
Qed.

Lemma _parse_code_block_spec (lines : list (list ascii)) (start_line : nat)
    (cb : CodeBlock) (j : nat) :
  _parse_code_block lines start_line = (Some cb, j) ->
  exists first,
    lines !! start_line = Some first /\ is_fence first = true
    /\ language cb = fence_language first
    /\ cb_line_number cb = start_line /\ context_section cb = []
    /\ start_line < j /\ closing_line lines j
    /\ (forall k, start_line < k < j -> ~ closing_line lines k)
    /\ code cb = join [nl] (take (j - S start_line) (drop (S start_line) lines)).
Proof.
  unfold _parse_code_block.
  destruct (lines !! start_line) as [first|] eqn:El; [|discriminate].
  destruct (is_fence first) eqn:Ef; simpl; [|discriminate].
  destruct (scan_code_block _ _ _) as [[cl|] j'] eqn:E; [|discriminate].
  intros H. injection H as <- <-.
  apply scan_code_block_spec in E as (Hle & -> & (l & Hl & Hs) & Hnone).
  rewrite lookup_drop in Hl.
  replace (S start_line + (j' - S start_line)) with j' in Hl by lia.
  exists first. cbn [language cb_line_number context_section code].
  split; [reflexivity|]. split; [exact Ef|]. split; [reflexivity|].
  split; [reflexivity|]. split; [reflexivity|]. split; [lia|].
  split; [exists l; auto|]. split; [|reflexivity].
  intros k [Hk1 Hk2] (l0 & Hl0 & Hs0).
  apply (Hnone (k - S start_line) l0); [lia | | exact Hs0].
  rewrite lookup_drop. replace (S start_line + (k - S start_line)) with k by lia.
  exact Hl0.
Qed.

Lemma block_ok_mono (lines : list (list ascii)) (b b' : nat) (cb : CodeBlock) :
  b <= b' -> block_ok lines b cb -> block_ok lines b' cb.
Proof.
  intros Hb (first & j & H1 & H2 & H3 & H4 & [H5 H6] & H7).
  exists first, j. repeat (split; [first [assumption | lia]|]). exact H7.
Qed.

Lemma turn_blocks_inv (lines : list (list ascii)) (st st' : PState) :
  blocks_inv lines st -> turn lines st st' -> blocks_inv lines st'.
Proof.
  intros [Hok Hsorted] Hturn.
  pose proof (turn_idx _ _ _ Hturn) as Hidx.
  assert (Hold : Forall (block_ok lines (idx st')) (blocks st)).
  { eapply Forall_impl; [exact Hok|]. simpl. intros cb.
    apply block_ok_mono. lia. }
  destruct (turn_blocks _ _ _ Hturn)
    as [E|(cb & j & top & Hcb & Ht & (line & Hl & Hm & Hf) & E & _ & Hi)].
  { constructor; rewrite E; assumption. }
  apply _parse_code_block_spec in Hcb
    as (first & Hfirst & _ & Hlang & Hln & _ & Hj & Hclose & Hnone & Hcode).
  rewrite Hl in Hfirst. injection Hfirst as <-.
  constructor; rewrite E.
  - apply Forall_app. split; [exact Hold|]. constructor; [|constructor].
    exists line, j. simpl. rewrite Hln.
    repeat (split; [first [assumption | lia]|]). exact Hcode.
  - apply sorted_snoc; [exact Hsorted|].
    eapply Forall_impl; [exact Hok|]. simpl.
    intros a (fa & ja & _ & _ & _ & _ & [Ha1 Ha2] & Hca & _).
    exists ja. simpl. rewrite Hln. split; [lia | exact Hca].
Qed.

Lemma turn_persist (lines : list (list ascii)) (st st' : PState) (p : nat)
    (o : SectionObj) :
  turn lines st st' -> heap st !! p = Some o ->
  exists o', heap st' !! p = Some o'.
Proof.
  intros Hturn Ho. pose proof (lookup_lt_Some _ _ _ Ho) as Hlt.
  apply lookup_lt_is_Some_2.
  destruct Hturn; simpl; rewrite ?length_alter, ?length_app; simpl; lia.
Qed.

Lemma turn_roots (lines : list (list ascii)) (st st' : PState) (r : nat) :
  turn lines st st' -> In r (roots st) -> In r (roots st').
Proof.
  intros Hturn Hr. destruct Hturn; simpl; auto. apply in_or_app. auto.
Qed.

Lemma turn_length (lines : list (list ascii)) (st st' : PState) :
  turn lines st st' ->
  length (heap st') = length (heap st)
  \/ length (heap st') = S (length (heap st)).
Proof.
  intros Hturn.
  destruct Hturn; simpl; rewrite ?length_alter, ?length_app; simpl; lia.
Qed.

Lemma stack_top_valid (st : PState) (top : nat) :
  stack_inv st -> last (stack st) = Some top -> length (heap st) = S top.
Proof.
  intros [Htop _] Ht. rewrite Ht in Htop.
  destruct (length (heap st)); [discriminate|]. injection Htop as ->. reflexivity.
Qed.

Lemma turn_owned_inv (lines : list (list ascii)) (st st' : PState) :
  stack_inv st -> order_inv st -> owned_inv st -> turn lines st st' ->
  owned_inv st'.
Proof.
  intros Hstack Hord [Hsec Hglob] Hturn.
  assert (Hgrow : forall cb, In cb (blocks st) -> In cb (blocks st')).
  { intros cb Hcb.
    destruct (turn_blocks _ _ _ Hturn) as [->|(? & ? & ? & _ & _ & _ & -> & _)];
      [exact Hcb | apply in_or_app; auto]. }
  assert (Hlate : forall cb q oq, In cb (blocks st) ->
            heap st' !! q = Some oq -> o_line_number oq < cb_line_number cb ->
            exists oq0, heap st !! q = Some oq0
                        /\ o_line_number oq0 = o_line_number oq).
  { intros cb q oq Hcb Hq Hlt.
    destruct (turn_objects _ _ _ _ _ Hturn Hq)
      as [(oq0 & Hq0 & _ & _ & _ & Hln)|(_ & Hln & _)]; [eauto|].
    pose proof (oi_blocks _ Hord) as Hb. rewrite Forall_forall in Hb.
    apply list_elem_of_In, Hb in Hcb. lia. }
  constructor.
  - intros p o' cb Ho' Hcb.
    destruct (turn_objects _ _ _ _ _ Hturn Ho')
      as [(o & Ho & _ & _ & Hpath & Hln)|(_ & _ & _ & Hnil & _)].
    2: { rewrite Hnil in Hcb. destruct Hcb. }
    destruct (turn_fields _ _ _ _ _ _ Hturn Ho Ho') as (_ & Hcbs & _).
    assert (Hkeep : In cb (o_code_blocks o) ->
              In cb (blocks st') /\ context_section cb = o_path o'
              /\ o_line_number o' < cb_line_number cb
              /\ (forall q oq, heap st' !! q = Some oq ->
                    o_line_number oq < cb_line_number cb -> q <= p)).
    { intros Hin. destruct (Hsec p o cb Ho Hin) as (Hb & Hc & Hl & Hq).
      split; [apply Hgrow, Hb|]. split; [congruence|]. split; [congruence|].
      intros q oq Hoq Hlt.
      destruct (Hlate cb q oq Hb Hoq Hlt) as (oq0 & Hq0 & Hln0).
      apply (Hq q oq0 Hq0). congruence. }
    destruct Hcbs as [E|(cb0 & j & Hcb0 & Ht & E & Eb & Hi)];
      rewrite E in Hcb; [exact (Hkeep Hcb)|].
    apply in_app_or in Hcb as [Hcb|[<-|[]]]; [exact (Hkeep Hcb)|].
    apply _parse_code_block_spec in Hcb0 as (first & _ & _ & _ & Hln0 & _).
    split; [rewrite Eb; apply in_or_app; right; left; reflexivity|].
    split; [simpl; unfold path_of; rewrite Ho; congruence|].
    split; [simpl; rewrite Hln0, Hln; exact (oi_lines _ Hord p o Ho)|].
    intros q oq Hoq _. apply lookup_lt_Some in Hoq.
    pose proof (stack_top_valid st p Hstack Ht) as Hlen.
    destruct (turn_blocks _ _ _ Hturn) as [Eb'|(? & ? & ? & _ & _ & _ & _ & Eh & _)].
    + rewrite Eb' in Eb. apply (f_equal (@length _)) in Eb.
      rewrite length_app in Eb. simpl in Eb. lia.
    + rewrite Eh, length_alter in Hoq. lia.
  - intros cb Hcb.
    destruct (turn_blocks _ _ _ Hturn)
      as [E|(cb0 & j & top & _ & Ht & _ & E & Eh & _)]; rewrite E in Hcb.
    + destruct (Hglob cb Hcb) as (p & o & Ho & Hin).
      destruct (turn_persist _ _ _ _ _ Hturn Ho) as [o' Ho'].
      exists p, o'. split; [exact Ho'|].
      destruct (turn_fields _ _ _ _ _ _ Hturn Ho Ho')
        as (_ & [->|(? & ? & _ & _ & -> & _)] & _);
        [exact Hin | apply in_or_app; auto].
    + apply in_app_or in Hcb as [Hcb|[<-|[]]].
      * destruct (Hglob cb Hcb) as (p & o & Ho & Hin).
        destruct (turn_persist _ _ _ _ _ Hturn Ho) as [o' Ho'].
        exists p, o'. split; [exact Ho'|].
        destruct (turn_fields _ _ _ _ _ _ Hturn Ho Ho')
          as (_ & [->|(? & ? & _ & _ & -> & _)] & _);
          [exact Hin | apply in_or_app; auto].
      * pose proof (stack_top_valid st top Hstack Ht) as Hlen.
        destruct (lookup_lt_is_Some_2 (heap st) top ltac:(lia)) as [o Ho].
        exists top, (append_code_block (owned_block st cb0 top) o).
        split; [rewrite Eh, list_lookup_alter_eq, Ho; reflexivity|].
        simpl. apply in_or_app. right. left. reflexivity.
Qed.

Lemma turn_attached_inv (lines : list (list ascii)) (st st' : PState) :
  wf_state lines st -> attached_inv st -> turn lines st st' -> attached_inv st'.
Proof.
  intros Hwf Hatt Hturn p Hp.
  assert (Hold : p < length (heap st) ->
            In p (roots st')
            \/ exists q o, heap st' !! q = Some o /\ In p (o_subsections o)).
  { intros Hlt. destruct (Hatt p Hlt) as [Hr|(q & o & Ho & Hin)].
    - left. eapply turn_roots; eauto.
    - right. destruct (turn_persist _ _ _ _ _ Hturn Ho) as [o' Ho'].
      exists q, o'. split; [exact Ho'|].
      destruct (turn_fields _ _ _ _ _ _ Hturn Ho Ho') as (_ & _ & [->| ->]);
        [exact Hin | apply in_or_app; auto]. }
  destruct (Nat.lt_ge_cases p (length (heap st))) as [Hlt|Hge]; [exact (Hold Hlt)|].
  destruct Hturn as [line lvl g Hl Hm _ | line lvl g parent Hl Hm Hfp
                    | line cb j top _ _ _ _ _ | line j _ _ _ _ _
                    | line top _ _ _ _ | line _ _ _ _]; simpl in *;
    rewrite ?length_alter, ?length_app in Hp; simpl in Hp; try lia.
  - left. apply in_or_app. right. left. lia.
  - right. apply find_parent_Some in Hfp as [Hin _]. rewrite <- in_rev in Hin.
    pose proof (wf_stack _ _ Hwf) as Hv. rewrite Forall_forall in Hv.
    apply list_elem_of_In, Hv in Hin.
    destruct (lookup_lt_is_Some_2 (heap st) parent Hin) as [o Ho].
    exists parent, (append_subsection (length (heap st)) o).
    split.
    + rewrite list_lookup_alter_eq, lookup_app_l, Ho by exact Hin. reflexivity.
    + simpl. apply in_or_app. right. left. lia.
Qed.

(** All the invariants of the loop together. *)
Lemma parse_loop_invariants (lines : list (list ascii)) (fuel : nat) :
  let st := parse_loop fuel lines init_state in
  wf_state lines st /\ stack_inv st /\ order_inv st /\ content_inv lines st
  /\ blocks_inv lines st /\ owned_inv st /\ attached_inv st.
Proof.
  simpl. split; [apply parse_loop_wf, init_state_wf|].
  apply (parse_loop_turns lines
           (fun st => stack_inv st /\ order_inv st
                      /\ content_inv lines st /\ blocks_inv lines st
                      /\ owned_inv st /\ attached_inv st)).
  - intros st st' Hwf (Hs & Ho & Hc & Hb & Hw & Ha) Hturn.
    split; [eapply turn_stack_inv; eauto|].
    split; [eapply turn_order_inv; eauto|].
    split; [eapply turn_content_inv; eauto|].
    split; [eapply turn_blocks_inv; eauto|].
    split; [eapply turn_owned_inv; eauto | eapply turn_attached_inv; eauto].
  - apply init_state_wf.
  - split; [apply init_stack_inv|].
    split; [apply init_order_inv|].
    split; [intros p o H; destruct p; discriminate|].
    split; [constructor; simpl; constructor|].
    split; [constructor; simpl; [intros p o cb H; destruct p; discriminate
                                | intros cb []]|].
    intros p Hp. simpl in Hp. lia.
Qed.

Lemma parse_state_invariants (text : list ascii) :
  let st := parse_state text in
  wf_state (split_lines text) st /\ stack_inv st /\ order_inv st
  /\ content_inv (split_lines text) st /\ blocks_inv (split_lines text) st
  /\ owned_inv st /\ attached_inv st.
Proof. apply parse_loop_invariants. Qed.

Lemma _flatten_section_closed (root s c : Section) :
  In s (_flatten_section root) -> In c (subsections s) ->
  In c (_flatten_section root).
Proof.
  revert s c. induction root as [root IH] using Section_nested_ind.
  intros s c Hs Hc.
  destruct root as [t l cn pth n cbs subs]. simpl in Hs.
  destruct Hs as [<-|Hs].
  - eapply _flatten_section_sub; [exact Hc | apply _flatten_section_self].
  - apply in_concat in Hs as (fl & Hfl & Hs).
    apply in_map_iff in Hfl as (x & <- & Hx).
    simpl in IH. rewrite Forall_forall in IH.
    eapply _flatten_section_sub; [exact Hx|].
    eapply (IH x); [apply list_elem_of_In, Hx | exact Hs | exact Hc].
Qed.

Lemma _flatten_sections_closed (ss : list Section) (s c : Section) :
  In s (_flatten_sections ss) -> In c (subsections s) ->
  In c (_flatten_sections ss).
Proof.
  unfold _flatten_sections. intros Hs Hc.
  apply in_concat in Hs as (fl & Hfl & Hs).
  apply in_map_iff in Hfl as (root & <- & Hroot).
  apply in_concat. exists (_flatten_section root).
  split; [apply in_map, Hroot | eapply _flatten_section_closed; eauto].
Qed.

Lemma _flatten_sections_root (ss : list Section) (s : Section) :
  In s ss -> In s (_flatten_sections ss).
Proof.
  intros Hs. unfold _flatten_sections. apply in_concat.
  exists (_flatten_section s). split; [apply in_map, Hs | apply _flatten_section_self].
Qed.

(** Distinct objects have distinct header lines. *)
Lemma same_line_same_ref (st : PState) (p q : nat) (op oq : SectionObj) :
  order_inv st -> heap st !! p = Some op -> heap st !! q = Some oq ->
  o_line_number op = o_line_number oq -> p = q.
Proof.
  intros Hord Hp Hq Heq.
  destruct (Nat.lt_trichotomy p q) as [Hlt|[Heq'|Hgt]]; [|exact Heq'|].
  - pose proof (oi_order _ Hord p q op oq Hp Hq Hlt). lia.
  - pose proof (oi_order _ Hord q p oq op Hq Hp Hgt). lia.
Qed.

(** A section of the parsed forest shows exactly one object. *)
Lemma parsed_section_object (text : list ascii) (s : Section) (p : nat)
    (o : SectionObj) :
  In s (_flatten_sections (sections (parse_document text))) ->
  heap (parse_state text) !! p = Some o ->
  line_number s = o_line_number o ->
  shows o s
  /\ Forall2 (fun c sc => exists oc, heap (parse_state text) !! c = Some oc
                                     /\ shows oc sc)
             (o_subsections o) (subsections s).
Proof.
  intros Hs Ho Hln.
  destruct (parse_document_flatten text s Hs) as (p' & o' & Ho' & Hsh & _ & Hsubs).
  destruct (parse_state_invariants text) as (_ & _ & Hord & _).
  assert (p' = p).
  { eapply same_line_same_ref; eauto.
    destruct Hsh as (_ & _ & _ & _ & Hl & _). congruence. }
  subst p'. rewrite Ho in Ho'. injection Ho' as <-. auto.
Qed.

(** No object is lost: every object of the final store is shown by a
    section of the parsed forest. *)
Lemma all_objects_in_forest (text : list ascii) (p : nat) (o : SectionObj) :
  heap (parse_state text) !! p = Some o ->
  exists s, In s (_flatten_sections (sections (parse_document text)))
            /\ shows o s.
Proof.
  revert o. induction p as [p IH] using lt_wf_ind. intros o Ho.
  destruct (parse_state_invariants text) as (Hwf & _ & Hord & _ & _ & _ & Hatt).
  destruct (Hatt p (lookup_lt_Some _ _ _ Ho)) as [Hr|(q & oq & Hq & Hin)].
  - apply list_elem_of_In, list_elem_of_lookup in Hr as [i Hi].
    pose proof (parse_document_sections text) as Hfr.
    unfold freeze_roots in Hfr. apply mapM_Some_1 in Hfr.
    destruct (Forall2_lookup_l _ _ _ _ _ Hfr Hi) as (s & Hs & Hf).
    apply freeze_shows in Hf as (o' & Ho' & Hsh & _).
    rewrite Ho in Ho'. injection Ho' as <-.
    exists s. split; [|exact Hsh].
    apply _flatten_sections_root, list_elem_of_In, list_elem_of_lookup. eauto.
  - assert (Hqp : q < p).
    { destruct (wf_heap _ _ Hwf q oq Hq) as [Hs _ _].
      rewrite Forall_forall in Hs. apply list_elem_of_In, Hs in Hin. lia. }
    destruct (IH q Hqp oq Hq) as (sq & Hsq & Hshq).
    assert (Hlq : line_number sq = o_line_number oq)
      by (destruct Hshq as (_ & _ & _ & _ & Hl & _); exact Hl).
    destruct (parsed_section_object text sq q oq Hsq Hq Hlq) as (_ & Hsubs).
    apply list_elem_of_In, list_elem_of_lookup in Hin as [i Hi].
    destruct (Forall2_lookup_l _ _ _ _ _ Hsubs Hi) as (sc & Hsc & oc & Hoc & Hshc).
    rewrite Ho in Hoc. injection Hoc as <-.
    exists sc. split; [|exact Hshc].
    eapply _flatten_sections_closed; [exact Hsq|].
    apply list_elem_of_In, list_elem_of_lookup. eauto.
Qed.

Lemma header_match_markers (line : list ascii) (l : SectionLevel) (g : list ascii) :
  header_match line = Some (l, g) -> match_markers l line = Some (l, g).
Proof.
  unfold header_match.
  destruct (match_markers DETAIL line) as [[l3 g3]|] eqn:E3.
  { intros H. injection H as <- <-.
    destruct (match_markers_Some _ _ _ _ E3) as (-> & _). exact E3. }
  destruct (match_markers SUB line) as [[l2 g2]|] eqn:E2.
  { intros H. injection H as <- <-.
    destruct (match_markers_Some _ _ _ _ E2) as (-> & _). exact E2. }
  intros E1. destruct (match_markers_Some _ _ _ _ E1) as (-> & _). exact E1.
Qed.

Lemma dropwhile_drop {A} (p : A -> bool) (l : list A) (j : nat) :
  j <= length (takewhile p l) -> dropwhile p (drop j l) = dropwhile p l.
Proof.
  revert j. induction l as [|x l IH]; intros j Hj; simpl in *.
  - destruct j; reflexivity.
  - destruct j as [|j]; [reflexivity|]. simpl.
    destruct (p x); simpl in Hj; [apply IH; lia | lia].
Qed.

Lemma match_title_Some (rest g : list ascii) :
  match_title rest = Some g ->
  (exists c rest', rest = c :: rest' /\ is_space c = true)
  /\ strip g = strip rest.
Proof.
  unfold match_title.
  destruct (Nat.leb_spec 1 (Nat.min (length (takewhile is_space rest))
                                    (length rest - 1))) as [Hj|Hj]; [|discriminate].
  intros H. injection H as <-. split.
  - destruct rest as [|c rest']; simpl in Hj; [lia|].
    destruct (is_space c) eqn:Ec; simpl in Hj; [eauto | lia].
  - unfold strip, lstrip. f_equal. apply dropwhile_drop. lia.
Qed.

(** X4: every section of a parsed document comes from the line at its
    [line_number]: that line starts with as many ['#'] as the level of the
    section, a white-space character follows them, and the title is the
    rest of the line, stripped. *)
Theorem X4_section_from_header_line (text : list ascii) (s : Section) :
  In s (_flatten_sections (sections (parse_document text))) ->
  exists line,
    split_lines text !! line_number s = Some line
    /\ take (level_value (level s)) line = repeat "#"%char (level_value (level s))
    /\ (exists c, line !! level_value (level s) = Some c /\ is_space c = true)
    /\ title s = strip (drop (level_value (level s)) line).
Proof.
  intros Hs.
  destruct (parse_document_flatten text s Hs) as (p & o & Ho & Hsh & Hok & _).
  destruct Hok as [_ _ (line & g & Hl & Hm & Ht)].
  destruct Hsh as (Htitle & Hlevel & _ & _ & Hln & _).
  rewrite Htitle, Hlevel, Hln.
  apply header_match_markers, match_markers_Some in Hm as (_ & Htake & Hmt).
  apply match_title_Some in Hmt as ((c & rest' & Hrest & Hc) & Hstrip).
  exists line. split; [exact Hl|]. split; [exact Htake|]. split.
  - exists c. split; [|exact Hc].
    replace (level_value (o_level o)) with (level_value (o_level o) + 0) by lia.
    rewrite <- lookup_drop, Hrest. reflexivity.
  - rewrite Ht. exact Hstrip.
Qed.

Lemma X4_section_from_header_line_witness :
  In nested_B (_flatten_sections (sections (parse_document nested_text)))
  /\ exists line,
       split_lines nested_text !! line_number nested_B = Some line
       /\ take (level_value (level nested_B)) line
          = repeat "#"%char (level_value (level nested_B))
       /\ (exists c, line !! level_value (level nested_B) = Some c
                     /\ is_space c = true)
       /\ title nested_B = strip (drop (level_value (level nested_B)) line).
Proof.
  assert (H : In nested_B (_flatten_sections (sections (parse_document nested_text))))
    by (vm_compute; right; left; reflexivity).
  split; [exact H|].
  exact (X4_section_from_header_line nested_text nested_B H).
Defined.

(** X5: the content of every section of a parsed document is made of lines
    of the text that lie below the header of the section and are neither
    headers nor fences, each followed by a line feed, in the order of the
    text. *)
Theorem X5_content_is_plain_lines (text : list ascii) (s : Section) :
  In s (_flatten_sections (sections (parse_document text))) ->
  exists ixs,
    content s = content_of (split_lines text) ixs
    /\ StronglySorted lt ixs
    /\ Forall (fun i => line_number s < i
                        /\ exists l, split_lines text !! i = Some l
                                     /\ header_match l = None
                                     /\ is_fence l = false) ixs.
Proof.
  intros Hs.
  destruct (parse_document_flatten text s Hs) as (p & o & Ho & Hsh & _ & _).
  destruct (parse_state_invariants text) as (_ & _ & _ & Hc & _).
  destruct (Hc p o Ho) as (ixs & Hcont & Hsorted & Hf).
  destruct Hsh as (_ & _ & Hcs & _ & Hln & _).
  exists ixs. rewrite Hcs, Hln. split; [exact Hcont|]. split; [exact Hsorted|].
  eapply Forall_impl; [exact Hf|]. simpl. intros i [[H1 _] H2]. split; assumption.
Qed.

Lemma X5_content_is_plain_lines_witness :
  In (hd nested_A (sections (parse_document deep_text)))
     (_flatten_sections (sections (parse_document deep_text)))
  /\ exists ixs,
       content (hd nested_A (sections (parse_document deep_text)))
         = content_of (split_lines deep_text) ixs
       /\ StronglySorted lt ixs
       /\ Forall (fun i =>
                    line_number (hd nested_A (sections (parse_document deep_text))) < i
                    /\ exists l, split_lines deep_text !! i = Some l
                                 /\ header_match l = None
                                 /\ is_fence l = false) ixs.
Proof.
  assert (H : In (hd nested_A (sections (parse_document deep_text)))
                 (_flatten_sections (sections (parse_document deep_text))))
    by (vm_compute; left; reflexivity).
  split; [exact H|].
  exact (X5_content_is_plain_lines deep_text _ H).
Defined.

Lemma fence_language_nonempty (first : list ascii) : fence_language first <> [].
Proof.
  unfold fence_language.
  destruct (strip (drop 3 (strip first))); [vm_compute|]; discriminate.
Qed.

(** X6: a code block of the document-wide list was opened by a fence line
    that is not a header; its language is the stripped text after the
    three backquotes of that line, or ["plaintext"], and never empty; its
    body is the lines between the opening line and the first line below it
    that is a closing fence, joined with line feeds. *)
Theorem X6_code_block_extraction (text : list ascii) (cb : CodeBlock) :
  In cb (all_code_blocks (parse_document text)) ->
  exists first j,
    split_lines text !! cb_line_number cb = Some first
    /\ header_match first = None /\ is_fence first = true
    /\ language cb = fence_language first /\ language cb <> []
    /\ cb_line_number cb < j
    /\ closing_line (split_lines text) j
    /\ (forall k, cb_line_number cb < k < j -> ~ closing_line (split_lines text) k)
    /\ code cb = join [nl] (take (j - S (cb_line_number cb))
                                 (drop (S (cb_line_number cb)) (split_lines text))).
Proof.
  intros Hcb.
  destruct (parse_state_invariants text) as (_ & _ & _ & _ & [Hok _] & _).
  rewrite Forall_forall in Hok.
  destruct (Hok cb (proj2 (list_elem_of_In _ _) Hcb))
    as (first & j & H1 & H2 & H3 & H4 & [H5 _] & H6 & H7 & H8).
  exists first, j. repeat (split; [assumption|]).
  split; [rewrite H4; apply fence_language_nonempty|].
  repeat (split; [assumption|]). exact H8.
Qed.

Lemma X6_code_block_extraction_witness :
  In (mkCodeBlock (str "python") (str "x = 1") (str "A") 1)
     (all_code_blocks (parse_document open_fence_text))
  /\ exists first j,
       split_lines open_fence_text !! 1 = Some first
       /\ header_match first = None /\ is_fence first = true
       /\ str "python" = fence_language first /\ str "python" <> []
       /\ 1 < j
       /\ closing_line (split_lines open_fence_text) j
       /\ (forall k, 1 < k < j -> ~ closing_line (split_lines open_fence_text) k)
       /\ str "x = 1" = join [nl] (take (j - 2) (drop 2 (split_lines open_fence_text))).
Proof.
  assert (H : In (mkCodeBlock (str "python") (str "x = 1") (str "A") 1)
                 (all_code_blocks (parse_document open_fence_text)))
    by (vm_compute; left; reflexivity).
  split; [exact H|].
  exact (X6_code_block_extraction open_fence_text _ H).
Defined.

(** X7: the code blocks of the document-wide list are in the order of the
    text and do not overlap: each is closed by a fence that lies above the
    line that opens any later one. *)
Theorem X7_code_blocks_in_order (text : list ascii) :
  StronglySorted
    (fun a b => exists j, cb_line_number a < j < cb_line_number b
                          /\ closing_line (split_lines text) j)
    (all_code_blocks (parse_document text)).
Proof.
  destruct (parse_state_invariants text) as (_ & _ & _ & _ & [_ Hs] & _).
  exact Hs.
Qed.

(** X8: every code block of the document-wide list is in the list of a
    section of the forest; its [context_section] is the path of that
    section, and that section is the one whose header is the nearest above
    the opening fence. *)
Theorem X8_code_block_owner (text : list ascii) (cb : CodeBlock) :
  In cb (all_code_blocks (parse_document text)) ->
  exists s,
    In s (_flatten_sections (sections (parse_document text)))
    /\ In cb (code_blocks s)
    /\ context_section cb = path s
    /\ line_number s < cb_line_number cb
    /\ (forall s', In s' (_flatten_sections (sections (parse_document text))) ->
          line_number s' < cb_line_number cb -> line_number s' <= line_number s).
Proof.
  intros Hcb.
  destruct (parse_state_invariants text) as (_ & _ & Hord & _ & _ & [Hsec Hglob] & _).
  destruct (Hglob cb Hcb) as (p & o & Ho & Hin).
  destruct (Hsec p o cb Ho Hin) as (_ & Hctx & Hln & Hnear).
  destruct (all_objects_in_forest text p o Ho) as (s & Hs & Hsh).
  destruct Hsh as (_ & _ & _ & Hpath & Hline & Hcbs).
  exists s. split; [exact Hs|]. split; [rewrite Hcbs; exact Hin|].
  split; [congruence|]. split; [lia|].
  intros s' Hs' Hlt.
  destruct (parse_document_flatten text s' Hs') as (q & oq & Hq & Hshq & _).
  destruct Hshq as (_ & _ & _ & _ & Hlq & _).
  assert (Hqp : q <= p) by (apply (Hnear q oq Hq); lia).
  destruct (Nat.eq_dec q p) as [->|Hne].
  - rewrite Ho in Hq. injection Hq as <-. lia.
  - pose proof (oi_order _ Hord q p oq o Hq Ho ltac:(lia)). lia.
Qed.

Lemma X8_code_block_owner_witness :
  In (mkCodeBlock (str "python") (str "x = 1") (str "A") 1)
     (all_code_blocks (parse_document open_fence_text))
  /\ exists s,
       In s (_flatten_sections (sections (parse_document open_fence_text)))
       /\ In (mkCodeBlock (str "python") (str "x = 1") (str "A") 1) (code_blocks s)
       /\ str "A" = path s
       /\ line_number s < 1
       /\ (forall s',
             In s' (_flatten_sections (sections (parse_document open_fence_text))) ->
             line_number s' < 1 -> line_number s' <= line_number s).
Proof.
  assert (H : In (mkCodeBlock (str "python") (str "x = 1") (str "A") 1)
                 (all_code_blocks (parse_document open_fence_text)))
    by (vm_compute; left; reflexivity).
  split; [exact H|].
  exact (X8_code_block_owner open_fence_text _ H).
Defined.

(** X9: a code block in the list of a section of the forest is also in the
    document-wide list, carries the path of that section as its
    [context_section], and was opened below the header of the section. *)
Theorem X9_section_block_is_global (text : list ascii) (s : Section) (cb : CodeBlock) :
  In s (_flatten_sections (sections (parse_document text))) ->
  In cb (code_blocks s) ->
  In cb (all_code_blocks (parse_document text))
  /\ context_section cb = path s
  /\ line_number s < cb_line_number cb.
Proof.
  intros Hs Hcb.
  destruct (parse_document_flatten text s Hs) as (p & o & Ho & Hsh & _ & _).
  destruct (parse_state_invariants text) as (_ & _ & _ & _ & _ & [Hsec _] & _).
  destruct Hsh as (_ & _ & _ & Hpath & Hline & Hcbs).
  rewrite Hcbs in Hcb.
  destruct (Hsec p o cb Ho Hcb) as (Hb & Hctx & Hln & _).
  split; [exact Hb|]. split; [congruence | lia].
Qed.

Lemma X9_section_block_is_global_witness :
  In (hd nested_A (sections (parse_document open_fence_text)))
     (_flatten_sections (sections (parse_document open_fence_text)))
  /\ In (mkCodeBlock (str "python") (str "x = 1") (str "A") 1)
        (code_blocks (hd nested_A (sections (parse_document open_fence_text))))
  /\ In (mkCodeBlock (str "python") (str "x = 1") (str "A") 1)
        (all_code_blocks (parse_document open_fence_text)).
Proof.
  assert (H1 : In (hd nested_A (sections (parse_document open_fence_text)))
                  (_flatten_sections (sections (parse_document open_fence_text))))
    by (vm_compute; left; reflexivity).
  assert (H2 : In (mkCodeBlock (str "python") (str "x = 1") (str "A") 1)
                  (code_blocks (hd nested_A (sections (parse_document open_fence_text)))))
    by (vm_compute; left; reflexivity).
  split; [exact H1|]. split; [exact H2|].
  exact (proj1 (X9_section_block_is_global open_fence_text _ _ H1 H2)).
Defined.

Lemma parse_loop_add (lines : list (list ascii)) (a b : nat) (st : PState) :
  parse_loop (a + b) lines st = parse_loop b lines (parse_loop a lines st).
Proof.
  revert st. induction a as [|a IH]; intros st; simpl; [reflexivity|].
  destruct (Nat.ltb_spec (idx st) (length lines)) as [Hlt|Hge]; [apply IH|].
  symmetry. apply parse_loop_done. exact Hge.
Qed.

Lemma turn_plain_idx (lines : list (list ascii)) (st st' : PState) :
  turn lines st st' ->
  (forall l, lines !! idx st = Some l -> is_fence l = false) ->
  idx st' = S (idx st).
Proof.
  intros Hturn Hplain.
  destruct Hturn as [| | line cb j top Hl _ Hf _ _ | line j Hl _ Hf _ _ | |];
    simpl; try reflexivity; rewrite (Hplain line Hl) in Hf; discriminate.
Qed.

(** Above the first fence the loop reads the lines one by one. *)
Lemma parse_loop_reads_each_line (lines : list (list ascii)) (n : nat) (st : PState) :
  (forall j l, idx st <= j -> j < idx st + n -> lines !! j = Some l ->
               is_fence l = false) ->
  idx st + n <= length lines ->
  idx (parse_loop n lines st) = idx st + n.
Proof.
  revert st. induction n as [|n IH]; intros st Hplain Hlen; simpl; [lia|].
  destruct (Nat.ltb_spec (idx st) (length lines)) as [Hlt|Hge]; [|lia].
  assert (Hi : idx (step lines st) = S (idx st)).
  { apply (turn_plain_idx lines st); [apply step_turn, Hlt|].
    intros l Hl. apply (Hplain (idx st) l); [lia | lia | exact Hl]. }
  rewrite IH; rewrite Hi; [lia | | lia].
  intros j l Hj1 Hj2. apply Hplain; lia.
Qed.

(** An object stays in the store, with the fields set at its creation. *)
Lemma parse_loop_persist (lines : list (list ascii)) (fuel : nat) (st : PState)
    (p : nat) (o : SectionObj) :
  heap st !! p = Some o ->
  exists o', heap (parse_loop fuel lines st) !! p = Some o'
             /\ o_title o' = o_title o /\ o_level o' = o_level o
             /\ o_path o' = o_path o /\ o_line_number o' = o_line_number o.
Proof.
  revert st o. induction fuel as [|fuel IH]; intros st o Ho; simpl; [eauto 10|].
  destruct (Nat.ltb_spec (idx st) (length lines)) as [Hlt|Hge]; [|eauto 10].
  pose proof (step_turn lines st Hlt) as Hturn.
  destruct (turn_persist _ _ _ _ _ Hturn Ho) as [o1 Ho1].
  destruct (turn_objects _ _ _ _ _ Hturn Ho1)
    as [(o0 & Ho0 & Ht & Hl & Hp & Hn)|(-> & _)].
  - rewrite Ho in Ho0. injection Ho0 as <-.
    destruct (IH _ o1 Ho1) as (o' & Ho' & Ht' & Hl' & Hp' & Hn').
    exists o'. repeat split; congruence.
  - apply lookup_lt_Some in Ho. lia.
Qed.

(** The turn of a header line puts the new object at the next reference. *)
Lemma step_header_object (lines : list (list ascii)) (st : PState)
    (line : list ascii) (lvl : SectionLevel) (g : list ascii) :
  lines !! idx st = Some line -> header_match line = Some (lvl, g) ->
  exists o, heap (step lines st) !! length (heap st) = Some o
            /\ o_title o = strip g /\ o_level o = lvl
            /\ o_line_number o = idx st
            /\ o_path o = _build_path (heap st) (stack st) (strip g).
Proof.
  intros Hl Hm.
  assert (Hi : idx st < length lines) by (eapply lookup_lt_Some; eauto).
  pose proof (step_turn lines st Hi) as Hturn.
  assert (Hnew : (heap st ++ [new_section st lvl g]) !! length (heap st)
                 = Some (new_section st lvl g)).
  { rewrite lookup_app_r by lia. rewrite Nat.sub_diag. reflexivity. }
  destruct Hturn as [line' lvl' g' Hl' Hm' _ | line' lvl' g' parent Hl' Hm' _
                    | line' cb j top Hl' Hm' | line' j Hl' Hm'
                    | line' top Hl' Hm' | line' Hl' Hm'];
    rewrite Hl in Hl'; injection Hl' as <-; rewrite Hm in Hm';
    try discriminate; injection Hm' as <- <-; cbn [heap].
  - exists (new_section st lvl g). split; [exact Hnew|]. simpl. auto.
  - destruct (decide (parent = length (heap st))) as [E|Hne].
    + rewrite E, list_lookup_alter_eq, Hnew. simpl.
      eexists; (split; [reflexivity|]); simpl; auto.
    + rewrite list_lookup_alter_ne, Hnew by exact Hne.
      eexists; (split; [reflexivity|]); simpl; auto.
Qed.

(** X10: a header line with no fence line above it always yields a section:
    the forest of the parsed document holds a section with that line
    number, the level of its markers and its stripped title. *)
Theorem X10_header_above_fences_kept (text : list ascii) (i : nat)
    (line : list ascii) (lvl : SectionLevel) (g : list ascii) :
  (forall j l, j < i -> split_lines text !! j = Some l -> is_fence l = false) ->
  split_lines text !! i = Some line ->
  header_match line = Some (lvl, g) ->
  exists s,
    In s (_flatten_sections (sections (parse_document text)))
    /\ line_number s = i /\ level s = lvl /\ title s = strip g.
Proof.
  intros Hplain Hl Hm.
  set (lines := split_lines text) in *.
  assert (Hi : i < length lines) by (eapply lookup_lt_Some; eauto).
  set (st := parse_loop i lines init_state).
  assert (Hidx : idx st = i).
  { unfold st. rewrite parse_loop_reads_each_line; simpl; [lia | | lia].
    intros j l _ Hj. apply Hplain. exact Hj. }
  assert (Hfinal : parse_state text
                   = parse_loop (length lines - S i) lines (step lines st)).
  { unfold parse_state. fold lines.
    replace (length lines) with (i + S (length lines - S i)) at 1 by lia.
    rewrite parse_loop_add. fold st. simpl.
    destruct (Nat.ltb_spec (idx st) (length lines)); [reflexivity | lia]. }
  rewrite <- Hidx in Hl.
  destruct (step_header_object lines st line lvl g Hl Hm)
    as (o & Ho & Ht & Hlv & Hln & _).
  destruct (parse_loop_persist lines (length lines - S i) _ _ _ Ho)
    as (o' & Ho' & Ht' & Hlv' & _ & Hln').
  rewrite <- Hfinal in Ho'.
  destruct (all_objects_in_forest text _ o' Ho') as (s & Hs & Hsh).
  destruct Hsh as (Hst & Hsl & _ & _ & Hsn & _).
  exists s. split; [exact Hs|]. repeat split; congruence.
Qed.

Lemma X10_header_above_fences_kept_witness :
  (forall j l, j < 1 -> split_lines nested_text !! j = Some l -> is_fence l = false)
  /\ split_lines nested_text !! 1 = Some (str "## B")
  /\ header_match (str "## B") = Some (SUB, str "B")
  /\ exists s,
       In s (_flatten_sections (sections (parse_document nested_text)))
       /\ line_number s = 1 /\ level s = SUB /\ title s = strip (str "B").
Proof.
  assert (H1 : forall j l, j < 1 -> split_lines nested_text !! j = Some l ->
                           is_fence l = false).
  { intros j l Hj Hl. destruct j as [|j]; [|lia].
    vm_compute in Hl. injection Hl as <-. vm_compute. reflexivity. }
  assert (H2 : split_lines nested_text !! 1 = Some (str "## B")) by reflexivity.
  assert (H3 : header_match (str "## B") = Some (SUB, str "B"))
    by (vm_compute; reflexivity).
  split; [exact H1|]. split; [exact H2|]. split; [exact H3|].
  exact (X10_header_above_fences_kept nested_text 1 (str "## B") SUB (str "B")
           H1 H2 H3).
Defined.

(* ===================================================================== *)
(** * The path map                                                       *)
(* ===================================================================== *)

Lemma dict_get_set {V} (d : list (list ascii * V)) (k : list ascii) (v : V)
    (k' : list ascii) :
  dict_get (dict_set d k v) k' = if eqb k k' then Some v else dict_get d k'.
Proof.
  induction d as [|[k0 v0] d IH]; simpl; [reflexivity|].
  destruct (eqb k0 k) eqn:E1; simpl.
  - apply eqb_eq in E1. subst k0. destruct (eqb k k'); reflexivity.
  - rewrite IH. destruct (eqb k0 k') eqn:E2; [|reflexivity].
    apply eqb_eq in E2. subst k'.
    destruct (eqb k k0) eqn:E3; [|reflexivity].
    apply eqb_eq in E3. apply eqb_neq in E1. congruence.
Qed.

Lemma dict_keys_set {V} (d : list (list ascii * V)) (k : list ascii) (v : V) :
  (In k (dict_keys d) -> dict_keys (dict_set d k v) = dict_keys d)
  /\ (~ In k (dict_keys d) -> dict_keys (dict_set d k v) = dict_keys d ++ [k]).
Proof.
  induction d as [|[k0 v0] d [IH1 IH2]]; simpl.
  - split; [tauto | reflexivity].
  - destruct (eqb k0 k) eqn:E; simpl.
    + apply eqb_eq in E. split; [reflexivity | intros H; exfalso; auto].
    + apply eqb_neq in E. split.
      * intros [H|H]; [congruence|]. rewrite (IH1 H). reflexivity.
      * intros H. rewrite IH2 by tauto. reflexivity.
Qed.

Lemma dict_set_NoDup {V} (d : list (list ascii * V)) (k : list ascii) (v : V) :
  NoDup (dict_keys d) -> NoDup (dict_keys (dict_set d k v)).
Proof.
  intros Hnd.
  destruct (decide (k ∈ dict_keys d)) as [Hin|Hout];
    rewrite list_elem_of_In in *.
  - rewrite (proj1 (dict_keys_set d k v) Hin). exact Hnd.
  - rewrite (proj2 (dict_keys_set d k v) Hout).
    apply NoDup_app. split; [exact Hnd|]. split.
    + intros x Hx Hx'. apply list_elem_of_In in Hx, Hx'.
      destruct Hx' as [<-|[]]. exact (Hout Hx).
    + apply NoDup_singleton.
Qed.

Lemma dict_set_In_key {V} (d : list (list ascii * V)) (k : list ascii) (v : V)
    (k' : list ascii) :
  In k' (dict_keys (dict_set d k v)) <-> In k' (dict_keys d) \/ k' = k.
Proof.
  destruct (decide (k ∈ dict_keys d)) as [Hin|Hout];
    rewrite list_elem_of_In in *.
  - rewrite (proj1 (dict_keys_set d k v) Hin). split; [tauto|].
    intros [H| ->]; assumption.
  - rewrite (proj2 (dict_keys_set d k v) Hout), in_app_iff. simpl.
    split; intros [H|H]; auto; destruct H as [H|[]]; auto.
Qed.

(** A dict filled by assignments in the order of a list: the value at a key
    is the last element of the list with that key; the keys are those of
    the list, each once. *)
Lemma dict_fill_get {V} (key : V -> list ascii) (l : list V)
    (d : list (list ascii * V)) (k : list ascii) :
  dict_get (fold_left (fun d x => dict_set d (key x) x) l d) k =
  match last (List.filter (fun x => eqb (key x) k) l) with
  | Some x => Some x
  | None => dict_get d k
  end.
Proof.
  revert d. induction l as [|x l IH]; intros d; simpl; [reflexivity|].
  rewrite IH, dict_get_set.
  destruct (eqb (key x) k); [|reflexivity].
  rewrite last_cons. destruct (last _); reflexivity.
Qed.

Lemma dict_fill_keys {V} (key : V -> list ascii) (l : list V)
    (d : list (list ascii * V)) (k : list ascii) :
  In k (dict_keys (fold_left (fun d x => dict_set d (key x) x) l d))
  <-> In k (dict_keys d) \/ In k (map key l).
Proof.
  revert d. induction l as [|x l IH]; intros d; simpl; [tauto|].
  rewrite IH, dict_set_In_key. split; intros H; intuition auto.
Qed.

Lemma dict_fill_NoDup {V} (key : V -> list ascii) (l : list V)
    (d : list (list ascii * V)) :
  NoDup (dict_keys d) ->
  NoDup (dict_keys (fold_left (fun d x => dict_set d (key x) x) l d)).
Proof.
  revert d. induction l as [|x l IH]; intros d Hd; simpl; [exact Hd|].
  apply IH, dict_set_NoDup, Hd.
Qed.

Lemma last_filter_In {A} (p : A -> bool) (l : list A) (x : A) :
  last (List.filter p l) = Some x -> In x l /\ p x = true.
Proof.
  intros H. apply filter_In. apply last_Some in H as [l' H].
  rewrite H. apply in_or_app. right. left. reflexivity.
Qed.

Lemma parse_document_path_map (text : list ascii) :
  sections_by_path (parse_document text)
  = fold_left (fun d s => dict_set d (path s) s)
              (_flatten_sections (sections (parse_document text))) [].
Proof. reflexivity. Qed.

(** X11: in the path map of a parsed document every key stands once; the
    keys are the paths of the sections of the forest; and the section
    found at a path is the last section, in the order of the flattened
    forest, that has this path. *)
Theorem X11_path_map_last_wins (text : list ascii) :
  let doc := parse_document text in
  let flat := _flatten_sections (sections doc) in
  NoDup (dict_keys (sections_by_path doc))
  /\ (forall p, In p (dict_keys (sections_by_path doc))
                <-> exists s, In s flat /\ path s = p)
  /\ (forall p, dict_get (sections_by_path doc) p
                = last (List.filter (fun s => eqb (path s) p) flat)).
Proof.
  intros doc flat. subst doc flat. rewrite parse_document_path_map.
  split; [apply dict_fill_NoDup; constructor|]. split.
  - intros p. rewrite dict_fill_keys, in_map_iff. simpl.
    split; [intros [[]|(s & <- & Hs)]; eauto | intros (s & Hs & <-); eauto].
  - intros p. rewrite dict_fill_get. simpl. destruct (last _); reflexivity.
Qed.

(** The second [B] gets the path of the first, and replaces it in the map
    where the first stands. *)
Example path_map_last_wins_sample :
  let doc := parse_document (unlines ["# A"; "## B"; "one"; "# A"; "## B"; "two"]) in
  dict_keys (sections_by_path doc) = [str "A"; str "A/B"; str "A/B/A"]
  /\ option_map content (dict_get (sections_by_path doc) (str "A/B"))
     = Some (str "two" ++ [nl]).
Proof. split; vm_compute; reflexivity. Qed.

(** X12: [get_section] on the path of any section of a parsed document is
    a hit: the answer is the full rendering of a section of the forest with
    that path (the last one, when several share it), never a suggestion or
    a not-found text. *)
Theorem X12_get_section_finds_parsed_paths (text : list ascii) (s : Section) :
  In s (_flatten_sections (sections (parse_document text))) ->
  exists s',
    In s' (_flatten_sections (sections (parse_document text)))
    /\ path s' = path s
    /\ dict_get (sections_by_path (parse_document text)) (path s) = Some s'
    /\ get_section (Some (parse_document text)) (path s) = get_full_content true s'.
Proof.
  intros Hs. unfold get_section.
  rewrite parse_document_path_map, dict_fill_get. simpl dict_get.
  destruct (last (List.filter (fun x => eqb (path x) (path s))
                              (_flatten_sections (sections (parse_document text)))))
    as [s'|] eqn:E.
  - apply last_filter_In in E as [Hin Heq]. apply eqb_eq in Heq.
    exists s'. auto.
  - apply last_None in E.
    assert (Hin : In s (List.filter (fun x => eqb (path x) (path s))
                          (_flatten_sections (sections (parse_document text))))).
    { apply filter_In. split; [exact Hs | apply eqb_eq; reflexivity]. }
    rewrite E in Hin. destruct Hin.
Qed.

Lemma X12_get_section_finds_parsed_paths_witness :
  In nested_B (_flatten_sections (sections (parse_document nested_text)))
  /\ exists s',
       In s' (_flatten_sections (sections (parse_document nested_text)))
       /\ path s' = path nested_B
       /\ dict_get (sections_by_path (parse_document nested_text)) (path nested_B)
          = Some s'
       /\ get_section (Some (parse_document nested_text)) (path nested_B)
          = get_full_content true s'.
Proof.
  assert (H : In nested_B (_flatten_sections (sections (parse_document nested_text))))
    by (vm_compute; right; left; reflexivity).
  split; [exact H|].
  exact (X12_get_section_finds_parsed_paths nested_text nested_B H).
Defined.

(** X13: in a parsed document, [list_sections] on the non-empty path of a
    section of the deepest level reports that there are no subsections. *)
Theorem X13_list_sections_of_detail (text : list ascii) (p : list ascii)
    (s : Section) :
  p <> [] ->
  dict_get (sections_by_path (parse_document text)) p = Some s ->
  level s = DETAIL ->
  subsections s = []
  /\ list_sections (Some (parse_document text)) (Some p)
     = str "No subsections found under '" ++ p ++ str "'".
Proof.
  intros Hp Hget Hlevel.
  assert (Hs : In s (_flatten_sections (sections (parse_document text)))).
  { rewrite parse_document_path_map, dict_fill_get in Hget. simpl dict_get in Hget.
    destruct (last _) as [s'|] eqn:E; [|discriminate].
    injection Hget as ->. apply last_filter_In in E as [Hin _]. exact Hin. }
  assert (Hnil : subsections s = []).
  { destruct (subsections s) as [|c cs] eqn:E; [reflexivity|].
    assert (Hc : In c (subsections s)) by (rewrite E; left; reflexivity).
    destruct (parsed_edge text s c Hs Hc)
      as (q & o & cref & oc & _ & Hsh & _ & _ & _ & _ & Hlev).
    destruct Hsh as (_ & Hl & _). rewrite <- Hl, Hlevel in Hlev.
    destruct (o_level oc); simpl in Hlev; lia. }
  split; [exact Hnil|].
  unfold list_sections. destruct p as [|c p]; [congruence|]. simpl truthy. cbv iota.
  rewrite Hget, Hnil. reflexivity.
Qed.

Lemma X13_list_sections_of_detail_witness :
  str "A/B/C" <> []
  /\ dict_get (sections_by_path (parse_document (unlines ["# A"; "## B"; "### C"])))
              (str "A/B/C")
     = Some (mkSection (str "C") DETAIL [] (str "A/B/C") 2 [] [])
  /\ list_sections (Some (parse_document (unlines ["# A"; "## B"; "### C"])))
                   (Some (str "A/B/C"))
     = str "No subsections found under '" ++ str "A/B/C" ++ str "'".
Proof.
  assert (H1 : str "A/B/C" <> []) by discriminate.
  assert (H2 : dict_get (sections_by_path
                           (parse_document (unlines ["# A"; "## B"; "### C"])))
                        (str "A/B/C")
               = Some (mkSection (str "C") DETAIL [] (str "A/B/C") 2 [] []))
    by (vm_compute; reflexivity).
  split; [exact H1|]. split; [exact H2|].
  exact (proj2 (X13_list_sections_of_detail _ _ _ H1 H2 eq_refl)).
Defined.

(* ===================================================================== *)
(** * The class entries                                                  *)
(* ===================================================================== *)

Lemma startswith_app (p s : list ascii) :
  startswith p s = true -> s = p ++ drop (length p) s.
Proof.
  revert s. induction p as [|a p IH]; intros s H; [reflexivity|].
  apply startswith_cons in H as (s' & -> & H). simpl. f_equal. apply IH, H.
Qed.

Lemma takewhile_forallb {A} (p : A -> bool) (l : list A) :
  forallb p (takewhile p l) = true.
Proof.
  induction l as [|x l IH]; simpl; [reflexivity|].
  destruct (p x) eqn:E; simpl; [rewrite E; exact IH | reflexivity].
Qed.

Lemma dropwhile_head {A} (p : A -> bool) (l : list A) (x : A) (rest : list A) :
  dropwhile p l = x :: rest -> p x = false.
Proof.
  induction l as [|y l IH]; simpl; [discriminate|].
  destruct (p y) eqn:E; [exact IH|]. intros H. injection H as <- _. exact E.
Qed.

Lemma match_word_after_spec (lit s w : list ascii) :
  match_word_after lit s = Some w ->
  w <> [] /\ forallb is_word w = true
  /\ exists post, s = lit ++ w ++ post
                  /\ match post with [] => True | c :: _ => is_word c = false end.
Proof.
  unfold match_word_after. destruct (startswith lit s) eqn:E; [|discriminate].
  apply startswith_app in E.
  pose proof (takewhile_dropwhile is_word (drop (length lit) s)) as Hsplit.
  pose proof (takewhile_forallb is_word (drop (length lit) s)) as Hword.
  destruct (takewhile is_word (drop (length lit) s)) as [|c w'] eqn:Et; [discriminate|].
  intros H. injection H as <-.
  split; [discriminate|]. split; [exact Hword|].
  exists (dropwhile is_word (drop (length lit) s)).
  split; [rewrite Hsplit; exact E|].
  destruct (dropwhile is_word (drop (length lit) s)) as [|d post] eqn:Ed; [exact I|].
  eapply dropwhile_head; eauto.
Qed.

(** The class name is a non-empty run of word characters that follows
    ["Creating a "] or ["class "] in the title and ends where the word
    ends. *)
Lemma search_class_name_spec (s w : list ascii) :
  search_class_name s = Some w ->
  w <> [] /\ forallb is_word w = true
  /\ exists pre post,
       (s = pre ++ str "Creating a " ++ w ++ post
        \/ s = pre ++ str "class " ++ w ++ post)
       /\ match post with [] => True | c :: _ => is_word c = false end.
Proof.
  induction s as [|a s IH]; cbn [search_class_name].
  - destruct (match_word_after (str "Creating a ") []) eqn:E1; [discriminate|].
    destruct (match_word_after (str "class ") []) eqn:E2; discriminate.
  - destruct (match_word_after (str "Creating a ") (a :: s)) as [w1|] eqn:E1.
    { intros H. injection H as ->.
      apply match_word_after_spec in E1 as (Hne & Hw & post & Hs & Hp).
      split; [exact Hne|]. split; [exact Hw|]. exists [], post. auto. }
    destruct (match_word_after (str "class ") (a :: s)) as [w2|] eqn:E2.
    { intros H. injection H as ->.
      apply match_word_after_spec in E2 as (Hne & Hw & post & Hs & Hp).
      split; [exact Hne|]. split; [exact Hw|]. exists [], post. auto. }
    intros H. apply IH in H as (Hne & Hw & pre & post & Hs & Hp).
    split; [exact Hne|]. split; [exact Hw|]. exists (a :: pre), post.
    split; [|exact Hp]. destruct Hs as [-> | ->]; [left | right]; reflexivity.
Qed.

Lemma dict_get_In {V} (d : list (list ascii * V)) (k : list ascii) (v : V) :
  dict_get d k = Some v -> In (k, v) d.
Proof.
  induction d as [|[k0 v0] d IH]; simpl; [discriminate|].
  destruct (eqb k0 k) eqn:E; [|auto].
  apply eqb_eq in E. intros H. injection H as ->. left. congruence.
Qed.

Lemma dict_set_Forall {V} (Q : list ascii * V -> Prop) (d : list (list ascii * V))
    (k : list ascii) (v : V) :
  Forall Q d -> Q (k, v) -> Forall Q (dict_set d k v).
Proof.
  intros Hd Hq. induction d as [|[k0 v0] d IH]; simpl.
  - constructor; [exact Hq | constructor].
  - apply Forall_cons in Hd as [H0 Hd].
    destruct (eqb k0 k) eqn:E.
    + apply eqb_eq in E. subst k0. constructor; assumption.
    + constructor; [exact H0 | apply IH, Hd].
Qed.

Lemma fold_left_invariant {A B} (f : A -> B -> A) (P : A -> Prop) (l : list B) (a : A) :
  P a -> (forall a x, In x l -> P a -> P (f a x)) -> P (fold_left f l a).
Proof.
  revert a. induction l as [|x l IH]; intros a Ha Hf; simpl; [exact Ha|].
  apply IH; [apply Hf; [left; reflexivity | exact Ha]|].
  intros a' y Hy. apply Hf. right. exact Hy.
Qed.

(** What an entry made by [_extract_api_entries] from the sections [flat]
    holds. *)
Lemma _extract_api_entries_spec (flat : list Section) (k : list ascii) (e : APIEntry) :
  dict_get (_extract_api_entries flat) k = Some e ->
  api_name e = k /\ api_type e = str "class"
  /\ exists s, In s flat /\ search_class_name (title s) = Some k
               /\ description e = first_line_of (content s)
               /\ section_path e = path s.
Proof.
  intros Hget. apply dict_get_In in Hget.
  assert (H : Forall (fun kv : list ascii * APIEntry =>
                        api_name (snd kv) = fst kv /\ api_type (snd kv) = str "class"
                        /\ exists s, In s flat
                             /\ search_class_name (title s) = Some (fst kv)
                             /\ description (snd kv) = first_line_of (content s)
                             /\ section_path (snd kv) = path s)
                     (_extract_api_entries flat)).
  { unfold _extract_api_entries. apply fold_left_invariant; [constructor|].
    intros entries s Hs Hentries.
    destruct (contains (str "class") (lower (title s))
              || contains (str "Creating a") (title s)); [|exact Hentries].
    destruct (search_class_name (title s)) as [name|] eqn:E; [|exact Hentries].
    apply dict_set_Forall; [exact Hentries|]. simpl. eauto 10. }
  rewrite Forall_forall in H. apply (H (k, e)), list_elem_of_In, Hget.
Qed.

(** X14: a class entry of a parsed document is keyed by its name, has the
    type ["class"], and comes from a section of the forest: the name is the
    non-empty word that follows ["Creating a "] or ["class "] in the title
    of that section, the description is the first line of its content and
    the section path its path, which is a key of the path map.
    [get_api_info] on that name renders the entry and the section found at
    that path, whatever method name is given. *)
Theorem X14_class_entries (text : list ascii) (k : list ascii) (e : APIEntry) :
  dict_get (api_entries (parse_document text)) k = Some e ->
  api_name e = k /\ api_type e = str "class"
  /\ k <> [] /\ forallb is_word k = true
  /\ exists s s',
       In s (_flatten_sections (sections (parse_document text)))
       /\ (exists pre post,
             (title s = pre ++ str "Creating a " ++ k ++ post
              \/ title s = pre ++ str "class " ++ k ++ post)
             /\ match post with [] => True | c :: _ => is_word c = false end)
       /\ description e = first_line_of (content s)
       /\ section_path e = path s
       /\ dict_get (sections_by_path (parse_document text)) (path s) = Some s'
       /\ forall method_name,
            get_api_info (Some (parse_document text)) k method_name
            = str "# " ++ k ++ [nl; nl] ++ str "Type: " ++ str "class" ++ [nl; nl]
                ++ first_line_of (content s) ++ [nl; nl]
                ++ match path s with
                   | [] => []
                   | _ => get_full_content true s'
                   end.
Proof.
  intros Hget.
  assert (Hget' := Hget).
  change (api_entries (parse_document text))
    with (_extract_api_entries (_flatten_sections (sections (parse_document text))))
    in Hget'.
  apply _extract_api_entries_spec in Hget'
    as (Hname & Htype & s & Hs & Hsearch & Hdesc & Hpath).
  apply search_class_name_spec in Hsearch as (Hne & Hword & Hpos).
  split; [exact Hname|]. split; [exact Htype|]. split; [exact Hne|].
  split; [exact Hword|].
  assert (Hs' : exists s', dict_get (sections_by_path (parse_document text)) (path s)
                           = Some s').
  { rewrite parse_document_path_map, dict_fill_get. simpl dict_get.
    destruct (last _) as [s'|] eqn:E; [eauto|].
    apply last_None in E.
    assert (Hin : In s (List.filter (fun x => eqb (path x) (path s))
                          (_flatten_sections (sections (parse_document text)))))
      by (apply filter_In; split; [exact Hs | apply eqb_eq; reflexivity]).
    rewrite E in Hin. destruct Hin. }
  destruct Hs' as [s' Hs'].
  exists s, s'. split; [exact Hs|]. split; [exact Hpos|].
  split; [exact Hdesc|]. split; [exact Hpath|]. split; [exact Hs'|].
  intros method_name. unfold get_api_info. rewrite Hget.
  rewrite Hname, Htype, Hdesc, Hpath, Hs'. reflexivity.
Qed.

Lemma X14_class_entries_witness :
  dict_get (api_entries (parse_document manual_text)) (str "Widget")
    = Some (mkAPIEntry (str "Widget") (str "class") (str "Widgets are made here.")
                       (str "Creating a Widget"))
  /\ forallb is_word (str "Widget") = true.
Proof.
  assert (H : dict_get (api_entries (parse_document manual_text)) (str "Widget")
              = Some (mkAPIEntry (str "Widget") (str "class")
                                 (str "Widgets are made here.")
                                 (str "Creating a Widget")))
    by (vm_compute; reflexivity).
  split; [exact H|].
  exact (proj1 (proj2 (proj2 (proj2 (X14_class_entries manual_text _ _ H))))).
Defined.

(* ===================================================================== *)
(** * Further properties of the queries                                  *)
(* ===================================================================== *)

Lemma startswith_refl_app (p b : list ascii) : startswith p (p ++ b) = true.
Proof.
  induction p as [|a p IH]; simpl; [reflexivity|].
  rewrite Ascii.eqb_refl. exact IH.
Qed.

Lemma contains_nil (s : list ascii) : contains [] s = true.
Proof. destruct s; reflexivity. Qed.

Lemma contains_here (sub b : list ascii) : contains sub (sub ++ b) = true.
Proof.
  destruct (sub ++ b) eqn:E; cbn [contains]; rewrite <- E, startswith_refl_app;
    reflexivity.
Qed.

Lemma contains_app_r (sub a t : list ascii) :
  contains sub t = true -> contains sub (a ++ t) = true.
Proof.
  intros H. induction a as [|c a IH]; simpl; [exact H|].
  rewrite IH. apply orb_true_r.
Qed.

Lemma startswith_app_l (p t b : list ascii) :
  startswith p t = true -> startswith p (t ++ b) = true.
Proof.
  revert t. induction p as [|a p IH]; intros t H; [reflexivity|].
  apply startswith_cons in H as (t' & -> & H). simpl.
  rewrite Ascii.eqb_refl. apply IH, H.
Qed.

Lemma contains_app_l (sub t b : list ascii) :
  contains sub t = true -> contains sub (t ++ b) = true.
Proof.
  induction t as [|c t IH]; cbn [contains]; intros H.
  - rewrite orb_false_r in H. destruct sub; [apply contains_nil | discriminate].
  - apply orb_true_iff in H as [H|H].
    + change ((c :: t) ++ b) with (c :: (t ++ b)). cbn [contains].
      change (c :: (t ++ b)) with ((c :: t) ++ b).
      rewrite (startswith_app_l _ _ _ H). reflexivity.
    + change ((c :: t) ++ b) with (c :: (t ++ b)). cbn [contains].
      rewrite (IH H). apply orb_true_r.
Qed.

Lemma contains_middle (sub a b : list ascii) : contains sub (a ++ sub ++ b) = true.
Proof. apply contains_app_r, contains_here. Qed.

(** X15: [search_docs] answers that there are no results exactly when no
    top-level section matches, whatever [max_results] is; when a section
    matches, the answer starts with the rendering of the first one. *)
Theorem X15_search_docs_first_hit (doc : ParsedDoc) (query : list ascii)
    (max_results : Z) :
  match List.filter (section_matches (lower query)) (sections doc) with
  | [] =>
      search_docs (Some doc) query max_results
      = str "No results found for '" ++ query ++ str "'"
  | s :: _ =>
      exists rest,
        search_docs (Some doc) query max_results
        = str "**" ++ title s ++ str "**" ++ [nl]
            ++ str "Path: " ++ path s ++ [nl]
            ++ str "Preview: " ++ make_preview (content s) ++ [nl] ++ rest
  end.
Proof.
  unfold search_docs, search. rewrite search_loop_spec.
  destruct (List.filter _ _) as [|s matches]; simpl.
  - rewrite take_nil. reflexivity.
  - replace (Z.to_nat (Z.max 1 (max_results - Z.of_nat 0)))
      with (S (Z.to_nat (Z.max 1 (max_results - Z.of_nat 0)) - 1)) by lia.
    cbn [take map].
    destruct (take _ (map make_result matches)) as [|r rs].
    + exists []. cbn [map join]. unfold format_result. simpl.
      rewrite ?app_nil_r. reflexivity.
    + exists ([nl; nl] ++ join [nl; nl] (map format_result (r :: rs))).
      cbn [map join]. unfold format_result at 1. simpl.
      repeat (rewrite <- app_assoc; simpl). reflexivity.
Qed.

Lemma make_preview_length (c : list ascii) : length (make_preview c) <= 203.
Proof.
  unfold make_preview. destruct (Nat.ltb_spec 200 (length c)) as [H|H]; [|lia].
  rewrite length_app, length_take. change (length (str "...")) with 3. lia.
Qed.

(** X16: a search result never has more entries than there are top-level
    sections, nor more than [max_results] when that is at least one; every
    entry has the type ["section"] and a preview of at most 203
    characters. *)
Theorem X16_search_bounds (doc : ParsedDoc) (query : list ascii) (max_results : Z) :
  length (search doc query max_results) <= length (sections doc)
  /\ ((1 <= max_results)%Z ->
      length (search doc query max_results) <= Z.to_nat max_results)
  /\ (forall r, In r (search doc query max_results) ->
        r_type r = str "section" /\ length (r_preview r) <= 203).
Proof.
  unfold search. rewrite search_loop_spec. simpl.
  split; [|split].
  - rewrite length_take, length_map.
    pose proof (filter_length_le (section_matches (lower query)) (sections doc)).
    lia.
  - intros Hm. rewrite length_take. lia.
  - intros r Hr. apply list_elem_of_In, elem_of_take in Hr as (i & Hr & _).
    rewrite lookup_map in Hr.
    destruct (List.filter _ _ !! i) as [s|]; [|discriminate].
    injection Hr as <-. simpl. split; [reflexivity | apply make_preview_length].
Qed.

(** X17: an empty needle matches everything: [search] with an empty query
    returns the entries of the first top-level sections, and
    [get_code_examples] with an empty topic and no language selects the
    first 10 code blocks of the document. *)
Theorem X17_empty_needle_matches_all (doc : ParsedDoc) (max_results : Z) :
  search doc [] max_results
    = take (Z.to_nat (Z.max 1 max_results)) (map make_result (sections doc))
  /\ selected_examples doc [] None = take 10 (all_code_blocks doc).
Proof.
  split.
  - unfold search. rewrite search_loop_spec. simpl.
    rewrite Z.sub_0_r. f_equal. f_equal.
    induction (sections doc) as [|s ss IH]; simpl; [reflexivity|].
    unfold section_matches at 1. rewrite contains_nil. simpl. f_equal. exact IH.
  - unfold selected_examples. rewrite examples_loop_spec. simpl. f_equal.
    induction (all_code_blocks doc) as [|cb cbs IH]; simpl; [reflexivity|].
    unfold example_matches at 1. simpl. rewrite contains_nil. simpl.
    f_equal. exact IH.
Qed.

Lemma get_full_content_split (s : Section) :
  get_full_content true s
  = get_full_content false s
      ++ concat (map (fun sub => [nl; nl] ++ get_full_content true sub)
                     (subsections s)).
Proof.
  destruct s as [t l c pth n cbs subs]. simpl.
  repeat (rewrite <- app_assoc; simpl). reflexivity.
Qed.

Lemma concat_map_In {A} (g : A -> list ascii) (l : list A) (x : A) :
  In x l -> exists a b, concat (map g l) = a ++ g x ++ b.
Proof.
  intros Hx. apply in_split in Hx as (l1 & l2 & ->).
  exists (concat (map g l1)), (concat (map g l2)).
  rewrite map_app, concat_app. reflexivity.
Qed.

(** X18: the full rendering of a section starts with its own header and
    content, and holds the header and content of each of its descendants
    as a contiguous piece. *)
Theorem X18_rendering_holds_descendants (s s' : Section) :
  In s' (_flatten_section s) ->
  contains (get_full_content false s') (get_full_content true s) = true
  /\ startswith (get_full_content false s) (get_full_content true s) = true.
Proof.
  intros Hin. split; [|rewrite get_full_content_split; apply startswith_refl_app].
  revert s' Hin. induction s as [s IH] using Section_nested_ind. intros s' Hin.
  rewrite get_full_content_split.
  destruct s as [t l c pth n cbs subs]. cbn [_flatten_section] in Hin.
  destruct Hin as [<-|Hin]; [apply contains_here|].
  apply in_concat in Hin as (fl & Hfl & Hin).
  apply in_map_iff in Hfl as (x & <- & Hx).
  cbn [subsections] in *. rewrite Forall_forall in IH.
  pose proof (IH x (proj2 (list_elem_of_In _ _) Hx) s' Hin) as Hc.
  destruct (concat_map_In (fun sub => [nl; nl] ++ get_full_content true sub) subs x Hx)
    as (a & b & ->).
  apply contains_app_r, contains_app_r, contains_app_l, contains_app_r. exact Hc.
Qed.

Lemma X18_rendering_holds_descendants_witness :
  In nested_B (_flatten_section nested_A)
  /\ contains (get_full_content false nested_B) (get_full_content true nested_A) = true.
Proof.
  assert (H : In nested_B (_flatten_section nested_A)) by (right; left; reflexivity).
  split; [exact H|].
  exact (proj1 (X18_rendering_holds_descendants nested_A nested_B H)).
Defined.

Lemma split_lines_nonempty (s : list ascii) : split_lines s <> [].
Proof.
  destruct s as [|c s]; simpl; [discriminate|].
  destruct (Ascii.eqb c nl); [discriminate|].
  destruct (split_lines s); discriminate.
Qed.

Lemma join_cons (sep x : list ascii) (xs : list (list ascii)) :
  xs <> [] -> join sep (x :: xs) = x ++ sep ++ join sep xs.
Proof. destruct xs; [congruence | reflexivity]. Qed.

(** Splitting at the line feeds and joining with line feeds gives the text
    back. *)
Lemma join_split_lines (s : list ascii) : join [nl] (split_lines s) = s.
Proof.
  induction s as [|c s IH]; cbn [split_lines]; [reflexivity|].
  pose proof (split_lines_nonempty s) as Hne.
  destruct (Ascii.eqb c nl) eqn:E.
  - apply Ascii.eqb_eq in E. subst c.
    rewrite join_cons by exact Hne. rewrite IH. reflexivity.
  - destruct (split_lines s) as [|l ls]; [congruence|].
    destruct ls as [|l2 ls].
    + cbn [join] in *. rewrite IH. reflexivity.
    + rewrite join_cons by discriminate. rewrite join_cons in IH by discriminate.
      rewrite <- IH. reflexivity.
Qed.

Lemma join_app (sep : list ascii) (a b : list (list ascii)) :
  a <> [] -> b <> [] -> join sep (a ++ b) = join sep a ++ sep ++ join sep b.
Proof.
  intros Ha Hb. induction a as [|x a IH]; [congruence|].
  destruct a as [|y a].
  - simpl app. rewrite join_cons by exact Hb. reflexivity.
  - change ((x :: y :: a) ++ b) with (x :: ((y :: a) ++ b)).
    rewrite join_cons by (simpl; discriminate).
    rewrite IH by discriminate.
    rewrite (join_cons sep x (y :: a)) by discriminate.
    rewrite <- !app_assoc. reflexivity.
Qed.

Lemma contains_refl (s : list ascii) : contains s s = true.
Proof. rewrite <- (app_nil_r s) at 2. apply contains_here. Qed.

Lemma contains_join_run (sep : list ascii) (pre run post : list (list ascii)) :
  run <> [] ->
  contains (join sep run) (join sep (pre ++ run ++ post)) = true.
Proof.
  intros Hrun.
  assert (Hmid : contains (join sep run) (join sep (run ++ post)) = true).
  { destruct post as [|z post]; [rewrite app_nil_r; apply contains_refl|].
    rewrite join_app by (exact Hrun || discriminate). apply contains_here. }
  destruct pre as [|x pre]; [exact Hmid|].
  rewrite join_app; [| discriminate | destruct run; [congruence | discriminate]].
  apply contains_app_r, contains_app_r, Hmid.
Qed.

Lemma narrow_to_method_contained (text m : list ascii) :
  contains (narrow_to_method text m) text = true.
Proof.
  unfold narrow_to_method. rewrite method_loop_idle.
  pose proof (takewhile_dropwhile
                (fun l => negb (starts_method (lower m) l)) (split_lines text)) as H1.
  destruct (dropwhile _ (split_lines text)) as [|first rest]; [apply contains_refl|].
  set (P := fun l => starts_method (lower m) l || negb (is_hash_line l)).
  set (pre := takewhile (fun l => negb (starts_method (lower m) l)) (split_lines text))
    in H1.
  pose proof (takewhile_dropwhile P rest) as H2.
  assert (E : join [nl] (pre ++ (first :: takewhile P rest) ++ dropwhile P rest)
              = text).
  { change ((first :: takewhile P rest) ++ dropwhile P rest)
      with (first :: (takewhile P rest ++ dropwhile P rest)).
    rewrite H2, H1. apply join_split_lines. }
  pose proof (contains_join_run [nl] pre (first :: takewhile P rest)
                (dropwhile P rest) ltac:(discriminate)) as Hc.
  rewrite E in Hc. exact Hc.
Qed.

(** X19: when the class is found by the scan of the section titles, the
    answer of [get_api_info] is a contiguous piece of the full rendering of
    the section found, whatever the method name: narrowing only cuts. *)
Theorem X19_api_answer_is_piece_of_rendering (doc : ParsedDoc)
    (class_name : list ascii) (method_name : option (list ascii))
    (section : Section) :
  dict_get (api_entries doc) class_name = None ->
  List.find (fun s => contains (lower class_name) (lower (title s)))
            (dict_values (sections_by_path doc)) = Some section ->
  contains (get_api_info (Some doc) class_name method_name)
           (get_full_content true section) = true.
Proof.
  intros Hentry Hfind. unfold get_api_info. rewrite Hentry, Hfind.
  destruct (truthy method_name);
    [apply narrow_to_method_contained | apply contains_refl].
Qed.

Lemma X19_api_answer_is_piece_of_rendering_witness :
  dict_get (api_entries widget_doc) (str "Widget") = None
  /\ List.find (fun s => contains (lower (str "Widget")) (lower (title s)))
               (dict_values (sections_by_path widget_doc)) = Some widget_section
  /\ contains (get_api_info (Some widget_doc) (str "Widget") (Some (str "resize")))
              (get_full_content true widget_section) = true.
Proof.
  assert (H1 : dict_get (api_entries widget_doc) (str "Widget") = None)
    by (vm_compute; reflexivity).
  assert (H2 : List.find (fun s => contains (lower (str "Widget")) (lower (title s)))
                         (dict_values (sections_by_path widget_doc))
               = Some widget_section)
    by (vm_compute; reflexivity).
  split; [exact H1|]. split; [exact H2|].
  exact (X19_api_answer_is_piece_of_rendering widget_doc (str "Widget")
           (Some (str "resize")) widget_section H1 H2).
Defined.

(* ===================================================================== *)
(** * What a path is made of                                             *)
(* ===================================================================== *)

Lemma sorted_snoc_inv {A} (R : A -> A -> Prop) (l : list A) (x : A) :
  StronglySorted R (l ++ [x]) ->
  StronglySorted R l /\ Forall (fun y => R y x) l.
Proof.
  induction l as [|y l IH]; simpl; intros H; [split; constructor|].
  apply StronglySorted_inv in H as [Hs Hy].
  destruct (IH Hs) as [Hs' Hf].
  apply Forall_app in Hy as [Hy Hyx]. apply Forall_cons in Hyx as [Hyx _].
  split; constructor; assumption.
Qed.

Lemma sorted_rev (levels : list nat) :
  StronglySorted gt (rev levels) -> StronglySorted lt levels.
Proof.
  induction levels as [|x levels IH]; simpl; intros H; [constructor|].
  apply sorted_snoc_inv in H as [Hs Hf].
  constructor; [apply IH, Hs|].
  apply Forall_forall. intros y Hy. rewrite Forall_forall in Hf.
  apply (Hf y). apply list_elem_of_In, in_rev. rewrite rev_involutive.
  apply list_elem_of_In, Hy.
Qed.

Lemma sorted_lt_levels_short (levels : list nat) :
  StronglySorted lt levels -> Forall (fun n => 1 <= n <= 3) levels ->
  length levels <= 3.
Proof.
  intros Hs Hb.
  destruct levels as [|a [|b [|c [|d rest]]]]; simpl; try lia.
  apply StronglySorted_inv in Hs as [Hs Ha].
  apply StronglySorted_inv in Hs as [Hs Hb'].
  apply StronglySorted_inv in Hs as [Hs Hc].
  inversion Ha as [|? ? Hab Ha1]; subst.
  inversion Hb' as [|? ? Hbc Hb1]; subst.
  inversion Hc as [|? ? Hcd _]; subst.
  inversion Hb as [|? ? Ha3 Hb2]; subst. inversion Hb2 as [|? ? _ Hb3]; subst.
  inversion Hb3 as [|? ? _ Hb4]; subst. inversion Hb4 as [|? ? Hd1 _]; subst.
  lia.
Qed.

(** A turn leaves the title and the level of the objects it finds. *)
Lemma turn_title_level (lines : list (list ascii)) (st st' : PState) (r : nat) :
  turn lines st st' -> r < length (heap st) ->
  title_of (heap st') r = title_of (heap st) r
  /\ level_of (heap st') r = level_of (heap st) r.
Proof.
  intros Hturn Hr. destruct (lookup_lt_is_Some_2 _ _ Hr) as [o Ho].
  destruct (turn_persist _ _ _ _ _ Hturn Ho) as [o' Ho'].
  destruct (turn_objects _ _ _ _ _ Hturn Ho')
    as [(o0 & Ho0 & Ht & Hl & _)|(-> & _)]; [|lia].
  rewrite Ho in Ho0. injection Ho0 as <-.
  unfold title_of, level_of. rewrite Ho, Ho', Ht, Hl. auto.
Qed.

Lemma turn_path_inv (lines : list (list ascii)) (st st' : PState) :
  wf_state lines st -> stack_inv st -> path_inv st -> turn lines st st' ->
  path_inv st'.
Proof.
  intros Hwf Hstack Hinv Hturn p o' Ho'.
  assert (Hchain : forall chain bound,
            bound <= length (heap st) -> Forall (fun r => r < bound) chain ->
            map (title_of (heap st')) chain = map (title_of (heap st)) chain
            /\ map (level_of (heap st')) chain = map (level_of (heap st)) chain).
  { intros chain bound Hb Hf. rewrite Forall_forall in Hf.
    split; apply map_ext_in; intros r Hr;
      apply list_elem_of_In, Hf in Hr;
      apply (turn_title_level _ _ _ r Hturn); lia. }
  destruct (turn_objects _ _ _ _ _ Hturn Ho')
    as [(o & Ho & Ht & _ & Hp & _)|(-> & _ & _ & _ & _ & line & g & _ & _ & Ht & Hp)].
  - destruct (Hinv p o Ho) as (chain & Hpath & Hlt & Hs).
    pose proof (lookup_lt_Some _ _ _ Ho) as Hlen.
    destruct (Hchain chain p ltac:(lia) Hlt) as [E1 E2].
    exists chain. rewrite E1, E2, Hp, Ht. auto.
  - pose proof (wf_stack _ _ Hwf) as Hv.
    destruct (Hchain (stack st) (length (heap st)) ltac:(lia) Hv) as [E1 E2].
    exists (stack st). rewrite E1, E2, Hp, Ht. split; [reflexivity|].
    split; [exact Hv|].
    apply sorted_rev. rewrite <- map_rev. exact (si_sorted _ Hstack).
Qed.

Lemma parse_state_path_inv (text : list ascii) : path_inv (parse_state text).
Proof.
  unfold parse_state.
  apply (parse_loop_turns (split_lines text)
           (fun st => stack_inv st /\ path_inv st)).
  - intros st st' Hwf [Hs Hp] Hturn.
    split; [eapply turn_stack_inv | eapply turn_path_inv]; eauto.
  - apply init_state_wf.
  - split; [apply init_stack_inv|]. intros p o H. destruct p; discriminate.
Qed.

Lemma Forall_exists_Forall2 {A B} (Q : A -> B -> Prop) (l : list A) :
  Forall (fun x => exists y, Q x y) l -> exists l', Forall2 Q l l'.
Proof.
  induction l as [|x l IH]; intros H.
  - exists []. constructor.
  - apply Forall_cons in H as [[y Hy] H]. destruct (IH H) as [l' Hl'].
    exists (y :: l'). constructor; assumption.
Qed.

Lemma Forall2_map_eq {A B C} (f : A -> C) (g : B -> C) (l : list A) (l' : list B) :
  Forall2 (fun x y => f x = g y) l l' -> map f l = map g l'.
Proof. induction 1; simpl; congruence. Qed.

(** X20: the path of every section of a parsed document is the join with
    ["/"] of the titles of at most three sections of the forest, whose
    headers lie above its own and whose levels grow strictly, followed by
    its own title.  (The sections are those open when its header is read;
    they need not be its ancestors.) *)
Theorem X20_path_is_titles_of_open_sections (text : list ascii) (s : Section) :
  In s (_flatten_sections (sections (parse_document text))) ->
  exists chain,
    path s = join (str "/") (map title chain ++ [title s])
    /\ length chain <= 3
    /\ Forall (fun a => In a (_flatten_sections (sections (parse_document text)))
                        /\ line_number a < line_number s) chain
    /\ StronglySorted lt (map (fun a => level_value (level a)) chain).
Proof.
  intros Hs.
  destruct (parse_document_flatten text s Hs) as (p & o & Ho & Hsh & _ & _).
  destruct (parse_state_path_inv text p o Ho) as (refs & Hpath & Hlt & Hsorted).
  destruct (parse_state_invariants text) as (_ & _ & Hord & _).
  set (Q := fun (r : nat) (a : Section) =>
              In a (_flatten_sections (sections (parse_document text)))
              /\ exists orr, heap (parse_state text) !! r = Some orr /\ shows orr a
                             /\ r < p).
  assert (Hall : Forall (fun r => exists a, Q r a) refs).
  { eapply Forall_impl; [exact Hlt|]. simpl. intros r Hr.
    assert (Hrl : r < length (heap (parse_state text)))
      by (apply lookup_lt_Some in Ho; lia).
    destruct (lookup_lt_is_Some_2 _ _ Hrl) as [orr Horr].
    destruct (all_objects_in_forest text r orr Horr) as (a & Ha & Hsha).
    exists a. split; [exact Ha|]. eauto. }
  apply Forall_exists_Forall2 in Hall as [chain Hchain].
  assert (Htitles : map (title_of (heap (parse_state text))) refs = map title chain).
  { apply Forall2_map_eq. eapply Forall2_impl; [exact Hchain|]. simpl.
    intros r a (_ & orr & Horr & Hsha & _). unfold title_of. rewrite Horr.
    destruct Hsha as (-> & _). reflexivity. }
  assert (Hlevels : map (level_of (heap (parse_state text))) refs
                    = map (fun a => level_value (level a)) chain).
  { apply Forall2_map_eq. eapply Forall2_impl; [exact Hchain|]. simpl.
    intros r a (_ & orr & Horr & Hsha & _). rewrite (level_of_lookup _ _ _ Horr).
    destruct Hsha as (_ & -> & _). reflexivity. }
  destruct Hsh as (Ht & _ & _ & Hp & Hln & _).
  exists chain. rewrite Hp, Ht, Hpath, Htitles, <- Hlevels.
  split; [reflexivity|]. split; [|split; [|exact Hsorted]].
  - rewrite <- (length_map (fun a => level_value (level a))), <- Hlevels.
    apply sorted_lt_levels_short; [exact Hsorted|].
    apply Forall_forall. intros n Hn.
    apply list_elem_of_In, in_map_iff in Hn as (r & <- & Hr).
    apply (level_of_valid (split_lines text)).
    rewrite Forall_forall in Hlt. apply list_elem_of_In, Hlt in Hr.
    apply lookup_lt_Some in Ho. lia.
  - apply Forall_forall. intros a Ha.
    apply list_elem_of_lookup in Ha as [i Hi].
    destruct (Forall2_lookup_r _ _ _ _ _ Hchain Hi)
      as (r & _ & Hin & orr & Horr & Hsha & Hrp).
    split; [exact Hin|].
    destruct Hsha as (_ & _ & _ & _ & Hla & _). rewrite Hla, Hln.
    exact (oi_order _ Hord r p orr o Horr Ho Hrp).
Qed.

Lemma X20_path_is_titles_of_open_sections_witness :
  In (mkSection (str "C") SUB [] (str "A/B/C") 2 [] [])
     (_flatten_sections (sections (parse_document two_siblings)))
  /\ exists chain,
       str "A/B/C" = join (str "/") (map title chain ++ [str "C"])
       /\ length chain <= 3.
Proof.
  assert (H : In (mkSection (str "C") SUB [] (str "A/B/C") 2 [] [])
                 (_flatten_sections (sections (parse_document two_siblings))))
    by (vm_compute; right; right; left; reflexivity).
  split; [exact H|].
  destruct (X20_path_is_titles_of_open_sections two_siblings _ H)
    as (chain & Hp & Hl & _).
  exists chain. split; [exact Hp | exact Hl].
Defined.

(* ===================================================================== *)
(** * Where a section is placed                                          *)
(* ===================================================================== *)

Lemma takewhile_Forall {A} (p : A -> bool) (l : list A) :
  Forall (fun x => p x = true) (takewhile p l).
Proof.
  induction l as [|x l IH]; simpl; [constructor|].
  destruct (p x) eqn:E; constructor; assumption.
Qed.

Lemma pop_stack_split (h : list SectionObj) (lvl : nat) (stack : list nat) :
  exists popped,
    stack = pop_stack h lvl stack ++ popped
    /\ Forall (fun r => lvl <= level_of h r) popped.
Proof.
  unfold pop_stack.
  exists (rev (takewhile (fun r => lvl <=? level_of h r) (rev stack))).
  split.
  - rewrite <- rev_app_distr, takewhile_dropwhile, rev_involutive. reflexivity.
  - apply Forall_forall. intros r Hr.
    pose proof (takewhile_Forall (fun r => lvl <=? level_of h r) (rev stack)) as Hf.
    rewrite Forall_forall in Hf.
    apply Nat.leb_le. apply Hf, list_elem_of_In, in_rev, list_elem_of_In, Hr.
Qed.

(** X2: the turn of a header line splits the stack in two: the entries on
    top, all of a level equal to or greater than that of the header, are
    popped; the new section is pushed on what is left and attached to the
    entry just below it, whose level is smaller: it becomes the last
    subsection of that entry, or the last top-level section when nothing is
    left below it.  The levels of the sections that exist do not change. *)
Theorem X2_header_attached_below_itself (lines : list (list ascii)) (st : PState)
    (line : list ascii) (lvl : SectionLevel) (g : list ascii) :
  lines !! idx st = Some line ->
  header_match line = Some (lvl, g) ->
  let st' := step lines st in
  let r := length (heap st) in
  exists below popped,
    stack st = below ++ popped /\ stack st' = below ++ [r]
    /\ Forall (fun p => level_value lvl <= level_of (heap st') p) popped
    /\ (forall p, p < r -> level_of (heap st') p = level_of (heap st) p)
    /\ level_of (heap st') r = level_value lvl
    /\ match last below with
       | None =>
           roots st' = roots st ++ [r]
           /\ heap st' = heap st ++ [new_section st lvl g]
       | Some parent =>
           level_of (heap st') parent < level_value lvl
           /\ roots st' = roots st
           /\ heap st' = alter (append_subsection r) parent
                               (heap st ++ [new_section st lvl g])
       end.
Proof.
  intros Hl Hm st' r.
  assert (Hi : idx st < length lines) by (eapply lookup_lt_Some; eauto).
  pose proof (step_turn lines st Hi) as Hturn. fold st' in Hturn.
  set (h1 := heap st ++ [new_section st lvl g]).
  destruct (pop_stack_split h1 (level_value lvl) (stack st)) as (popped & Hp & Hge).
  assert (Hold : forall p, p < r -> level_of h1 p = level_of (heap st) p)
    by (intros p Hlt; apply level_of_snoc, Hlt).
  assert (Hnew : level_of h1 r = level_value lvl) by apply level_of_fresh.
  destruct Hturn as [line' lvl' g' Hl' Hm' Hfp | line' lvl' g' parent Hl' Hm' Hfp
                    | line' cb j top Hl' Hm' | line' j Hl' Hm'
                    | line' top Hl' Hm' | line' Hl' Hm'];
    rewrite Hl in Hl'; injection Hl' as <-; rewrite Hm in Hm';
    try discriminate; injection Hm' as <- <-; simpl.
  - fold h1 in Hfp |- *. fold r.
    exists (pop_stack h1 (level_value lvl) (stack st)), popped.
    split; [exact Hp|]. split; [reflexivity|]. split; [exact Hge|].
    split; [exact Hold|]. split; [exact Hnew|].
    rewrite <- pop_stack_parent, Hfp. auto.
  - fold h1 in Hfp |- *. fold r.
    assert (Hlev : forall q, level_of (alter (append_subsection r) parent h1) q
                             = level_of h1 q)
      by (intros q; apply level_of_alter; reflexivity).
    assert (E : pop_stack (alter (append_subsection r) parent h1)
                          (level_value lvl) (stack st)
                = pop_stack h1 (level_value lvl) (stack st))
      by (apply pop_stack_ext; intros q _; apply Hlev).
    rewrite E.
    exists (pop_stack h1 (level_value lvl) (stack st)), popped.
    split; [exact Hp|]. split; [reflexivity|].
    split; [eapply Forall_impl; [exact Hge|]; intros q Hq; simpl; rewrite Hlev; exact Hq|].
    split; [intros q Hq; rewrite Hlev; apply Hold, Hq|].
    split; [rewrite Hlev; exact Hnew|].
    rewrite <- pop_stack_parent, Hfp.
    split; [rewrite Hlev; apply (find_parent_Some _ _ _ _ Hfp) | auto].
Qed.

(** The header ["## C"] after ["# A"] and ["## B"]: the entry of B is
    popped, and C is attached to A. *)
Lemma X2_header_attached_below_itself_witness :
  split_lines two_siblings !! idx siblings_after_B = Some (str "## C")
  /\ header_match (str "## C") = Some (SUB, str "C")
  /\ stack siblings_after_B = [0; 1]
  /\ stack (step (split_lines two_siblings) siblings_after_B) = [0; 2]
  /\ exists below popped,
       stack siblings_after_B = below ++ popped
       /\ stack (step (split_lines two_siblings) siblings_after_B) = below ++ [2]
       /\ Forall (fun p => 2 <= level_of
                              (heap (step (split_lines two_siblings) siblings_after_B)) p)
                 popped
       /\ (forall p, p < 2 ->
             level_of (heap (step (split_lines two_siblings) siblings_after_B)) p
             = level_of (heap siblings_after_B) p)
       /\ level_of (heap (step (split_lines two_siblings) siblings_after_B)) 2 = 2
       /\ match last below with
          | None =>
              roots (step (split_lines two_siblings) siblings_after_B)
                = roots siblings_after_B ++ [2]
              /\ heap (step (split_lines two_siblings) siblings_after_B)
                 = heap siblings_after_B ++ [new_section siblings_after_B SUB (str "C")]
          | Some parent =>
              level_of (heap (step (split_lines two_siblings) siblings_after_B)) parent
                < 2
              /\ roots (step (split_lines two_siblings) siblings_after_B)
                 = roots siblings_after_B
              /\ heap (step (split_lines two_siblings) siblings_after_B)
                 = alter (append_subsection 2) parent
                         (heap siblings_after_B
                            ++ [new_section siblings_after_B SUB (str "C")])
          end.
Proof.
  assert (H1 : split_lines two_siblings !! idx siblings_after_B = Some (str "## C"))
    by (vm_compute; reflexivity).
  assert (H2 : header_match (str "## C") = Some (SUB, str "C"))
    by (vm_compute; reflexivity).
  split; [exact H1|]. split; [exact H2|].
  split; [vm_compute; reflexivity|]. split; [vm_compute; reflexivity|].
  exact (X2_header_attached_below_itself (split_lines two_siblings)
           siblings_after_B (str "## C") SUB (str "C") H1 H2).
Defined.

Lemma sorted_app_l {A} (R : A -> A -> Prop) (l1 l2 : list A) :
  StronglySorted R (l1 ++ l2) -> StronglySorted R l1.
Proof.
  induction l1 as [|x l1 IH]; simpl; intros H; [constructor|].
  apply StronglySorted_inv in H as [Hs Hx].
  apply Forall_app in Hx as [Hx _]. constructor; [apply IH, Hs | exact Hx].
Qed.

Lemma sorted_last_max (l : list nat) (x y : nat) :
  StronglySorted lt (l ++ [x]) -> In y (l ++ [x]) -> y <= x.
Proof.
  intros Hs Hy. apply sorted_snoc_inv in Hs as [_ Hf].
  apply in_app_or in Hy as [Hy|[<-|[]]]; [|lia].
  rewrite Forall_forall in Hf. apply list_elem_of_In, Hf in Hy. lia.
Qed.

(** The heart of the placement: when a header of level [lvl] is read, every
    object above the entry that is left on top of the stack (every object,
    when nothing is left) has at least that level. *)
Lemma nearest_above_parent (st : PState) (lev : nat -> nat) (lvl : nat)
    (below popped : list nat) :
  (forall y, y < length (heap st) ->
     In y (stack st)
     \/ exists z, y < z /\ z < length (heap st) /\ lev z <= lev y) ->
  StronglySorted lt (stack st) ->
  stack st = below ++ popped ->
  Forall (fun r => lvl <= lev r) popped ->
  forall y, y < length (heap st) ->
    (forall p, last below = Some p -> p < y) ->
    lvl <= lev y.
Proof.
  intros Hoff Hsorted Hstack Hpopped.
  intros y. remember (length (heap st) - y) as d eqn:Hd.
  revert y Hd. induction d as [d IH] using lt_wf_ind. intros y Hd Hy Hbound.
  destruct (Hoff y Hy) as [Hin|(z & Hyz & Hz & Hlev)].
  - rewrite Hstack in Hin. apply in_app_or in Hin as [Hin|Hin].
    + exfalso. destruct (last below) as [p|] eqn:El.
      * apply last_Some in El as [below' ->].
        rewrite Hstack in Hsorted. apply sorted_app_l in Hsorted.
        pose proof (sorted_last_max _ _ _ Hsorted Hin).
        pose proof (Hbound p eq_refl). lia.
      * apply last_None in El. subst below. destruct Hin.
    + rewrite Forall_forall in Hpopped. apply Hpopped, list_elem_of_In, Hin.
  - assert (lvl <= lev z); [|lia].
    apply (IH (length (heap st) - z)); [lia | reflexivity | exact Hz |].
    intros p Hp. pose proof (Hbound p Hp). lia.
Qed.

Lemma turn_nearest_same (st : PState) (f : SectionObj -> SectionObj) (top : nat)
    (blocks' : list CodeBlock) (idx' : nat) :
  (forall o, o_level (f o) = o_level o /\ o_subsections (f o) = o_subsections o) ->
  nearest_inv st ->
  nearest_inv (mkPState (alter f top (heap st)) (stack st) (roots st) blocks' idx').
Proof.
  intros Hf [Hs Hoff Hedges Hroots].
  assert (Hlev : forall r, level_of (alter f top (heap st)) r = level_of (heap st) r).
  { intros r. apply level_of_alter. intros o. apply Hf. }
  constructor; simpl.
  - exact Hs.
  - intros y Hy. rewrite length_alter in Hy.
    destruct (Hoff y Hy) as [Hin|(z & H1 & H2 & H3)]; [auto|].
    right. exists z. rewrite length_alter, !Hlev. auto.
  - intros q o c Hq Hc y Hqy Hyc. rewrite !Hlev.
    apply lookup_alter_Some in Hq as (o0 & Ho0 & [[_ ->]|[_ ->]]).
    + destruct (Hf o0) as [_ Hsub]. rewrite Hsub in Hc. eapply Hedges; eauto.
    + eapply Hedges; eauto.
  - intros r Hr y Hy. rewrite !Hlev. apply Hroots; assumption.
Qed.

Lemma turn_nearest_inv (lines : list (list ascii)) (st st' : PState) :
  wf_state lines st -> nearest_inv st -> turn lines st st' -> nearest_inv st'.
Proof.
  intros Hwf Hinv Hturn.
  destruct Hinv as [Hs Hoff Hedges Hroots].
  pose proof (wf_stack _ _ Hwf) as Hvalid.
  set (c := length (heap st)).
  assert (Hheader : forall h' lvl (g : list ascii) roots',
            length h' = S c ->
            (forall r, r < c -> level_of h' r = level_of (heap st) r) ->
            level_of h' c = level_value lvl ->
            find_parent h' (level_value lvl) (rev (stack st))
              = last (pop_stack h' (level_value lvl) (stack st)) ->
            (forall q o x, h' !! q = Some o -> In x (o_subsections o) ->
               (exists o0, heap st !! q = Some o0 /\ In x (o_subsections o0))
               \/ (x = c /\ last (pop_stack h' (level_value lvl) (stack st)) = Some q)) ->
            (forall r, In r roots' ->
               In r (roots st)
               \/ (r = c /\ last (pop_stack h' (level_value lvl) (stack st)) = None)) ->
            nearest_inv (mkPState h' (pop_stack h' (level_value lvl) (stack st) ++ [c])
                                  roots' (blocks st') (idx st'))).
  { intros h' lvl g roots' Hlen Hlev Hnew _ Hsubs Hrts.
    destruct (pop_stack_split h' (level_value lvl) (stack st))
      as (popped & Hsplit & Hpopped).
    set (below := pop_stack h' (level_value lvl) (stack st)) in *.
    assert (Hin_stack : forall r, In r (stack st) -> r < c).
    { intros r Hr. rewrite Forall_forall in Hvalid.
      apply Hvalid, list_elem_of_In, Hr. }
    assert (Hoff' : forall y, y < c ->
              In y (stack st)
              \/ exists z, y < z /\ z < c /\ level_of h' z <= level_of h' y).
    { intros y Hy. destruct (Hoff y Hy) as [Hin|(z & H1 & H2 & H3)]; [auto|].
      right. exists z. fold c in H2. rewrite !Hlev by lia. auto. }
    assert (Hkey : forall y, y < c ->
              (forall p, last below = Some p -> p < y) ->
              level_value lvl <= level_of h' y).
    { apply (nearest_above_parent st (level_of h') (level_value lvl) below popped);
        auto. }
    constructor; simpl.
    - apply sorted_snoc.
      + rewrite Hsplit in Hs. eapply sorted_app_l, Hs.
      + apply Forall_forall. intros r Hr. apply Hin_stack. rewrite Hsplit.
        apply in_or_app. left. apply list_elem_of_In, Hr.
    - intros y Hy. rewrite Hlen in Hy.
      destruct (Nat.eq_dec y c) as [->|Hne].
      { left. apply in_or_app. right. left. reflexivity. }
      destruct (Hoff' y ltac:(lia)) as [Hin|(z & H1 & H2 & H3)].
      + rewrite Hsplit in Hin. apply in_app_or in Hin as [Hin|Hin].
        * left. apply in_or_app. auto.
        * right. exists c. rewrite Hlen, Hnew.
          rewrite Forall_forall in Hpopped.
          apply list_elem_of_In, Hpopped in Hin. repeat split; lia.
      + right. exists z. rewrite Hlen. repeat split; auto; lia.
    - intros q o x Hq Hx y Hqy Hyx.
      destruct (Hsubs q o x Hq Hx) as [(o0 & Ho0 & Hx0)|[-> Hlast]].
      + assert (Hxc : x < c).
        { destruct (wf_heap _ _ Hwf q o0 Ho0) as [Hsub _ _].
          rewrite Forall_forall in Hsub.
          apply list_elem_of_In, Hsub in Hx0. fold c in Hx0. lia. }
        rewrite !Hlev by lia. eapply Hedges; eauto.
      + rewrite Hnew. apply Hkey; [exact Hyx|].
        intros p Hp. rewrite Hlast in Hp. injection Hp as <-. exact Hqy.
    - intros r Hr y Hy.
      destruct (Hrts r Hr) as [Hold|[-> Hlast]].
      + assert (Hrc : r < c).
        { pose proof (wf_roots _ _ Hwf) as Hv. rewrite Forall_forall in Hv.
          apply Hv, list_elem_of_In, Hold. }
        rewrite !Hlev by lia. apply Hroots; assumption.
      + rewrite Hnew. apply Hkey; [exact Hy|].
        intros p Hp. rewrite Hlast in Hp. discriminate. }
  destruct Hturn as [line lvl g Hl Hm Hfp | line lvl g parent Hl Hm Hfp
                    | line cb j top _ _ _ _ _ | line j _ _ _ _ _
                    | line top _ _ _ _ | line _ _ _ _].
  - subst c. apply (Hheader _ lvl g).
    + rewrite length_app. simpl. lia.
    + intros r Hr. apply level_of_snoc. exact Hr.
    + apply level_of_fresh.
    + apply pop_stack_parent.
    + intros q o x Hq Hx. left.
      apply lookup_snoc_Some in Hq as [[_ Hq]|[_ ->]]; [eauto|destruct Hx].
    + intros r Hr. apply in_app_or in Hr as [Hr|[<-|[]]]; [auto|].
      right. split; [reflexivity|]. rewrite <- pop_stack_parent. exact Hfp.
  - subst c. set (h1 := heap st ++ [new_section st lvl g]) in *.
    assert (E : pop_stack (alter (append_subsection (length (heap st))) parent h1)
                          (level_value lvl) (stack st)
                = pop_stack h1 (level_value lvl) (stack st)).
    { apply pop_stack_ext. intros q _. apply level_of_alter. reflexivity. }
    apply (Hheader _ lvl g).
    + rewrite length_alter. unfold h1. rewrite length_app. simpl. lia.
    + intros r Hr. rewrite level_of_alter by reflexivity. apply level_of_snoc, Hr.
    + rewrite level_of_alter by reflexivity. apply level_of_fresh.
    + apply pop_stack_parent.
    + intros q o x Hq Hx.
      apply lookup_alter_Some in Hq as (o0 & Ho0 & Hcase).
      apply lookup_snoc_Some in Ho0 as [[_ Ho0]|[-> ->]].
      * destruct Hcase as [[-> ->]|[_ ->]]; [|eauto].
        simpl in Hx. apply in_app_or in Hx as [Hx|[<-|[]]]; [eauto|].
        right. split; [reflexivity|]. rewrite E, <- pop_stack_parent. exact Hfp.
      * destruct Hcase as [[<- _]|[_ ->]]; [|destruct Hx].
        apply find_parent_Some in Hfp as [_ Hlev].
        unfold h1 in Hlev. rewrite level_of_fresh in Hlev. simpl in Hlev. lia.
    + intros r Hr. auto.
  - apply turn_nearest_same; [intros o; auto | constructor; assumption].
  - constructor; assumption.
  - apply turn_nearest_same; [intros o; auto | constructor; assumption].
  - constructor; assumption.
Qed.

Lemma parse_state_nearest_inv (text : list ascii) : nearest_inv (parse_state text).
Proof.
  unfold parse_state.
  apply (parse_loop_turns (split_lines text) nearest_inv).
  - intros st st'. apply turn_nearest_inv.
  - apply init_state_wf.
  - constructor; simpl; try constructor; intros; try lia; contradiction.
Qed.

Lemma line_lt_ref_lt (st : PState) (p q : nat) (op oq : SectionObj) :
  order_inv st -> heap st !! p = Some op -> heap st !! q = Some oq ->
  o_line_number op < o_line_number oq -> p < q.
Proof.
  intros Hord Hp Hq Hlt.
  destruct (Nat.lt_trichotomy p q) as [H|[->|H]]; [exact H| |].
  - rewrite Hp in Hq. injection Hq as <-. lia.
  - pose proof (oi_order _ Hord q p oq op Hq Hp H). lia.
Qed.

Lemma parsed_edge_between (text : list ascii) (s c x : Section) :
  In s (_flatten_sections (sections (parse_document text))) ->
  In c (subsections s) ->
  In x (_flatten_sections (sections (parse_document text))) ->
  line_number s < line_number x -> line_number x < line_number c ->
  level_value (level c) <= level_value (level x).
Proof.
  intros Hs Hc Hx Hsx Hxc.
  destruct (parse_state_invariants text) as (_ & _ & Hord & _).
  destruct (parse_state_nearest_inv text) as [_ _ Hedges _].
  destruct (parsed_edge text s c Hs Hc)
    as (p & o & cref & oc & Ho & Hsh & Hin & Hoc & Hshc & Hpc & Hlev).
  destruct Hsh as (_ & Hl & _ & _ & Hln & _).
  destruct Hshc as (_ & Hlc & _ & _ & Hlnc & _).
  destruct (parse_document_flatten text x Hx) as (y & oy & Hy & Hshy & _).
  destruct Hshy as (_ & Hly & _ & _ & Hlny & _).
  rewrite Hlc, Hly. rewrite Hln, Hlny in Hsx. rewrite Hlny, Hlnc in Hxc.
  pose proof (line_lt_ref_lt _ _ _ _ _ Hord Ho Hy Hsx) as Hpy.
  pose proof (line_lt_ref_lt _ _ _ _ _ Hord Hy Hoc Hxc) as Hyc.
  pose proof (Hedges p o cref Ho Hin y Hpy Hyc) as Hle.
  rewrite (level_of_lookup _ _ _ Hoc), (level_of_lookup _ _ _ Hy) in Hle.
  exact Hle.
Qed.

Lemma parsed_edge_lines (text : list ascii) (s c : Section) :
  In s (_flatten_sections (sections (parse_document text))) ->
  In c (subsections s) ->
  level_value (level s) < level_value (level c)
  /\ line_number s < line_number c.
Proof.
  intros Hs Hc.
  destruct (parse_state_invariants text) as (_ & _ & Hord & _).
  destruct (parsed_edge text s c Hs Hc)
    as (p & o & cref & oc & Ho & Hsh & Hin & Hoc & Hshc & Hpc & Hlev).
  destruct Hsh as (_ & Hl & _ & _ & Hln & _).
  destruct Hshc as (_ & Hlc & _ & _ & Hlnc & _).
  rewrite Hl, Hlc, Hln, Hlnc.
  split; [exact Hlev | exact (oi_order _ Hord p cref o oc Ho Hoc Hpc)].
Qed.

Lemma parsed_root_above (text : list ascii) (r x : Section) :
  In r (sections (parse_document text)) ->
  In x (_flatten_sections (sections (parse_document text))) ->
  line_number x < line_number r ->
  level_value (level r) <= level_value (level x).
Proof.
  intros Hr Hx Hlt.
  destruct (parse_state_invariants text) as (_ & _ & Hord & _).
  destruct (parse_state_nearest_inv text) as [_ _ _ Hroots].
  pose proof (parse_document_sections text) as Hfr.
  unfold freeze_roots in Hfr. apply mapM_Some_1 in Hfr.
  apply list_elem_of_In, list_elem_of_lookup in Hr as [i Hi].
  destruct (Forall2_lookup_r _ _ _ _ _ Hfr Hi) as (rref & Hrref & Hf).
  apply freeze_shows in Hf as (orr & Horr & Hshr & _).
  destruct (parse_document_flatten text x Hx) as (y & oy & Hy & Hshy & _).
  destruct Hshr as (_ & Hlr & _ & _ & Hlnr & _).
  destruct Hshy as (_ & Hly & _ & _ & Hlny & _).
  rewrite Hlr, Hly. rewrite Hlnr, Hlny in Hlt.
  pose proof (line_lt_ref_lt _ _ _ _ _ Hord Hy Horr Hlt) as Hyr.
  assert (Hin : In rref (roots (parse_state text)))
    by (apply list_elem_of_In, list_elem_of_lookup; eauto).
  pose proof (Hroots rref Hin y Hyr) as Hle.
  rewrite (level_of_lookup _ _ _ Horr), (level_of_lookup _ _ _ Hy) in Hle.
  exact Hle.
Qed.

(** X21: in the forest of a parsed document a section is attached to the
    nearest section above it that has a smaller level: the level of a
    subsection is greater than that of its section, its header lies below,
    and every section whose header lies between the two has at least the
    level of the subsection; a top-level section has at most the level of
    every section whose header lies above its own. *)
Theorem X21_attached_to_nearest_smaller_level (text : list ascii) :
  let flat := _flatten_sections (sections (parse_document text)) in
  (forall s c, In s flat -> In c (subsections s) ->
     level_value (level s) < level_value (level c)
     /\ line_number s < line_number c
     /\ forall x, In x flat ->
          line_number s < line_number x -> line_number x < line_number c ->
          level_value (level c) <= level_value (level x))
  /\ (forall r, In r (sections (parse_document text)) ->
        forall x, In x flat -> line_number x < line_number r ->
          level_value (level r) <= level_value (level x)).
Proof.
  intros flat. split.
  - intros s c Hs Hc.
    destruct (parsed_edge_lines text s c Hs Hc) as [Hlev Hline].
    split; [exact Hlev|]. split; [exact Hline|].
    intros x Hx. apply (parsed_edge_between text s c x Hs Hc Hx).
  - intros r Hr x Hx. apply (parsed_root_above text r x Hr Hx).
Qed.

(** A section of level 3 right after the first header, then one of level
    2: both are attached to the first section. *)
Example nearest_smaller_level_sample :
  map (fun s => (title s, map title (subsections s)))
      (sections (parse_document (unlines ["# A"; "### X"; "## B"; "### Y"])))
    = [(str "A", [str "X"; str "B"])].
Proof. vm_compute. reflexivity. Qed.

(* ===================================================================== *)
(** * Titles and languages are stripped                                  *)
(* ===================================================================== *)

Lemma dropwhile_fixed {A} (p : A -> bool) (l : list A) :
  match l with [] => True | x :: _ => p x = false end -> dropwhile p l = l.
Proof. destruct l as [|x l]; simpl; [reflexivity|]. intros ->. reflexivity. Qed.

Lemma dropwhile_stops {A} (p : A -> bool) (l : list A) :
  match dropwhile p l with [] => True | x :: _ => p x = false end.
Proof.
  destruct (dropwhile p l) as [|x rest] eqn:E; [exact I|].
  eapply dropwhile_head; eauto.
Qed.

Lemma rstrip_prefix (s : list ascii) : exists tail, s = rstrip s ++ tail.
Proof.
  unfold rstrip. exists (rev (takewhile is_space (rev s))).
  rewrite <- rev_app_distr, takewhile_dropwhile, rev_involutive. reflexivity.
Qed.

(** Stripping a stripped text changes nothing. *)
Lemma strip_idempotent (s : list ascii) : strip (strip s) = strip s.
Proof.
  unfold strip at 1.
  assert (Hl : lstrip (strip s) = strip s).
  { unfold lstrip. apply dropwhile_fixed. unfold strip.
    destruct (rstrip_prefix (lstrip s)) as [tail Ht].
    pose proof (dropwhile_stops is_space s) as Hhead. fold (lstrip s) in Hhead.
    destruct (rstrip (lstrip s)) as [|x r]; [exact I|].
    rewrite Ht in Hhead. exact Hhead. }
  rewrite Hl. unfold rstrip at 1. unfold strip at 1. unfold rstrip at 1.
  rewrite rev_involutive. rewrite dropwhile_fixed; [reflexivity|].
  apply dropwhile_stops.
Qed.

(** X22: the title of every section of a parsed document and the language
    of every code block carry no white space at either end: stripping them
    again changes nothing. *)
Theorem X22_titles_and_languages_stripped (text : list ascii) :
  (forall s, In s (_flatten_sections (sections (parse_document text))) ->
     strip (title s) = title s)
  /\ (forall cb, In cb (all_code_blocks (parse_document text)) ->
        strip (language cb) = language cb).
Proof.
  split.
  - intros s Hs.
    destruct (parse_document_flatten text s Hs) as (p & o & Ho & Hsh & Hok & _).
    destruct Hok as [_ _ (line & g & _ & _ & Ht)].
    destruct Hsh as (-> & _). rewrite Ht. apply strip_idempotent.
  - intros cb Hcb.
    destruct (parse_state_invariants text) as (_ & _ & _ & _ & [Hok _] & _).
    rewrite Forall_forall in Hok.
    destruct (Hok cb (proj2 (list_elem_of_In _ _) Hcb))
      as (first & j & _ & _ & _ & -> & _).
    unfold fence_language.
    destruct (strip (drop 3 (strip first))) as [|c l] eqn:E;
      [vm_compute; reflexivity|].
    rewrite <- E. apply strip_idempotent.
Qed.

(* ===================================================================== *)
(** * The flattened forest is in the order of the text                   *)
(* ===================================================================== *)

Lemma turn_lists_sorted (lines : list (list ascii)) (st st' : PState) :
  wf_state lines st -> lists_sorted_inv st -> turn lines st st' ->
  lists_sorted_inv st'.
Proof.
  intros Hwf [Hroots Hsubs] Hturn. split.
  - pose proof (wf_roots _ _ Hwf) as Hv.
    destruct Hturn; simpl; try exact Hroots.
    apply sorted_snoc; [exact Hroots | exact Hv].
  - intros p o' Ho'.
    destruct (turn_objects _ _ _ _ _ Hturn Ho')
      as [(o & Ho & _)|(_ & _ & _ & _ & -> & _)]; [|constructor].
    destruct (turn_fields _ _ _ _ _ _ Hturn Ho Ho') as (_ & _ & [-> | ->]);
      [exact (Hsubs p o Ho)|].
    apply sorted_snoc; [exact (Hsubs p o Ho)|].
    destruct (wf_heap _ _ Hwf p o Ho) as [Hs _ _].
    eapply Forall_impl; [exact Hs|]. simpl. intros r [[_ Hr] _]. exact Hr.
Qed.

Lemma parse_state_lists_sorted (text : list ascii) :
  lists_sorted_inv (parse_state text).
Proof.
  unfold parse_state.
  apply (parse_loop_turns (split_lines text) lists_sorted_inv).
  - intros st st'. apply turn_lists_sorted.
  - apply init_state_wf.
  - split; [constructor|]. intros p o H. destruct p; discriminate.
Qed.

Lemma Forall2_sorted {A B} (Q : A -> B -> Prop) (R : A -> A -> Prop)
    (R' : B -> B -> Prop) (l : list A) (l' : list B) :
  (forall a b a' b', Q a a' -> Q b b' -> R a b -> R' a' b') ->
  Forall2 Q l l' -> StronglySorted R l -> StronglySorted R' l'.
Proof.
  intros Hmono H. induction H as [|a a' l l' Haa' Hll' IH]; intros Hs;
    [constructor|].
  apply StronglySorted_inv in Hs as [Hs Ha].
  constructor; [apply IH, Hs|].
  apply Forall_forall. intros b' Hb'.
  apply list_elem_of_lookup in Hb' as [i Hi].
  destruct (Forall2_lookup_r _ _ _ _ _ Hll' Hi) as (b & Hb & Hbb').
  rewrite Forall_forall in Ha.
  eapply Hmono; [exact Haa' | exact Hbb' |].
  apply Ha, list_elem_of_lookup. eauto.
Qed.

Lemma parsed_children_sorted (text : list ascii) (s : Section) :
  In s (_flatten_sections (sections (parse_document text))) ->
  StronglySorted header_above (subsections s).
Proof.
  intros Hs.
  destruct (parse_document_flatten text s Hs) as (p & o & Ho & _ & _ & Hsubs).
  destruct (parse_state_invariants text) as (_ & _ & Hord & _).
  destruct (parse_state_lists_sorted text) as [_ Hsorted].
  eapply Forall2_sorted; [|exact Hsubs | exact (Hsorted p o Ho)].
  intros a b a' b' (oa & Hoa & Hsha) (ob & Hob & Hshb) Hab. unfold header_above.
  destruct Hsha as (_ & _ & _ & _ & -> & _).
  destruct Hshb as (_ & _ & _ & _ & -> & _).
  exact (oi_order _ Hord a b oa ob Hoa Hob Hab).
Qed.

Lemma parsed_roots_sorted (text : list ascii) :
  StronglySorted header_above (sections (parse_document text)).
Proof.
  pose proof (parse_document_sections text) as Hfr.
  unfold freeze_roots in Hfr. apply mapM_Some_1 in Hfr.
  destruct (parse_state_invariants text) as (_ & _ & Hord & _).
  destruct (parse_state_lists_sorted text) as [Hsorted _].
  eapply Forall2_sorted; [|exact Hfr | exact Hsorted].
  intros a b a' b' Ha Hb Hab. unfold header_above.
  apply freeze_shows in Ha as (oa & Hoa & Hsha & _).
  apply freeze_shows in Hb as (ob & Hob & Hshb & _).
  destruct Hsha as (_ & _ & _ & _ & -> & _).
  destruct Hshb as (_ & _ & _ & _ & -> & _).
  exact (oi_order _ Hord a b oa ob Hoa Hob Hab).
Qed.

Lemma parsed_same_line_same_level (text : list ascii) (x b : Section) :
  In x (_flatten_sections (sections (parse_document text))) ->
  In b (_flatten_sections (sections (parse_document text))) ->
  line_number x = line_number b -> level x = level b.
Proof.
  intros Hx Hb Heq.
  destruct (parse_state_invariants text) as (_ & _ & Hord & _).
  destruct (parse_document_flatten text x Hx) as (p & o & Ho & Hsh & _).
  destruct (parse_document_flatten text b Hb) as (q & oq & Hq & Hshq & _).
  destruct Hsh as (_ & Hl & _ & _ & Hln & _).
  destruct Hshq as (_ & Hlq & _ & _ & Hlnq & _).
  assert (p = q) by (eapply same_line_same_ref; eauto; congruence).
  subst q. rewrite Ho in Hq. injection Hq as <-. congruence.
Qed.

(** No section reaches below a later section of its level or less. *)
Lemma parsed_no_crossing (text : list ascii) (t b d : Section) :
  In t (_flatten_sections (sections (parse_document text))) ->
  In b (_flatten_sections (sections (parse_document text))) ->
  line_number t < line_number b ->
  level_value (level b) <= level_value (level t) ->
  In d (_flatten_section t) ->
  line_number d < line_number b.
Proof.
  revert d. induction t as [t IH] using Section_nested_ind.
  intros d Ht Hb Htb Hlev Hd.
  assert (Hd' : d = t \/ exists x, In x (subsections t) /\ In d (_flatten_section x)).
  { destruct t as [ti l c pth n cbs subs]. simpl in Hd.
    destruct Hd as [<-|Hd]; [auto|]. right.
    apply in_concat in Hd as (fl & Hfl & Hd).
    apply in_map_iff in Hfl as (x & <- & Hx). eauto. }
  clear Hd. destruct Hd' as [->|(x & Hx & Hd)]; [exact Htb|].
  destruct (parsed_edge_lines text t x Ht Hx) as [Hlx Hline].
  assert (Hxf : In x (_flatten_sections (sections (parse_document text))))
    by exact (_flatten_sections_closed _ t x Ht Hx).
  assert (Hxb : line_number x < line_number b).
  { destruct (Nat.lt_trichotomy (line_number x) (line_number b)) as [H|[H|H]];
      [exact H | |].
    - pose proof (parsed_same_line_same_level text x b Hxf Hb H) as E.
      rewrite E in Hlx. lia.
    - pose proof (parsed_edge_between text t x b Ht Hx Hb Htb H). lia. }
  rewrite Forall_forall in IH.
  apply (IH x (proj2 (list_elem_of_In _ _) Hx) d Hxf Hb Hxb); [lia | exact Hd].
Qed.

Lemma sorted_concat {A B} (R : B -> B -> Prop) (f : A -> list B) (l : list A) :
  (forall x, In x l -> StronglySorted R (f x)) ->
  StronglySorted (fun x y => forall a b, In a (f x) -> In b (f y) -> R a b) l ->
  StronglySorted R (concat (map f l)).
Proof.
  induction l as [|x l IH]; simpl; intros Hin Hs; [constructor|].
  apply StronglySorted_inv in Hs as [Hs Hx].
  assert (Hrest : StronglySorted R (concat (map f l))) by (apply IH; auto).
  assert (Hfx : StronglySorted R (f x)) by (apply Hin; auto).
  assert (Hcross : forall a b, In a (f x) -> In b (concat (map f l)) -> R a b).
  { intros a b Ha Hb. apply in_concat in Hb as (fl & Hfl & Hb).
    apply in_map_iff in Hfl as (y & <- & Hy).
    rewrite Forall_forall in Hx. apply (Hx y); auto. apply list_elem_of_In, Hy. }
  clear - Hrest Hfx Hcross.
  induction (f x) as [|a fx IHf]; simpl; [exact Hrest|].
  apply StronglySorted_inv in Hfx as [Hfx Ha].
  constructor.
  - apply IHf; [exact Hfx|]. intros a' b Ha' Hb. apply Hcross; [right|]; assumption.
  - apply Forall_app. split; [exact Ha|].
    apply Forall_forall. intros b Hb. apply Hcross; [left; reflexivity|].
    apply list_elem_of_In, Hb.
Qed.

Lemma sorted_strengthen {A} (R R' : A -> A -> Prop) (l : list A) :
  (forall x y, In x l -> In y l -> R x y -> R' x y) ->
  StronglySorted R l -> StronglySorted R' l.
Proof.
  induction l as [|x l IH]; intros H Hs; [constructor|].
  apply StronglySorted_inv in Hs as [Hs Hx].
  constructor.
  - apply IH; [|exact Hs]. intros a b Ha Hb. apply H; right; assumption.
  - apply Forall_forall. intros y Hy. rewrite Forall_forall in Hx.
    apply H; [left; reflexivity | right; apply list_elem_of_In, Hy | apply Hx, Hy].
Qed.

Lemma parsed_subtree_below_root (text : list ascii) (t d : Section) :
  In t (_flatten_sections (sections (parse_document text))) ->
  In d (_flatten_section t) -> line_number t <= line_number d.
Proof.
  revert d. induction t as [t IH] using Section_nested_ind. intros d Ht Hd.
  assert (Hd' : d = t \/ exists x, In x (subsections t) /\ In d (_flatten_section x)).
  { destruct t as [ti l c pth n cbs subs]. simpl in Hd.
    destruct Hd as [<-|Hd]; [auto|]. right.
    apply in_concat in Hd as (fl & Hfl & Hd).
    apply in_map_iff in Hfl as (x & <- & Hx). eauto. }
  clear Hd. destruct Hd' as [->|(x & Hx & Hd)]; [lia|].
  destruct (parsed_edge_lines text t x Ht Hx) as [_ Hline].
  assert (Hxf : In x (_flatten_sections (sections (parse_document text))))
    by exact (_flatten_sections_closed _ t x Ht Hx).
  rewrite Forall_forall in IH.
  pose proof (IH x (proj2 (list_elem_of_In _ _) Hx) d Hxf Hd). lia.
Qed.

Lemma parsed_subtree_sorted (text : list ascii) (t : Section) :
  In t (_flatten_sections (sections (parse_document text))) ->
  StronglySorted header_above (_flatten_section t).
Proof.
  induction t as [t IH] using Section_nested_ind. intros Ht.
  pose proof (parsed_children_sorted text t Ht) as Hchildren.
  assert (Hchild : forall x, In x (subsections t) ->
            In x (_flatten_sections (sections (parse_document text)))).
  { intros x Hx. exact (_flatten_sections_closed _ t x Ht Hx). }
  assert (Hbody : StronglySorted header_above
                    (concat (map _flatten_section (subsections t)))).
  { apply sorted_concat.
    - intros x Hx. rewrite Forall_forall in IH.
      apply (IH x (proj2 (list_elem_of_In _ _) Hx)), Hchild, Hx.
    - eapply sorted_strengthen; [|exact Hchildren].
      intros x y Hx Hy Hxy a b Ha Hb. unfold header_above in *.
      assert (Hlev : level_value (level y) <= level_value (level x)).
      { apply (parsed_edge_between text t y x Ht Hy (Hchild x Hx)); [|exact Hxy].
        apply (parsed_edge_lines text t x Ht Hx). }
      pose proof (parsed_no_crossing text x y a (Hchild x Hx) (Hchild y Hy)
                    Hxy Hlev Ha).
      pose proof (parsed_subtree_below_root text y b (Hchild y Hy) Hb). lia. }
  destruct t as [ti l c pth n cbs subs]. simpl in *.
  constructor; [exact Hbody|].
  apply Forall_forall. intros d Hd. apply list_elem_of_In in Hd.
  apply in_concat in Hd as (fl & Hfl & Hd).
  apply in_map_iff in Hfl as (x & <- & Hx).
  unfold header_above. simpl.
  destruct (parsed_edge_lines text _ x Ht Hx) as [_ Hline]. simpl in Hline.
  pose proof (parsed_subtree_below_root text x d (Hchild x Hx) Hd). lia.
Qed.

(** X23: the flattened forest of a parsed document lists the sections in
    the order of their header lines: the line numbers grow strictly along
    the list, so no header line gives two entries. *)
Theorem X23_flattened_in_document_order (text : list ascii) :
  StronglySorted (fun a b => line_number a < line_number b)
                 (_flatten_sections (sections (parse_document text))).
Proof.
  unfold _flatten_sections.
  assert (Hroot : forall r, In r (sections (parse_document text)) ->
            In r (_flatten_sections (sections (parse_document text))))
    by (intros r; apply _flatten_sections_root).
  apply (sorted_concat header_above).
  - intros r Hr. apply (parsed_subtree_sorted text), Hroot, Hr.
  - eapply sorted_strengthen; [|exact (parsed_roots_sorted text)].
    intros x y Hx Hy Hxy a b Ha Hb. unfold header_above in *.
    assert (Hlev : level_value (level y) <= level_value (level x))
      by (apply (parsed_root_above text y x Hy (Hroot x Hx) Hxy)).
    pose proof (parsed_no_crossing text x y a (Hroot x Hx) (Hroot y Hy)
                  Hxy Hlev Ha).
    pose proof (parsed_subtree_below_root text y b (Hroot y Hy) Hb). lia.
Qed.

(* ===================================================================== *)
(** * Lines inside and outside fenced blocks                             *)
(* ===================================================================== *)














(** Inside the block of [fenced_deep_text] the line is not read. *)
Example deep_line_inside_block :
  in_fenced_block (split_lines fenced_deep_text) 2 = true
  /\ map idx (map (fun n => parse_loop n (split_lines fenced_deep_text) init_state)
                  [0; 1; 2; 3])
     = [0; 1; 4; 4].
Proof. split; vm_compute; reflexivity. Qed.
